(** * The offline service worker [www/sw.js]: generations, routing, update check

    A shallow embedding of the worker's functions over an explicit model of
    the host (Cache Storage, network, key/value store, clients, broadcast
    channel), followed by the properties of the specification.

    Modelling conventions.
    - An [async] function is a computation in the monad [M]: it threads the
      worker-visible [State] and either returns or throws ([Outcome]).
    - A promise that has been started is its settled [Outcome];
      [Promise_all] waits for a list of them.  Operations started together
      run in list order, one after the other: they are independent host
      operations, and the worker itself is single threaded.  When several
      of them are rejected, [Promise.all] is rejected with the one that
      settles first; the model takes the first in list order, and the
      statements only say that the error is the one of some rejected
      operation.
    - Cache Storage is an association list in creation order (the order of
      [caches.keys()]); a cache is a finite map from request URL to
      response.
    - Everything the host does is recorded in [trace], oldest event first.
    - [fetch] and [cache.put] can fail, each under an oracle of the host
      ([network], [put_ok]); [caches.open], [caches.delete], [caches.keys]
      and the key/value store are taken to resolve.
    - A cache is keyed by the absolute URL of the request.  A string the
      worker hands to [new Request] or [cache.put] is first resolved
      against the worker's own URL by the host's URL parser ([resolve]),
      which can refuse it; [event.request.url] is absolute already. *)

From Stdlib Require Import Ascii.
From stdpp Require Import gmap strings list fin_maps.

(** ** Constants of the source *)

Definition OFFLINE_DATA_FILE : string := "offline.js".
Definition CACHE_NAME_PREFIX : string := "c2offline".
Definition LAZYLOAD_KEYNAME : string := "".

(** ** JavaScript string helpers *)

(** [s.startsWith(p)] *)
Definition startsWith (s p : string) : bool := String.prefix p s.

(** [s.substring(n)] *)
Definition substring_from (n : nat) (s : string) : string :=
  String.substring n (String.length s - n) s.

(** ** Data *)

(** The body of [offline.js] as [response.json()] decodes it. *)
Record Manifest := mkManifest {
  m_version : string;
  m_fileList : list string;
  m_lazyLoad : option (list string)
}.

(** A [Response]; [r_json] is what [response.json()] resolves to, [None]
    when it rejects. *)
Record Response := mkResponse {
  r_ok : bool;
  r_url : string;
  r_status : nat;
  r_statusText : string;
  r_json : option Manifest
}.

Inductive CacheMode := CacheDefault | CacheNoStore.

(** What is handed to the host's [fetch]: the URL, the digits appended to
    its query string (if any) and the [cache] option. *)
Record FetchReq := mkFetchReq {
  fq_url : string;
  fq_search : option N;
  fq_cache : CacheMode
}.

Inductive RequestMode := ModeNavigate | ModeOther.

(** [event.request] *)
Record Request := mkRequest {
  rq_url : string;
  rq_origin : string;   (* new URL(request.url).origin *)
  rq_mode : RequestMode
}.

Inductive ClientType := TWindow | TWorker | TSharedWorker.

Record Client := mkClient {
  c_url : string;
  c_type : ClientType;
  c_controlled : bool
}.

(** A broadcast message [{ type, version? }]. *)
Record Message := mkMessage {
  msg_type : string;
  msg_version : option string
}.

Inductive Exn :=
| ErrNotAllFetched                          (* Error("not all resources were fetched successfully") *)
| ErrBadStatus (file : string) (st : nat) (txt : string)
| NetworkError (url : string)               (* fetch() rejected *)
| JsonError                                 (* response.json() rejected *)
| SyntaxError (pattern : string)            (* new RegExp(pattern) threw *)
| TypeError (input : string)                (* new Request(input) threw: not a URL *)
| PutError (cacheName key : string).        (* cache.put() rejected *)

Inductive LogEntry :=
| LogLazyMatchError (e : Exn)               (* "Error matching in lazy-load list" *)
| LogFetchError (url : string) (st : nat) (txt : string)
| LogWriteError (e : Exn)
| LogCaching (n : nat)
| LogUpdatePending
| LogUpToDate
| LogUpdateReady
| LogOfflineReady
| LogUpdateCheckFailed (e : Exn)
| LogUpgrading
| LogLazyPutFailed (url : string) (e : Exn).

Inductive LogLevel := LvLog | LvWarn | LvError.

Inductive Event :=
| EvFetch (q : FetchReq)
| EvCacheOpen (name : string)
| EvCachePut (name key : string) (stored : bool)
| EvCacheDelete (name : string)
| EvSetItem (key : string) (v : list string)
| EvPostMessage (m : Message)
| EvConsole (lv : LogLevel) (e : LogEntry).

(** ** The host *)

Record Host := mkHost {
  scope : string;                                   (* self.registration.scope *)
  location_origin : string;                         (* location.origin *)
  has_BroadcastChannel : bool;                      (* typeof BroadcastChannel !== "undefined" *)
  has_localforage : bool;                           (* typeof localforage !== "undefined" *)
  RegExp : string -> option (string -> bool);       (* new RegExp(p): throws, or gives p's test *)
  resolve : string -> option string;                (* new Request(s).url: throws, or the URL *)
  random : nat -> N;                                (* n-th Math.floor(Math.random() * 1000000) *)
  network : nat -> FetchReq -> option Response;     (* n-th fetch: rejects, or a response *)
  put_ok : string -> string -> bool;                (* does the put under that URL succeed *)
  clients : list Client
}.

(** ** Worker-visible state *)

Record State := mkState {
  caches : list (string * gmap string Response);    (* Cache Storage, creation order *)
  lazy_store : option (list string);                (* localforage item under LAZYLOAD_KEYNAME *)
  n_random : nat;
  n_fetch : nat;
  trace : list Event
}.

Definition set_caches (f : list (string * gmap string Response) -> list (string * gmap string Response))
    (s : State) : State :=
  mkState (f (caches s)) (lazy_store s) (n_random s) (n_fetch s) (trace s).

Definition record (e : Event) (s : State) : State :=
  mkState (caches s) (lazy_store s) (n_random s) (n_fetch s) (trace s ++ [e]).

(** ** The monad of asynchronous functions *)

Inductive Outcome (A : Type) :=
| Ret (a : A)
| Throw (e : Exn).
Arguments Ret {A} a.
Arguments Throw {A} e.

Definition M (A : Type) : Type := State -> Outcome A * State.

Definition ret {A} (a : A) : M A := fun s => (Ret a, s).
Definition throw {A} (e : Exn) : M A := fun s => (Throw e, s).

Definition bind {A B} (m : M A) (k : A -> M B) : M B := fun s =>
  match m s with
  | (Ret a, s') => k a s'
  | (Throw e, s') => (Throw e, s')
  end.

#[global] Instance M_ret : MRet M := @ret.
#[global] Instance M_bind : MBind M := fun A B k m => bind m k.

(** [try { body } catch (err) { handler }] *)
Definition try_catch {A} (body : M A) (handler : Exn -> M A) : M A := fun s =>
  match body s with
  | (Ret a, s') => (Ret a, s')
  | (Throw e, s') => handler e s'
  end.

(** Calling an async function without awaiting it: it runs, and the caller
    holds the settled promise. *)
Definition start {A} (m : M A) : M (Outcome A) := fun s =>
  let '(o, s') := m s in (Ret o, s').

(** [await p] *)
Definition await {A} (p : Outcome A) : M A := fun s => (p, s).

Fixpoint mapM {A B} (f : A -> M B) (l : list A) : M (list B) :=
  match l with
  | [] => ret []
  | x :: l' => y ← f x; ys ← mapM f l'; ret (y :: ys)
  end.

(** [await Promise.all(ps)] on settled promises: the values, or a
    rejection, here the first in list order. *)
Fixpoint Promise_all {A} (ps : list (Outcome A)) : M (list A) :=
  match ps with
  | [] => ret []
  | p :: ps' => a ← await p; l ← Promise_all ps'; ret (a :: l)
  end.

(** The clients [clients.matchAll({ includeUncontrolled, type: "window" })]
    selects among [cs]. *)
Definition matching_clients (includeUncontrolled : bool) (cs : list Client) : list Client :=
  List.filter
    (fun c => match c_type c with
              | TWindow => includeUncontrolled || c_controlled c
              | _ => false
              end)
    cs.

(** [fileList.unshift("./")], then [fileList.unshift(mainPageUrl)] under
    the guard of [UpdateCheck]. *)
Definition unshift_entry_pages (mainPageUrl : string) (fileList : list string) : list string :=
  let fileList := "./" :: fileList in
  if negb (String.eqb mainPageUrl "") && negb (bool_decide (mainPageUrl ∈ fileList))
  then mainPageUrl :: fileList
  else fileList.

(** The first cache called [name] in a Cache Storage listing. *)
Fixpoint assoc (name : string) (cs : list (string * gmap string Response))
    : option (gmap string Response) :=
  match cs with
  | [] => None
  | c :: cs' => if decide (c.1 = name) then Some c.2 else assoc name cs'
  end.

(** Writing [key := r] into the cache called [name]. *)
Definition store_entry (name key : string) (r : Response)
    (cs : list (string * gmap string Response)) : list (string * gmap string Response) :=
  map (fun c => if decide (c.1 = name) then (c.1, <[key := r]> c.2) else c) cs.

Definition emit (e : Event) : M unit := fun s => (Ret tt, record e s).

Definition console_log (e : LogEntry) : M unit := emit (EvConsole LvLog e).
Definition console_warn (e : LogEntry) : M unit := emit (EvConsole LvWarn e).
Definition console_error (e : LogEntry) : M unit := emit (EvConsole LvError e).

Section Worker.

Variable h : Host.

(** ** Host primitives *)

(** [fetch(q)] *)
Definition fetch (q : FetchReq) : M Response := fun s =>
  let s' := mkState (caches s) (lazy_store s) (n_random s) (S (n_fetch s))
                    (trace s ++ [EvFetch q]) in
  match network h (n_fetch s) q with
  | Some r => (Ret r, s')
  | None => (Throw (NetworkError (fq_url q)), s')
  end.

(** [Math.floor(Math.random() * 1000000)] *)
Definition next_random : M N := fun s =>
  (Ret (random h (n_random s)),
   mkState (caches s) (lazy_store s) (S (n_random s)) (n_fetch s) (trace s)).

Definition cache_names (s : State) : list string := (caches s).*1.

(** [caches.keys()] *)
Definition caches_keys : M (list string) := fun s => (Ret (cache_names s), s).

(** [caches.has(name)] *)
Definition has_cache (name : string) (s : State) : bool :=
  bool_decide (name ∈ cache_names s).

Definition caches_has (name : string) : M bool := fun s => (Ret (has_cache name s), s).

(** [caches.open(name)]: creates the cache when it is absent.  The worker
    keeps the name as its handle on the cache. *)
Definition caches_open (name : string) : M string := fun s =>
  let s1 := if has_cache name s then s
            else set_caches (fun cs => cs ++ [(name, ∅)]) s in
  (Ret name, record (EvCacheOpen name) s1).

(** [caches.delete(name)] *)
Definition caches_delete (name : string) : M bool := fun s =>
  (Ret (has_cache name s),
   record (EvCacheDelete name)
     (set_caches (filter (fun c => c.1 ≠ name)) s)).

Definition find_cache (name : string) (s : State) : option (gmap string Response) :=
  assoc name (caches s).

(** [cache.match(request)] *)
Definition lookup_entry (name key : string) (s : State) : option Response :=
  find_cache name s ≫= (fun c => c !! key).

Definition cache_match (name : string) (rq : Request) : M (option Response) := fun s =>
  (Ret (lookup_entry name (rq_url rq) s), s).

(** [cache.put(request, response)] for a [Request] object whose URL is
    [key]: the entry is stored under that URL. *)
Definition cache_put (name key : string) (r : Response) : M unit := fun s =>
  if put_ok h name key then
    (Ret tt, record (EvCachePut name key true) (set_caches (store_entry name key r) s))
  else (Throw (PutError name key), record (EvCachePut name key false) s).

(** [cache.put(request, response)] for a string [request]: the cache
    builds [new Request(request)] and stores the entry under its URL; the
    promise is rejected when the string is not a URL. *)
Definition cache_put_string (name request : string) (r : Response) : M unit :=
  match resolve h request with
  | None => throw (TypeError request)
  | Some key => cache_put name key r
  end.

(** [clients.matchAll(options)]; ["window"] is also the default of
    [type]. *)
Definition clients_matchAll (includeUncontrolled : bool) : M (list Client) :=
  ret (matching_clients includeUncontrolled (clients h)).

(** [response.json()] *)
Definition response_json (r : Response) : M Manifest :=
  match r_json r with
  | Some d => ret d
  | None => throw JsonError
  end.

(** ** Utility functions of the source *)

(** The message is posted by a 3 second timer, the same for every
    message; the trace holds it where the timer is armed. *)
Definition PostBroadcastMessage (o : Message) : M unit :=
  if has_BroadcastChannel h then emit (EvPostMessage o) else ret tt.

Definition Broadcast (type : string) : M unit :=
  PostBroadcastMessage (mkMessage type None).

Definition BroadcastDownloadingUpdate (version : string) : M unit :=
  PostBroadcastMessage (mkMessage "downloading-update" (Some version)).

Definition BroadcastUpdateReady (version : string) : M unit :=
  PostBroadcastMessage (mkMessage "update-ready" (Some version)).

(** The [for ... of] loop of [IsUrlInLazyLoadList]: [true] is its
    [return true]; a pattern that [new RegExp] refuses throws out of the
    loop. *)
Fixpoint lazy_loop (url : string) (lazyLoadList : list string) : M bool :=
  match lazyLoadList with
  | [] => ret false
  | lazyLoadRegex :: rest =>
      match RegExp h lazyLoadRegex with
      | None => throw (SyntaxError lazyLoadRegex)
      | Some test => if test url then ret true else lazy_loop url rest
      end
  end.

(** [lazyLoadList] is [None] for a falsy value ([null], [undefined]). *)
Definition IsUrlInLazyLoadList (url : string) (lazyLoadList : option (list string)) : M bool :=
  match lazyLoadList with
  | None => ret false
  | Some l =>
      try_catch (lazy_loop url l)
        (fun err => console_error (LogLazyMatchError err);; ret false)
  end.

Definition WriteLazyLoadListToStorage (lazyLoadList : list string) : M unit :=
  if negb (has_localforage h) then ret tt
  else fun s =>
    (Ret tt,
     record (EvSetItem LAZYLOAD_KEYNAME lazyLoadList)
       (mkState (caches s) (Some lazyLoadList) (n_random s) (n_fetch s) (trace s))).

Definition ReadLazyLoadListFromStorage : M (option (list string)) :=
  if negb (has_localforage h) then ret (Some [])
  else fun s => (Ret (lazy_store s), s).

Definition GetCacheBaseName : string :=
  CACHE_NAME_PREFIX +:+ "-" +:+ scope h.

Definition GetCacheVersionName (version : string) : string :=
  GetCacheBaseName +:+ "-v" +:+ version.

Definition GetAvailableCacheNames : M (list string) :=
  cacheNames ← caches_keys;
  let cacheBaseName := GetCacheBaseName in
  ret (List.filter (fun n => startsWith n cacheBaseName) cacheNames).

Definition IsUpdatePending : M bool :=
  availableCacheNames ← GetAvailableCacheNames;
  ret (2 <=? length availableCacheNames).

(** The loop of [GetMainPageUrl]; falling out of it returns [""]. *)
Fixpoint main_page_loop (allClients : list Client) : string :=
  match allClients with
  | [] => ""
  | c :: rest =>
      let url := c_url c in
      let url := if startsWith url (scope h)
                 then substring_from (String.length (scope h)) url else url in
      if negb (String.eqb url "") && negb (String.eqb url "/") then
        if startsWith url "?" then "/" +:+ url else url
      else main_page_loop rest
  end.

Definition GetMainPageUrl : M string :=
  allClients ← clients_matchAll true;
  ret (main_page_loop allClients).

(** [request] is always a string in this worker, so the function starts
    with [new Request(request)], which throws when the string is not a
    URL.  The function is not [async]: that exception is thrown at the
    caller, and otherwise the caller gets the promise of [fetch]. *)
Definition fetchWithBypass (request : string) (bypassCache : bool) : M (Outcome Response) :=
  match resolve h request with
  | None => throw (TypeError request)
  | Some url =>
      if bypassCache then
        r ← next_random;
        start (fetch (mkFetchReq url (Some r) CacheNoStore))
      else
        start (fetch (mkFetchReq url None CacheDefault))
  end.

(** The loop of [CreateCacheFromFileList] that reports failed responses. *)
Fixpoint report_failed (responses : list Response) : M unit :=
  match responses with
  | [] => ret tt
  | response :: rest =>
      (if negb (r_ok response)
       then console_error (LogFetchError (r_url response) (r_status response)
                                         (r_statusText response))
       else ret tt);;
      report_failed rest
  end.

Definition CreateCacheFromFileList (cacheName : string) (fileList : list string)
    (bypassCache : bool) : M unit :=
  started ← mapM (fun url => fetchWithBypass url bypassCache) fileList;
  responses ← Promise_all started;
  let allOk := forallb r_ok responses in
  report_failed responses;;
  if negb allOk then throw ErrNotAllFetched
  else
    cache ← caches_open cacheName;
    try_catch
      (puts ← mapM (fun ur => start (cache_put_string cache ur.1 ur.2))
                   (zip fileList responses);
       Promise_all puts;;
       ret tt)
      (fun err =>
         console_error (LogWriteError err);;
         start (caches_delete cacheName);;
         throw err).

Definition UpdateCheck (isFirst : bool) : M unit :=
  try_catch
    (started ← fetchWithBypass OFFLINE_DATA_FILE true;
     response ← await started;
     if negb (r_ok response)
     then throw (ErrBadStatus OFFLINE_DATA_FILE (r_status response) (r_statusText response))
     else
       data ← response_json response;
       let version := m_version data in
       let fileList := m_fileList data in
       let lazyLoadList := m_lazyLoad data in
       let currentCacheName := GetCacheVersionName version in
       cacheExists ← caches_has currentCacheName;
       if (cacheExists : bool) return M unit then
         isUpdatePending ← IsUpdatePending;
         if (isUpdatePending : bool) return M unit
         then console_log LogUpdatePending;; Broadcast "update-pending"
         else console_log LogUpToDate;; Broadcast "up-to-date"
       else
         mainPageUrl ← GetMainPageUrl;
         let fileList := unshift_entry_pages mainPageUrl fileList in
         console_log (LogCaching (length fileList));;
         (if isFirst then Broadcast "downloading"
          else BroadcastDownloadingUpdate version);;
         match lazyLoadList with
         | Some l => WriteLazyLoadListToStorage l
         | None => ret tt
         end;;
         CreateCacheFromFileList currentCacheName fileList (negb isFirst);;
         isUpdatePending ← IsUpdatePending;
         if (isUpdatePending : bool)
         then console_log LogUpdateReady;; BroadcastUpdateReady version
         else console_log LogOfflineReady;; Broadcast "offline-ready")
    (fun err => console_warn (LogUpdateCheckFailed err)).

(** [availableCacheNames[0]] and [availableCacheNames[length - 1]] are
    [None] ([undefined]) on the empty array. *)
Definition GetCacheNameToUse (availableCacheNames : list string) (doUpdateCheck : bool)
    : M (option string) :=
  if (length availableCacheNames =? 1) || negb doUpdateCheck
  then ret (head availableCacheNames)
  else
    allClients ← clients_matchAll false;
    if 1 <? length allClients
    then ret (head availableCacheNames)
    else
      let latestCacheName := last availableCacheNames in
      console_log LogUpgrading;;
      deletes ← mapM (fun c => start (caches_delete c)) (removelast availableCacheNames);
      Promise_all deletes;;
      ret latestCacheName.

(** [caches.open] turns its argument into a string. *)
Definition name_to_string (n : option string) : string := default "undefined" n.

Definition HandleFetch (request : Request) (doUpdateCheck : bool) : M Response :=
  availableCacheNames ← GetAvailableCacheNames;
  if length availableCacheNames =? 0
  then fetch (mkFetchReq (rq_url request) None CacheDefault)
  else
    useCacheName ← GetCacheNameToUse availableCacheNames doUpdateCheck;
    cache ← caches_open (name_to_string useCacheName);
    cachedResponse ← cache_match cache request;
    match (cachedResponse : option Response) with
    | Some r => ret r
    | None =>
        p1 ← start (fetch (mkFetchReq (rq_url request) None CacheDefault));
        p2 ← start ReadLazyLoadListFromStorage;
        fetchResponse ← await p1;
        lazyLoadList ← await p2;
        inList ← IsUrlInLazyLoadList (rq_url request) lazyLoadList;
        (if (inList : bool)
         then try_catch (cache_put cache (rq_url request) fetchResponse)
                (fun err => console_warn (LogLazyPutFailed (rq_url request) err))
         else ret tt);;
        ret fetchResponse
    end.

(** The [install] listener: [UpdateCheck(true).catch(() => null)]. *)
Definition on_install : M unit :=
  try_catch (UpdateCheck true) (fun _ => ret tt).

(** The [fetch] listener; [None] when the request is left to the host.
    [responsePromise.then(() => UpdateCheck(false))] runs the check only
    when the response promise resolves. *)
Definition on_fetch (request : Request) : M (option Response) :=
  if negb (String.eqb (rq_origin request) (location_origin h)) then ret None
  else
    let doUpdateCheck := match rq_mode request with ModeNavigate => true | ModeOther => false end in
    responsePromise ← start (HandleFetch request doUpdateCheck);
    (if doUpdateCheck
     then match responsePromise return M unit with
          | Ret _ => UpdateCheck false
          | Throw _ => ret tt
          end
     else ret tt);;
    r ← await responsePromise;
    ret (Some r).

End Worker.

(** ** Vocabulary of the statements *)

(** The generations [GetAvailableCacheNames] lists in state [s], oldest
    first. *)
Definition available (h : Host) (s : State) : list string :=
  List.filter (fun n => startsWith n (GetCacheBaseName h)) (cache_names s).

(** The requests handed to [fetch] in a trace. *)
Definition fetches (t : list Event) : list FetchReq :=
  omap (fun e => match e with EvFetch q => Some q | _ => None end) t.

(** The list [ReadLazyLoadListFromStorage] resolves to in state [s]. *)
Definition stored_lazy_list (h : Host) (s : State) : option (list string) :=
  if has_localforage h then lazy_store s else Some [].

(** The request [fetch(event.request)] hands to the host. *)
Definition passthrough (rq : Request) : FetchReq :=
  mkFetchReq (rq_url rq) None CacheDefault.

(** The request [fetchWithBypass(request, bypass)] hands to [fetch] when
    [request] resolves to [url] and the next random number is the
    [nr]-th. *)
Definition file_request (h : Host) (bypass : bool) (nr : nat) (url : string) : FetchReq :=
  if bypass then mkFetchReq url (Some (random h nr)) CacheNoStore
  else mkFetchReq url None CacheDefault.

(** The requests for the URLs [urls], in the order they are issued. *)
Fixpoint file_requests (h : Host) (bypass : bool) (nr : nat) (urls : list string)
    : list FetchReq :=
  match urls with
  | [] => []
  | url :: rest =>
      file_request h bypass nr url
      :: file_requests h bypass (if bypass then S nr else nr) rest
  end.

(** The URLs [fileList.map(url => fetchWithBypass(url, bypass))] gets to
    fetch: [new Request] throws at the first entry that is not a URL, and
    the entries after it are never looked at. *)
Fixpoint issued (h : Host) (fileList : list string) : list string :=
  match fileList with
  | [] => []
  | request :: rest =>
      match resolve h request with
      | Some url => url :: issued h rest
      | None => []
      end
  end.

(** The URLs the entries of [fileList] resolve to, when every entry is a
    URL. *)
Fixpoint resolve_all (h : Host) (fileList : list string) : option (list string) :=
  match fileList with
  | [] => Some []
  | request :: rest =>
      match resolve h request, resolve_all h rest with
      | Some url, Some urls => Some (url :: urls)
      | _, _ => None
      end
  end.

(** How the host settles the [nf]-th fetch. *)
Definition settle (h : Host) (nf : nat) (q : FetchReq) : Outcome Response :=
  match network h nf q with
  | Some r => Ret r
  | None => Throw (NetworkError (fq_url q))
  end.

(** The settled promises of a list of requests issued from the [nf]-th
    fetch on. *)
Fixpoint fetch_outcomes (h : Host) (nf : nat) (reqs : list FetchReq)
    : list (Outcome Response) :=
  match reqs with
  | [] => []
  | q :: rest => settle h nf q :: fetch_outcomes h (S nf) rest
  end.

(** The settled fetches of [CreateCacheFromFileList] started in a state
    with counters [nr] and [nf]. *)
Definition populate_outcomes (h : Host) (bypass : bool) (nr nf : nat)
    (fileList : list string) : list (Outcome Response) :=
  fetch_outcomes h nf (file_requests h bypass nr (issued h fileList)).

(** How the [cache.put] of one entry, under the URL [ur.1], into the
    cache [name] settles. *)
Definition put_outcome (h : Host) (name : string) (ur : string * Response) : Outcome () :=
  if put_ok h name ur.1 then Ret () else Throw (PutError name ur.1).

(** The manifest request of an update check started in state [s], where
    [murl] is the URL [OFFLINE_DATA_FILE] resolves to. *)
Definition manifest_request (h : Host) (murl : string) (s : State) : FetchReq :=
  file_request h true (n_random s) murl.

(** The state once the manifest request has been issued. *)
Definition after_manifest (h : Host) (murl : string) (s : State) : State :=
  mkState (caches s) (lazy_store s) (S (n_random s)) (S (n_fetch s))
          (trace s ++ [EvFetch (manifest_request h murl s)]).

(** What [PostBroadcastMessage(m)] adds to the trace. *)
Definition posted (h : Host) (m : Message) : list Event :=
  if has_BroadcastChannel h then [EvPostMessage m] else [].

Definition record_all (evs : list Event) (s : State) : State :=
  mkState (caches s) (lazy_store s) (n_random s) (n_fetch s) (trace s ++ evs).

(** The main page URL [GetMainPageUrl] infers. *)
Definition main_page (h : Host) : string :=
  main_page_loop h (matching_clients true (clients h)).

(** The file list an update check hands to the populator. *)
Definition populate_list (h : Host) (data : Manifest) : list string :=
  unshift_entry_pages (main_page h) (m_fileList data).

(** The file list as the specification words it: the root path is
    prepended, and so is the main page URL whenever one is found. *)
Definition spec_populate_list (h : Host) (data : Manifest) : list string :=
  if String.eqb (main_page h) "" then "./" :: m_fileList data
  else main_page h :: "./" :: m_fileList data.

(** Is request [q] a cache-bypassing one: random digits in the query
    string and [cache: "no-store"]. *)
Definition bypasses (q : FetchReq) : Prop :=
  is_Some (fq_search q) ∧ fq_cache q = CacheNoStore.

Definition ordinary (q : FetchReq) : Prop :=
  fq_search q = None ∧ fq_cache q = CacheDefault.

(** Events that change Cache Storage or the key/value store. *)
Definition touches_storage (e : Event) : bool :=
  match e with
  | EvCacheOpen _ | EvCachePut _ _ _ | EvCacheDelete _ | EvSetItem _ _ => true
  | _ => false
  end.

(** The second half of [CreateCacheFromFileList], entered once every
    response is known to be ok. *)
Definition write_entries (h : Host) (cacheName : string) (fileList : list string)
    (responses : list Response) : M unit :=
  cache ← caches_open cacheName;
  try_catch
    (puts ← mapM (fun ur => start (cache_put_string h cache ur.1 ur.2))
                 (zip fileList responses);
     Promise_all puts;;
     ret tt)
    (fun err =>
       console_error (LogWriteError err);;
       start (caches_delete cacheName);;
       throw err).

(** Pattern [p] compiles and its test accepts, respectively rejects,
    [url]. *)
Definition accepts (h : Host) (url p : string) : Prop :=
  ∃ test, RegExp h p = Some test ∧ test url = true.

Definition rejects (h : Host) (url p : string) : Prop :=
  ∃ test, RegExp h p = Some test ∧ test url = false.

(** The lazy-load test as the specification words it: a pattern that fails
    to compile is skipped on its own and the patterns after it are still
    tested. *)
Fixpoint spec_lazy_match (h : Host) (url : string) (lazyLoadList : list string) : bool :=
  match lazyLoadList with
  | [] => false
  | p :: rest =>
      match RegExp h p with
      | Some test => test url || spec_lazy_match h url rest
      | None => spec_lazy_match h url rest
      end
  end.

(** ** A concrete host for the worked examples

    [new RegExp] is the host's.  [RegExp_fragment] implements it on a
    fragment of JavaScript's pattern language, enough to run the worker on
    concrete lists: ordinary characters, [.], an escaped syntax character
    or slash, the quantifiers [*], [+] and [?] after one of these, [^] in
    first and [$] in last position.  A quantifier with nothing to repeat and a
    trailing backslash are refused, as JavaScript refuses them.  Patterns
    of JavaScript outside the fragment are refused too, so the examples
    only use patterns inside it, or patterns JavaScript itself refuses.
    The general theorems hold for every [RegExp]. *)

Module RegExpFragment.

Inductive Atom := AnyChar | Lit (c : ascii).
Inductive Quant := One | Star | Plus | Opt.

Definition is_syntax_char (c : ascii) : bool :=
  bool_decide (c ∈ ["^"; "$"; "\"; "."; "*"; "+"; "?"; "("; ")"; "["; "]"; "{"; "}"; "|"]%char).

(** After a backslash: a syntax character or [/] stands for itself. *)
Definition is_escapable (c : ascii) : bool :=
  is_syntax_char c || Ascii.eqb c "/"%char.

(** [.] matches every character but a line terminator. *)
Definition atom_matches (a : Atom) (c : ascii) : bool :=
  match a with
  | AnyChar => negb (Ascii.eqb c "010"%char || Ascii.eqb c "013"%char)
  | Lit d => Ascii.eqb c d
  end.

Definition flush (pending : option Atom) (out : list (Atom * Quant)) : list (Atom * Quant) :=
  match pending with
  | Some a => (a, One) :: out
  | None => out
  end.

Definition quantify (q : Quant) (pending : option Atom) (out : list (Atom * Quant))
    : option (list (Atom * Quant)) :=
  match pending with
  | Some a => Some ((a, q) :: out)
  | None => None                       (* nothing to repeat *)
  end.

(** The items of the pattern after an optional leading [^], and whether it
    ends in [$]; [out] holds the items read so far, last first. *)
Fixpoint parse (p : string) (pending : option Atom) (out : list (Atom * Quant))
    : option (list (Atom * Quant) * bool) :=
  match p with
  | EmptyString => Some (rev (flush pending out), false)
  | String c p' =>
      if Ascii.eqb c "*"%char then out' ← quantify Star pending out; parse p' None out'
      else if Ascii.eqb c "+"%char then out' ← quantify Plus pending out; parse p' None out'
      else if Ascii.eqb c "?"%char then out' ← quantify Opt pending out; parse p' None out'
      else if Ascii.eqb c "$"%char then
        match p' with
        | EmptyString => Some (rev (flush pending out), true)
        | _ => None
        end
      else if Ascii.eqb c "\"%char then
        match p' with
        | String d p'' =>
            if is_escapable d then parse p'' (Some (Lit d)) (flush pending out) else None
        | EmptyString => None           (* \ at end of pattern *)
        end
      else if Ascii.eqb c "."%char then parse p' (Some AnyChar) (flush pending out)
      else if is_syntax_char c then None
      else parse p' (Some (Lit c)) (flush pending out)
  end.

(** [a*] followed by [k] *)
Fixpoint star (a : Atom) (k : string -> bool) (s : string) : bool :=
  k s ||
  match s with
  | String c s' => atom_matches a c && star a k s'
  | EmptyString => false
  end.

Definition one (a : Atom) (k : string -> bool) (s : string) : bool :=
  match s with
  | String c s' => atom_matches a c && k s'
  | EmptyString => false
  end.

(** Do the items match a prefix of [s] (all of [s] under [$])? *)
Fixpoint match_here (re : list (Atom * Quant)) (to_end : bool) (s : string) : bool :=
  match re with
  | [] => if to_end then String.eqb s "" else true
  | (a, One) :: re' => one a (match_here re' to_end) s
  | (a, Star) :: re' => star a (match_here re' to_end) s
  | (a, Plus) :: re' => one a (star a (match_here re' to_end)) s
  | (a, Opt) :: re' => match_here re' to_end s || one a (match_here re' to_end) s
  end.

Fixpoint search (re : list (Atom * Quant)) (to_end : bool) (s : string) : bool :=
  match_here re to_end s ||
  match s with
  | String _ s' => search re to_end s'
  | EmptyString => false
  end.

Definition RegExp_fragment (pattern : string) : option (string -> bool) :=
  match pattern with
  | String "^"%char p' =>
      '(re, to_end) ← parse p' None []; Some (match_here re to_end)
  | _ =>
      '(re, to_end) ← parse pattern None []; Some (search re to_end)
  end.

End RegExpFragment.

(** [new Request] resolves a string against the worker's URL with the
    host's URL parser.  [resolve_fragment] implements it on the strings the
    worked examples use, for a worker whose script lies in the directory
    [dir] of the origin [origin]: a URL of that origin stands for itself, a
    path that starts with one [/] is taken from the origin, and any other
    path, with or without [./] in front, from the directory.  A path is
    made of letters, digits, [-], [_], [.] and [/] and has no segment [.]
    or [..], so nothing is left to normalise.  Every other string is
    refused: those JavaScript refuses, such as [http://], which names no
    host, and also strings of JavaScript outside the fragment, which the
    examples do not use.  The general theorems hold for every [resolve]. *)

Module UrlFragment.

Definition is_path_char (c : ascii) : bool :=
  let n := nat_of_ascii c in
  (48 <=? n) && (n <=? 57) || (65 <=? n) && (n <=? 90) || (97 <=? n) && (n <=? 122)
  || bool_decide (c ∈ ["-"; "_"; "."; "/"]%char).

(** What has been read of the current path segment: nothing, dots only,
    or something else. *)
Inductive Segment := Fresh | Dots (n : nat) | Named.

Definition is_dot_segment (seg : Segment) : bool :=
  match seg with
  | Dots 1 | Dots 2 => true
  | _ => false
  end.

Fixpoint plain_path (seg : Segment) (p : string) : bool :=
  match p with
  | EmptyString => negb (is_dot_segment seg)
  | String c p' =>
      if Ascii.eqb c "/"%char then negb (is_dot_segment seg) && plain_path Fresh p'
      else if Ascii.eqb c "."%char then
        plain_path (match seg with
                    | Fresh => Dots 1
                    | Dots n => Dots (S n)
                    | Named => Named
                    end) p'
      else is_path_char c && plain_path Named p'
  end.

Definition resolve_fragment (origin dir : string) (s : string) : option string :=
  if startsWith s (origin +:+ "/") then
    if plain_path Fresh (substring_from (String.length origin + 1) s) then Some s else None
  else if startsWith s "//" then None
  else if startsWith s "/" then
    if plain_path Fresh (substring_from 1 s) then Some (origin +:+ s) else None
  else if String.eqb s "" then None
  else if startsWith s "./" then
    if plain_path Fresh (substring_from 2 s) then Some (dir +:+ substring_from 2 s) else None
  else if plain_path Fresh s then Some (dir +:+ s) else None.

End UrlFragment.

(** The URL of [offline.js] for a worker in [https://example.com/app/]. *)
Definition manifest_location : string := "https://example.com/app/offline.js".

(** A deployment at scope [https://example.com/app/], the worker's script
    in that directory, with working collaborators; the network answers
    every URL with status 200 except those in [failing], which get a 404,
    and [offline.js] carries [data]. *)
Definition reply (failing : list string) (data : Manifest) (q : FetchReq) : Response :=
  if String.eqb (fq_url q) manifest_location
  then mkResponse true (fq_url q) 200 "OK" (Some data)
  else if bool_decide (fq_url q ∈ failing)
       then mkResponse false (fq_url q) 404 "Not Found" None
       else mkResponse true (fq_url q) 200 "OK" None.

Definition demo_host (failing : list string) (data : Manifest) (cs : list Client)
    (quota_ok : string -> string -> bool) : Host :=
  {| scope := "https://example.com/app/";
     location_origin := "https://example.com";
     has_BroadcastChannel := true;
     has_localforage := true;
     RegExp := RegExpFragment.RegExp_fragment;
     resolve := UrlFragment.resolve_fragment "https://example.com" "https://example.com/app/";
     random := fun n => (424242 + N.of_nat n)%N;
     network := fun _ q => Some (reply failing data q);
     put_ok := quota_ok;
     clients := cs |}.

Definition demo_manifest : Manifest :=
  mkManifest "2" ["a.js"; "b.js"] (Some [".*\.png$"]).

Definition window (url : string) : Client := mkClient url TWindow true.

Definition one_tab : list Client := [window "https://example.com/app/index.html"].

Definition two_tabs : list Client :=
  [window "https://example.com/app/index.html"; window "https://example.com/app/"].

Definition always_ok (cacheName key : string) : bool := true.

(** Storage that refuses the entry for [b.js]. *)
Definition no_room_for_b (cacheName key : string) : bool :=
  negb (String.eqb key "https://example.com/app/b.js").

Definition empty_state : State := mkState [] None 0 0 [].

Definition generation (v : string) : string :=
  "c2offline-https://example.com/app/-v" +:+ v.

Definition a_js : Request :=
  mkRequest "https://example.com/app/a.js" "https://example.com" ModeOther.

Definition a_png : Request :=
  mkRequest "https://example.com/app/a.png" "https://example.com" ModeOther.

Definition index_html : Request :=
  mkRequest "https://example.com/app/index.html" "https://example.com" ModeNavigate.

Definition stored_a_js : Response :=
  mkResponse true "https://example.com/app/a.js" 200 "OK" None.

(** Generation 1 holds [a.js]; generation 2 has been fetched since and
    waits to be adopted.  The lazy-load list is the one of
    [demo_manifest]. *)
Definition two_generations : State :=
  mkState [(generation "1", {[ "https://example.com/app/a.js" := stored_a_js ]});
           (generation "2", {[ "https://example.com/app/a.js" := stored_a_js ]})]
          (Some [".*\.png$"]) 0 0 [].

(** One generation, and a lazy-load list whose first pattern JavaScript
    refuses: [*] has nothing to repeat. *)
Definition broken_lazy_list : State :=
  mkState [(generation "2", ∅)] (Some ["*"; ".*\.png$"]) 0 0 [].

(** A manifest that lists the main page itself. *)
Definition manifest_with_index : Manifest :=
  mkManifest "3" ["index.html"; "a.js"] None.

(** One open tab, every fetch and every put succeeds. *)
Definition steady_host : Host := demo_host [] demo_manifest one_tab always_ok.

(** Two open tabs. *)
Definition busy_host : Host := demo_host [] demo_manifest two_tabs always_ok.

(** The server answers 404 for [b.js]. *)
Definition flaky_host : Host :=
  demo_host ["https://example.com/app/b.js"] demo_manifest one_tab always_ok.

(** The entry for [b.js] cannot be stored. *)
Definition full_host : Host := demo_host [] demo_manifest one_tab no_room_for_b.

(** The deployed manifest lists [index.html]. *)
Definition index_host : Host := demo_host [] manifest_with_index one_tab always_ok.

(** The URL of a path in the deployment's directory. *)
Definition app_url (path : string) : string := "https://example.com/app/" +:+ path.

Definition fetched (url : string) : Response := mkResponse true url 200 "OK" None.

Definition not_found (url : string) : Response := mkResponse false url 404 "Not Found" None.

Definition manifest_response (data : Manifest) : Response :=
  mkResponse true manifest_location 200 "OK" (Some data).

(** ** Further vocabulary and instances *)

(** A client URL as [GetMainPageUrl] sees it: relative to the scope when
    it lies inside it, whole otherwise. *)
Definition scope_relative (h : Host) (url : string) : string :=
  if startsWith url (scope h) then substring_from (String.length (scope h)) url else url.

(** The client shows the scope root: its relative URL is empty or ["/"]. *)
Definition at_root (h : Host) (c : Client) : Prop :=
  scope_relative h (c_url c) = "" ∨ scope_relative h (c_url c) = "/".

(** The message [UpdateCheck] sends before it populates. *)
Definition announcement (isFirst : bool) (version : string) : Message :=
  if isFirst then mkMessage "downloading" None
  else mkMessage "downloading-update" (Some version).

(** The message [UpdateCheck] sends once the populator has returned in
    state [s2]. *)
Definition ready_message (h : Host) (version : string) (s2 : State) : Message :=
  if 2 <=? length (available h s2) then mkMessage "update-ready" (Some version)
  else mkMessage "offline-ready" None.

Definition ready_entry (h : Host) (s2 : State) : LogEntry :=
  if 2 <=? length (available h s2) then LogUpdateReady else LogOfflineReady.

(** The state in which [UpdateCheck] calls the populator. *)
Definition before_populate (h : Host) (murl : string) (isFirst : bool) (data : Manifest)
    (s : State) : State :=
  let s_b := record_all (EvConsole LvLog (LogCaching (length (populate_list h data)))
                         :: posted h (announcement isFirst (m_version data)))
                        (after_manifest h murl s) in
  match m_lazyLoad data with
  | Some l =>
      if has_localforage h
      then record (EvSetItem LAZYLOAD_KEYNAME l)
             (mkState (caches s_b) (Some l) (n_random s_b) (n_fetch s_b) (trace s_b))
      else s_b
  | None => s_b
  end.

(** How [UpdateCheck] ends once the populator has settled. *)
Definition after_populate (h : Host) (version : string) (r : Outcome () * State)
    : Outcome () * State :=
  match r with
  | (Ret _, s2) =>
      (Ret (), record_all (EvConsole LvLog (ready_entry h s2)
                           :: posted h (ready_message h version s2)) s2)
  | (Throw e, s2) => (Ret (), record_all [EvConsole LvWarn (LogUpdateCheckFailed e)] s2)
  end.

(** [HandleFetch] from [cache.match] on, once the generation [cache] has
    been opened. *)
Definition serve (h : Host) (request : Request) (cache : string) : M Response :=
  cachedResponse ← cache_match cache request;
  match (cachedResponse : option Response) with
  | Some r => ret r
  | None =>
      p1 ← start (fetch h (mkFetchReq (rq_url request) None CacheDefault));
      p2 ← start (ReadLazyLoadListFromStorage h);
      fetchResponse ← await p1;
      lazyLoadList ← await p2;
      inList ← IsUrlInLazyLoadList h (rq_url request) lazyLoadList;
      (if (inList : bool)
       then try_catch (cache_put h cache (rq_url request) fetchResponse)
              (fun err => console_warn (LogLazyPutFailed (rq_url request) err))
       else ret tt);;
      ret fetchResponse
  end.

(** Cache Storage once the caches named in [gone] have been deleted. *)
Definition without (gone : list string) (s : State) (evs : list Event) : State :=
  mkState (filter (fun c => c.1 ∉ gone) (caches s)) (lazy_store s) (n_random s) (n_fetch s)
          (trace s ++ evs).

(** [event.request.mode === "navigate"] *)
Definition is_navigation (rq : Request) : bool :=
  match rq_mode rq with ModeNavigate => true | ModeOther => false end.

(** The messages posted to the broadcast channel in a trace. *)
Definition messages (t : list Event) : list Message :=
  omap (fun e => match e with EvPostMessage m => Some m | _ => None end) t.

(** No network at all. *)
Definition offline_host : Host :=
  mkHost "https://example.com/app/" "https://example.com" true true
         RegExpFragment.RegExp_fragment
         (UrlFragment.resolve_fragment "https://example.com" "https://example.com/app/")
         (fun n => N.of_nat n)
         (fun _ _ => None) always_ok one_tab.

(** A worker that has not imported [localforage]. *)
Definition bare_host : Host :=
  mkHost "https://example.com/app/" "https://example.com" true false
         RegExpFragment.RegExp_fragment
         (UrlFragment.resolve_fragment "https://example.com" "https://example.com/app/")
         (fun n => N.of_nat n)
         (fun _ q => Some (reply [] demo_manifest q)) always_ok one_tab.

(** A worker registered at the origin's root, above [steady_host]'s
    scope. *)
Definition root_host : Host :=
  mkHost "https://example.com/" "https://example.com" true true
         RegExpFragment.RegExp_fragment
         (UrlFragment.resolve_fragment "https://example.com" "https://example.com/")
         (fun n => N.of_nat n)
         (fun _ q => Some (reply [] demo_manifest q)) always_ok one_tab.

(** A controlled worker client, an uncontrolled window on another path of
    the origin, and a tab inside the scope. *)
Definition mixed_clients : list Client :=
  [mkClient "https://example.com/app/worker.js" TWorker true;
   mkClient "https://example.com/app/" TWindow true;
   mkClient "https://example.com/other/page.html" TWindow false;
   mkClient "https://example.com/app/index.html" TWindow true].

Definition mixed_host : Host := demo_host [] demo_manifest mixed_clients always_ok.

(** Generation 1 only, holding [a.js]; the lazy-load list of
    [demo_manifest] is stored. *)
Definition one_generation : State :=
  mkState [(generation "1", {[ "https://example.com/app/a.js" := stored_a_js ]})]
          (Some [".*\.png$"]) 0 0 [].

(** * Properties *)

(** ** Reasoning about runs *)

Ltac unfold_monad :=
  unfold mbind, M_bind, bind, mret, M_ret, ret, throw, await, start, try_catch,
    console_log, console_warn, console_error, emit in *.

Lemma GetAvailableCacheNames_run h s :
  GetAvailableCacheNames h s = (Ret (available h s), s).
Proof. reflexivity. Qed.

Lemma run_bind {A B} (m : M A) (k : A → M B) s a s' :
  m s = (Ret a, s') → (m ≫= k) s = k a s'.
Proof. intros Hm. unfold_monad. by rewrite Hm. Qed.

Lemma run_bind_throw {A B} (m : M A) (k : A → M B) s e s' :
  m s = (Throw e, s') → (m ≫= k) s = (Throw e, s').
Proof. intros Hm. unfold_monad. by rewrite Hm. Qed.

Lemma run_try {A} (m : M A) (handler : Exn → M A) s a s' :
  m s = (Ret a, s') → try_catch m handler s = (Ret a, s').
Proof. intros Hm. unfold try_catch. by rewrite Hm. Qed.

Lemma run_catch {A} (m : M A) (handler : Exn → M A) s e s' :
  m s = (Throw e, s') → try_catch m handler s = handler e s'.
Proof. intros Hm. unfold try_catch. by rewrite Hm. Qed.

Lemma run_start {A} (m : M A) s o s' :
  m s = (o, s') → start m s = (Ret o, s').
Proof. intros Hm. unfold start. by rewrite Hm. Qed.

Ltac mrun H := rewrite (run_bind _ _ _ _ _ H).

(** ** Lists of cache names *)

Lemma names_filter (P : string → Prop) `{∀ n, Decision (P n)}
    (cs : list (string * gmap string Response)) :
  (filter (λ c, P c.1) cs).*1 = filter P (cs.*1).
Proof.
  induction cs as [|c cs IH]; [reflexivity|].
  rewrite fmap_cons, !filter_cons. simpl.
  destruct (decide (P c.1)); rewrite ?fmap_cons, IH; reflexivity.
Qed.

Lemma bfilter_filter_comm (f : string → bool) (P : string → Prop) `{∀ n, Decision (P n)}
    (l : list string) :
  List.filter f (filter P l) = filter P (List.filter f l).
Proof.
  induction l as [|n l IH]; [reflexivity|].
  rewrite filter_cons. simpl.
  destruct (decide (P n)), (f n) eqn:Hf; simpl; rewrite ?Hf, ?filter_cons;
    repeat case_decide; try contradiction; by rewrite IH.
Qed.

Lemma NoDup_bfilter (f : string → bool) (l : list string) :
  NoDup l → NoDup (List.filter f l).
Proof.
  induction 1 as [|n l Hn _ IH]; simpl; [constructor|].
  destruct (f n); [|exact IH].
  constructor; [|exact IH].
  rewrite list_elem_of_In, filter_In, <- list_elem_of_In. tauto.
Qed.

Lemma filter_all_in {A} (P : A → Prop) `{∀ x, Decision (P x)} (l : list A) :
  (∀ x, x ∈ l → P x) → filter P l = l.
Proof.
  induction l as [|x l IH]; intros Hall; [reflexivity|].
  rewrite filter_cons_True by (apply Hall; left).
  f_equal. apply IH. intros y Hy. apply Hall. by right.
Qed.

Lemma filter_all_out (l k : list string) :
  (∀ n, n ∈ k → n ∈ l) → filter (λ n, n ∉ l) k = [].
Proof.
  induction k as [|n k IH]; intros Hsub; [reflexivity|].
  rewrite filter_cons_False by (intros Hn; apply Hn, Hsub; left).
  apply IH. intros m Hm. apply Hsub. by right.
Qed.

(** Dropping every name but the last from a duplicate-free list leaves the
    last one. *)
Lemma keep_newest (l : list string) (x : string) :
  NoDup (l ++ [x]) → filter (λ n, n ∉ l) (l ++ [x]) = [x].
Proof.
  intros Hnd. apply NoDup_app in Hnd as (_ & Hdisj & _).
  rewrite filter_app, filter_all_out by auto. simpl.
  rewrite filter_cons_True; [reflexivity|].
  intros Hx. apply (Hdisj x Hx). by left.
Qed.

Lemma assoc_filter (P : string → Prop) `{∀ n, Decision (P n)} name
    (cs : list (string * gmap string Response)) :
  P name → assoc name (filter (λ c, P c.1) cs) = assoc name cs.
Proof.
  intros HP. induction cs as [|c cs IH]; [reflexivity|].
  rewrite filter_cons. simpl.
  destruct (decide (P c.1)) as [Hc|Hc]; simpl.
  - by rewrite IH.
  - case_decide; [congruence|exact IH].
Qed.

Lemma assoc_None name (cs : list (string * gmap string Response)) :
  assoc name cs = None ↔ name ∉ cs.*1.
Proof.
  induction cs as [|c cs IH]; simpl.
  - split; [intros _; apply not_elem_of_nil | done].
  - rewrite not_elem_of_cons. case_decide as Hc.
    + split; [discriminate | intros [Hne _]; by destruct Hne].
    + rewrite IH. split; [intros Hn; split; [congruence | exact Hn] | tauto].
Qed.

Lemma has_cache_find name s :
  has_cache name s = true ↔ is_Some (find_cache name s).
Proof.
  unfold has_cache, find_cache, cache_names.
  rewrite bool_decide_eq_true, <- not_eq_None_Some, assoc_None.
  split; [auto | apply dec_stable].
Qed.

Lemma has_cache_false name s :
  has_cache name s = false ↔ name ∉ cache_names s.
Proof. unfold has_cache. apply bool_decide_eq_false. Qed.

(** ** Runs of the host loops *)

Lemma Promise_all_resolved {A} (l : list A) s :
  Promise_all (Ret <$> l) s = (Ret l, s).
Proof.
  induction l as [|a l IH]; [reflexivity|].
  rewrite fmap_cons. cbn [Promise_all]. unfold_monad. by rewrite IH.
Qed.

(** Deleting a list of caches one after the other. *)
Lemma delete_all_run (l : list string) s :
  ∃ bs, mapM (λ c, start (caches_delete c)) l s
        = (Ret (Ret <$> bs),
           mkState (filter (λ c, c.1 ∉ l) (caches s)) (lazy_store s) (n_random s)
                   (n_fetch s) (trace s ++ (EvCacheDelete <$> l))).
Proof.
  revert s. induction l as [|n l IH]; intros s.
  - exists []. simpl. unfold_monad. f_equal. destruct s; simpl. f_equal.
    + symmetry. apply filter_all_in. intros c _. apply not_elem_of_nil.
    + by rewrite app_nil_r.
  - simpl. unfold_monad. unfold caches_delete at 1.
    destruct (IH (record (EvCacheDelete n) (set_caches (filter (λ c, c.1 ≠ n)) s))) as [bs ->].
    exists (has_cache n s :: bs). simpl. f_equal. f_equal.
    + rewrite list_filter_filter. apply list_filter_iff.
      intros c. rewrite not_elem_of_cons. tauto.
    + by rewrite <- app_assoc.
Qed.

(** ** Generation selection *)

(** C3. If only one generation exists, or the request is not a navigation,
    or more than one instance is connected, [GetCacheNameToUse] returns the
    first (oldest) of the listed generations and leaves the whole state as
    it was: nothing is deleted. *)
Theorem oldest_generation_selected h (names : list string) (doUpdateCheck : bool) s :
  length names = 1 ∨ doUpdateCheck = false
    ∨ 1 < length (matching_clients false (clients h)) →
  GetCacheNameToUse h names doUpdateCheck s = (Ret (head names), s).
Proof.
  intros Hcase. unfold GetCacheNameToUse.
  destruct (length names =? 1) eqn:Hone; [reflexivity|].
  destruct doUpdateCheck; [|reflexivity]. simpl.
  destruct Hcase as [Hlen | [Hnav | Hclients]].
  - apply Nat.eqb_neq in Hone. lia.
  - discriminate.
  - unfold clients_matchAll. unfold_monad.
    apply Nat.ltb_lt in Hclients. rewrite Hclients. reflexivity.
Qed.

(** C2. For a navigation request with two or more generations and at most
    one connected instance, [GetCacheNameToUse] deletes every listed
    generation except the newest and returns the newest.  Afterwards the
    generation list is exactly the newest one, the deleted generations are
    gone from Cache Storage, the newest one and the caches of other scopes
    keep their content, and every later selection, navigation or not,
    returns the newest again. *)
Theorem single_instance_upgrade h s :
  NoDup (cache_names s) →
  2 ≤ length (available h s) →
  length (matching_clients false (clients h)) ≤ 1 →
  ∃ newest s',
    last (available h s) = Some newest ∧
    GetCacheNameToUse h (available h s) true s = (Ret (Some newest), s') ∧
    available h s' = [newest] ∧
    (∀ n, n ∈ available h s → n ≠ newest → has_cache n s' = false) ∧
    find_cache newest s' = find_cache newest s ∧
    (∀ n, n ∉ available h s → find_cache n s' = find_cache n s) ∧
    (∀ nav, GetCacheNameToUse h (available h s') nav s' = (Ret (Some newest), s')).
Proof.
  intros Hnd Hlen Hclients.
  assert (Hnd' : NoDup (available h s)) by by apply NoDup_bfilter.
  destruct (exists_last (l := available h s)) as (old & newest & Hsplit).
  { intros Hnil. rewrite Hnil in Hlen. simpl in Hlen. lia. }
  assert (Hfresh : newest ∉ old).
  { rewrite Hsplit in Hnd'. apply NoDup_app in Hnd' as (_ & Hdisj & _).
    intros Hin. apply (Hdisj _ Hin). by left. }
  destruct (delete_all_run old (record (EvConsole LvLog LogUpgrading) s)) as [bs Hdel].
  simpl in Hdel.
  set (s' := mkState (filter (λ c, c.1 ∉ old) (caches s)) (lazy_store s) (n_random s)
                     (n_fetch s)
                     ((trace s ++ [EvConsole LvLog LogUpgrading]) ++ (EvCacheDelete <$> old))) in *.
  assert (Hnames : cache_names s' = filter (λ n, n ∉ old) (cache_names s)).
  { unfold cache_names, s'. simpl. exact (names_filter (λ n, n ∉ old) _). }
  assert (Hav : available h s' = [newest]).
  { unfold available. rewrite Hnames, bfilter_filter_comm.
    fold (available h s). rewrite Hsplit. apply keep_newest. by rewrite <- Hsplit. }
  exists newest, s'. split_and!.
  - rewrite Hsplit. apply last_snoc.
  - unfold GetCacheNameToUse.
    replace (length (available h s) =? 1) with false
      by (symmetry; apply Nat.eqb_neq; lia).
    simpl. unfold clients_matchAll. unfold_monad.
    replace (1 <? length (matching_clients false (clients h))) with false
      by (symmetry; apply Nat.ltb_ge; lia).
    unfold record at 1. simpl.
    rewrite Hsplit at 1. rewrite removelast_last.
    unfold record in Hdel. simpl in Hdel. rewrite Hdel.
    rewrite Promise_all_resolved. by rewrite Hsplit, last_snoc.
  - exact Hav.
  - intros n Hn Hne. apply has_cache_false. rewrite Hnames, list_elem_of_filter.
    intros [Hout _]. apply Hout.
    rewrite Hsplit, elem_of_app, list_elem_of_singleton in Hn. tauto.
  - unfold find_cache, s'. simpl. exact (assoc_filter (λ n, n ∉ old) _ _ Hfresh).
  - intros n Hn. unfold find_cache, s'. simpl.
    refine (assoc_filter (λ n, n ∉ old) _ _ _). intros Hin. apply Hn.
    rewrite Hsplit, elem_of_app. by left.
  - intros nav. rewrite Hav. reflexivity.
Qed.

(** ** The lazy-load list *)

(** The three ways the loop over the patterns ends: at the first pattern
    that accepts, at the first pattern that does not compile, or at the end
    of the list.  It never touches the state. *)
Lemma lazy_loop_cases h url (l : list string) s :
  (∃ pre p post, l = pre ++ p :: post ∧ Forall (rejects h url) pre ∧ accepts h url p
                 ∧ lazy_loop h url l s = (Ret true, s))
  ∨ (∃ pre p post, l = pre ++ p :: post ∧ Forall (rejects h url) pre ∧ RegExp h p = None
                   ∧ lazy_loop h url l s = (Throw (SyntaxError p), s))
  ∨ (Forall (rejects h url) l ∧ lazy_loop h url l s = (Ret false, s)).
Proof.
  induction l as [|p l IH].
  - right; right. split; [apply Forall_nil_2 | reflexivity].
  - assert (Hstep : ∀ test, RegExp h p = Some test → test url = false →
                    lazy_loop h url (p :: l) s = lazy_loop h url l s).
    { intros test Hp Ht. simpl. by rewrite Hp, Ht. }
    destruct (RegExp h p) as [test|] eqn:Hp.
    + destruct (test url) eqn:Ht.
      * left. exists [], p, l.
        split_and!; [done | apply Forall_nil_2 | by exists test | simpl; by rewrite Hp, Ht].
      * assert (Hrej : rejects h url p) by by exists test.
        rewrite (Hstep test eq_refl Ht).
        destruct IH as [(pre & q & post & -> & Hpre & Hq & Hrun)
                       |[(pre & q & post & -> & Hpre & Hq & Hrun)
                        |[Hall Hrun]]].
        -- left. exists (p :: pre), q, post. split_and!; auto.
        -- right; left. exists (p :: pre), q, post. split_and!; auto.
        -- right; right. split; [by apply Forall_cons_2 | exact Hrun].
    + right; left. exists [], p, l.
      split_and!; [done | apply Forall_nil_2 | exact Hp | simpl; by rewrite Hp].
Qed.

Lemma IsUrlInLazyLoadList_cases h url (l : list string) s :
  (∃ pre p post, l = pre ++ p :: post ∧ Forall (rejects h url) pre ∧ accepts h url p
                 ∧ IsUrlInLazyLoadList h url (Some l) s = (Ret true, s))
  ∨ (∃ pre p post, l = pre ++ p :: post ∧ Forall (rejects h url) pre ∧ RegExp h p = None
                   ∧ IsUrlInLazyLoadList h url (Some l) s
                     = (Ret false,
                        record (EvConsole LvError (LogLazyMatchError (SyntaxError p))) s))
  ∨ (Forall (rejects h url) l ∧ IsUrlInLazyLoadList h url (Some l) s = (Ret false, s)).
Proof.
  unfold IsUrlInLazyLoadList, try_catch.
  destruct (lazy_loop_cases h url l s)
    as [(pre & p & post & Hl & Hpre & Hp & Hrun)
       |[(pre & p & post & Hl & Hpre & Hp & Hrun)
        |[Hall Hrun]]]; rewrite Hrun.
  - left. by exists pre, p, post.
  - right; left. by exists pre, p, post.
  - right; right. by split.
Qed.

(** C5, as amended.  The patterns are tested in list order against the
    full URL, under one handler around the whole loop.  The scan ends at
    the first pattern that accepts (result [true], nothing logged), or at
    the first pattern that does not compile (the error is logged once, the
    result is [false] and the patterns after it are not tested), or at the
    end of the list (result [false]).  A pattern that does not compile is
    never a match. *)
Theorem lazy_list_scan h url (l : list string) s :
  (∃ pre p post, l = pre ++ p :: post ∧ Forall (rejects h url) pre ∧ accepts h url p
                 ∧ IsUrlInLazyLoadList h url (Some l) s = (Ret true, s))
  ∨ (∃ pre p post, l = pre ++ p :: post ∧ Forall (rejects h url) pre ∧ RegExp h p = None
                   ∧ IsUrlInLazyLoadList h url (Some l) s
                     = (Ret false,
                        record (EvConsole LvError (LogLazyMatchError (SyntaxError p))) s))
  ∨ (Forall (rejects h url) l ∧ IsUrlInLazyLoadList h url (Some l) s = (Ret false, s)).
Proof. apply IsUrlInLazyLoadList_cases. Qed.

(** ** Cache Storage *)

Lemma assoc_app_fresh name c (cs : list (string * gmap string Response)) :
  name ∉ cs.*1 → assoc name (cs ++ [(name, c)]) = Some c.
Proof.
  induction cs as [|d cs IH]; simpl; intros Hn.
  - by rewrite decide_True.
  - apply not_elem_of_cons in Hn as [Hne Hn].
    rewrite decide_False by congruence. by apply IH.
Qed.

Lemma assoc_put name key r n (cs : list (string * gmap string Response)) :
  assoc n (store_entry name key r cs)
  = if decide (n = name) then <[key:=r]> <$> assoc n cs else assoc n cs.
Proof.
  unfold store_entry. induction cs as [|c cs IH]; simpl.
  - by case_decide.
  - destruct (decide (c.1 = name)) as [Hc|Hc]; simpl.
    + destruct (decide (c.1 = n)) as [Hn|Hn].
      * rewrite decide_True by congruence. reflexivity.
      * rewrite IH. reflexivity.
    + destruct (decide (c.1 = n)) as [Hn|Hn].
      * rewrite decide_False by congruence. reflexivity.
      * exact IH.
Qed.

Lemma names_put name key r (cs : list (string * gmap string Response)) :
  (store_entry name key r cs).*1 = cs.*1.
Proof.
  unfold store_entry. induction cs as [|c cs IH]; [reflexivity|].
  cbn [map]. rewrite !fmap_cons. f_equal; [by case_decide | exact IH].
Qed.

(** [caches.open] leaves an existing cache alone and creates an empty one
    otherwise. *)
Lemma find_cache_open name n s :
  find_cache n (caches_open name s).2
  = if decide (n = name) then Some (default ∅ (find_cache name s)) else find_cache n s.
Proof.
  unfold caches_open, find_cache. simpl.
  destruct (has_cache name s) eqn:Hhas; simpl.
  - case_decide as Hn; [|reflexivity]. subst n.
    apply has_cache_find in Hhas as [c Hc]. unfold find_cache in Hc. by rewrite Hc.
  - apply has_cache_false in Hhas. case_decide as Hn.
    + subst n. rewrite assoc_app_fresh by exact Hhas.
      apply assoc_None in Hhas. by rewrite Hhas.
    + clear Hhas. induction (caches s) as [|c cs IH]; simpl.
      * by rewrite decide_False by congruence.
      * case_decide; [reflexivity | exact IH].
Qed.

Lemma caches_open_run name s :
  caches_open name s = (Ret name, (caches_open name s).2).
Proof. reflexivity. Qed.

Lemma cache_match_run name rq s :
  cache_match name rq s = (Ret (lookup_entry name (rq_url rq) s), s).
Proof. reflexivity. Qed.

Lemma lookup_entry_open name n key s :
  lookup_entry n key (caches_open name s).2 = lookup_entry n key s.
Proof.
  unfold lookup_entry. rewrite find_cache_open. case_decide as Hn; [|reflexivity].
  subst n. destruct (find_cache name s); reflexivity.
Qed.

(** ** The request router *)

Lemma fetches_app (t1 t2 : list Event) : fetches (t1 ++ t2) = fetches t1 ++ fetches t2.
Proof. apply omap_app. Qed.

Lemma fetches_deletes (l : list string) : fetches (EvCacheDelete <$> l) = [].
Proof. induction l as [|n l IH]; [reflexivity | rewrite fmap_cons; exact IH]. Qed.

(** Selecting a generation never throws, never fetches and leaves the
    key/value store and the counters alone. *)
Lemma GetCacheNameToUse_frame h names nav s :
  ∃ sel s1 evs,
    GetCacheNameToUse h names nav s = (Ret sel, s1)
    ∧ lazy_store s1 = lazy_store s ∧ n_fetch s1 = n_fetch s ∧ n_random s1 = n_random s
    ∧ trace s1 = trace s ++ evs ∧ fetches evs = [].
Proof.
  destruct (delete_all_run (removelast names) (record (EvConsole LvLog LogUpgrading) s))
    as [bs Hdel].
  unfold GetCacheNameToUse.
  destruct ((length names =? 1) || negb nav).
  { exists (head names), s, []. by rewrite app_nil_r. }
  unfold clients_matchAll. unfold_monad.
  destruct (1 <? length (matching_clients false (clients h))).
  { exists (head names), s, []. by rewrite app_nil_r. }
  rewrite Hdel, Promise_all_resolved.
  eexists _, _, ([EvConsole LvLog LogUpgrading] ++ (EvCacheDelete <$> removelast names)).
  split_and!; try reflexivity.
  - simpl. by rewrite <- app_assoc.
  - apply fetches_deletes.
Qed.

(** C9. When the generation selected for a request holds a response for
    it, [HandleFetch] returns that response; it hands nothing to [fetch]:
    the trace gains no fetch and the fetch counter stands still. *)
Theorem cache_hit_skips_network h rq nav s sel s1 r :
  available h s ≠ [] →
  GetCacheNameToUse h (available h s) nav s = (Ret sel, s1) →
  lookup_entry (name_to_string sel) (rq_url rq) s1 = Some r →
  ∃ s', HandleFetch h rq nav s = (Ret r, s')
        ∧ fetches (trace s') = fetches (trace s)
        ∧ n_fetch s' = n_fetch s.
Proof.
  intros Hav Hsel Hhit.
  destruct (GetCacheNameToUse_frame h (available h s) nav s)
    as (sel' & s1' & evs & Hrun & _ & Hfetch & _ & Htrace & Hevs).
  rewrite Hsel in Hrun. injection Hrun as <- <-.
  exists (caches_open (name_to_string sel) s1).2. split_and!.
  - unfold HandleFetch.
    mrun (GetAvailableCacheNames_run h s).
    destruct (available h s) as [|n names] eqn:Hnames; [done|]. cbn [length Nat.eqb].
    mrun Hsel. mrun (caches_open_run (name_to_string sel) s1).
    mrun (cache_match_run (name_to_string sel) rq (caches_open (name_to_string sel) s1).2).
    rewrite lookup_entry_open, Hhit. reflexivity.
  - unfold caches_open. simpl.
    assert (Hsame : ∀ s2 : State, trace s2 = trace s1 →
              fetches (trace s2 ++ [EvCacheOpen (name_to_string sel)]) = fetches (trace s)).
    { intros s2 ->. by rewrite Htrace, !fetches_app, Hevs, !app_nil_r. }
    destruct (has_cache (name_to_string sel) s1); by apply Hsame.
  - unfold caches_open. simpl.
    destruct (has_cache (name_to_string sel) s1); exact Hfetch.
Qed.

Lemma lazy_loop_first_hit h url (pre : list string) p post s :
  Forall (rejects h url) pre → accepts h url p →
  lazy_loop h url (pre ++ p :: post) s = (Ret true, s).
Proof.
  intros Hpre (test & Hp & Ht). induction Hpre as [|q pre (t & Hq & Hr) _ IH]; simpl.
  - by rewrite Hp, Ht.
  - by rewrite Hq, Hr.
Qed.

Lemma lazy_loop_first_bad h url (pre : list string) p post s :
  Forall (rejects h url) pre → RegExp h p = None →
  lazy_loop h url (pre ++ p :: post) s = (Throw (SyntaxError p), s).
Proof.
  intros Hpre Hp. induction Hpre as [|q pre (t & Hq & Hr) _ IH]; simpl.
  - by rewrite Hp.
  - by rewrite Hq, Hr.
Qed.

(** [IsUrlInLazyLoadList] always returns; it only ever adds a console
    entry to the state. *)
Lemma IsUrlInLazyLoadList_frame h url lazy s :
  ∃ b s' evs,
    IsUrlInLazyLoadList h url lazy s = (Ret b, s')
    ∧ caches s' = caches s ∧ trace s' = trace s ++ evs ∧ fetches evs = []
    ∧ (b = true → ∃ l p, lazy = Some l ∧ p ∈ l ∧ accepts h url p).
Proof.
  destruct lazy as [l|].
  - destruct (IsUrlInLazyLoadList_cases h url l s)
      as [(pre & p & post & Hl & Hpre & Hp & Hrun)
         |[(pre & p & post & Hl & Hpre & Hp & Hrun)
          |[Hall Hrun]]]; rewrite Hrun.
    + exists true, s, []. split_and!; try done; [by rewrite app_nil_r|].
      intros _. exists l, p. split_and!; [done | | done].
      rewrite Hl, elem_of_app. right. by left.
    + eexists false, _, [_]. split_and!; try done.
    + exists false, s, []. split_and!; try done. by rewrite app_nil_r.
  - exists false, s, []. split_and!; try done. by rewrite app_nil_r.
Qed.

Lemma ReadLazyLoadListFromStorage_run h s :
  ReadLazyLoadListFromStorage h s = (Ret (stored_lazy_list h s), s).
Proof.
  unfold ReadLazyLoadListFromStorage, stored_lazy_list.
  by destruct (has_localforage h).
Qed.

Lemma await_run {A} (a : A) s : await (Ret a) s = (Ret a, s).
Proof. reflexivity. Qed.

Lemma fetch_run h q s resp :
  network h (n_fetch s) q = Some resp →
  fetch h q s = (Ret resp,
                 mkState (caches s) (lazy_store s) (n_random s) (S (n_fetch s))
                         (trace s ++ [EvFetch q])).
Proof. intros Hnet. unfold fetch. by rewrite Hnet. Qed.

(** C4, as amended.  On a miss in the selected generation [HandleFetch]
    fetches the request from the network and returns the network response.
    If a pattern of the stored lazy-load list accepts the URL and every
    pattern before it compiles and rejects it, the response is also put
    into the selected generation, where it can then be looked up; when
    that put fails the failure is swallowed and Cache Storage is as it was
    after the generation was opened.  If no pattern of the list accepts the
    URL, or a pattern that does not compile comes before any that accepts
    it, nothing is stored. *)
Theorem cache_miss_lazy_caching h rq nav s sel s1 resp :
  available h s ≠ [] →
  GetCacheNameToUse h (available h s) nav s = (Ret sel, s1) →
  lookup_entry (name_to_string sel) (rq_url rq) s1 = None →
  network h (n_fetch s) (passthrough rq) = Some resp →
  ∃ s',
    HandleFetch h rq nav s = (Ret resp, s')
    ∧ fetches (trace s') = fetches (trace s) ++ [passthrough rq]
    ∧ (∀ l pre p post,
         stored_lazy_list h s = Some l → l = pre ++ p :: post →
         Forall (rejects h (rq_url rq)) pre → accepts h (rq_url rq) p →
         if put_ok h (name_to_string sel) (rq_url rq)
         then lookup_entry (name_to_string sel) (rq_url rq) s' = Some resp
         else caches s' = caches (caches_open (name_to_string sel) s1).2)
    ∧ ((∀ l p, stored_lazy_list h s = Some l → p ∈ l → ¬ accepts h (rq_url rq) p) →
         caches s' = caches (caches_open (name_to_string sel) s1).2)
    ∧ (∀ l pre p post,
         stored_lazy_list h s = Some l → l = pre ++ p :: post →
         Forall (rejects h (rq_url rq)) pre → RegExp h p = None →
         caches s' = caches (caches_open (name_to_string sel) s1).2).
Proof.
  intros Hav Hsel Hmiss Hnet.
  destruct (GetCacheNameToUse_frame h (available h s) nav s)
    as (sel' & s1' & evs & Hrun & Hlazy & Hnf & _ & Htrace & Hevs).
  rewrite Hsel in Hrun. injection Hrun as <- <-.
  set (name := name_to_string sel) in *. set (url := rq_url rq) in *.
  remember (caches_open name s1).2 as s2 eqn:Hs2def.
  assert (Hs2 : lazy_store s2 = lazy_store s ∧ n_fetch s2 = n_fetch s
                ∧ trace s2 = trace s ++ evs ++ [EvCacheOpen name]).
  { rewrite Hs2def. unfold caches_open. simpl.
    destruct (has_cache name s1); simpl; rewrite Hlazy, Hnf, Htrace, <- app_assoc; done. }
  destruct Hs2 as (Hlazy2 & Hnf2 & Htrace2).
  set (s3 := mkState (caches s2) (lazy_store s2) (n_random s2) (S (n_fetch s2))
                     (trace s2 ++ [EvFetch (passthrough rq)])).
  assert (Hfetch : fetch h (passthrough rq) s2 = (Ret resp, s3)).
  { apply fetch_run. by rewrite Hnf2. }
  assert (Hstored : stored_lazy_list h s3 = stored_lazy_list h s).
  { unfold stored_lazy_list, s3. cbn [lazy_store]. by rewrite Hlazy2. }
  destruct (IsUrlInLazyLoadList_frame h url (stored_lazy_list h s3) s3)
    as (b & s4 & evs4 & Hscan & Hcaches4 & Htrace4 & Hevs4 & Htrue).
  assert (Hfind : find_cache name s2 = Some (default ∅ (find_cache name s1))).
  { rewrite Hs2def, find_cache_open. by rewrite decide_True. }
  assert (Hstart : ∀ tail : M unit,
    HandleFetch h rq nav s
    = (IsUrlInLazyLoadList h url (stored_lazy_list h s3)
         ≫= λ inList : bool,
              (if inList
               then try_catch (cache_put h name url resp)
                      (λ err, console_warn (LogLazyPutFailed url err))
               else ret ()) ≫= λ _, ret resp) s3).
  { intros _. unfold HandleFetch.
    mrun (GetAvailableCacheNames_run h s).
    destruct (available h s) as [|n names] eqn:Hnames; [done|]. cbn [length Nat.eqb].
    mrun Hsel. mrun (caches_open_run name s1). rewrite <- Hs2def.
    mrun (cache_match_run name rq s2).
    fold url.
    replace (lookup_entry name url s2) with (@None Response)
      by (by rewrite Hs2def, lookup_entry_open).
    mrun (run_start _ _ _ _ Hfetch).
    mrun (run_start _ _ _ _ (ReadLazyLoadListFromStorage_run h s3)).
    mrun (await_run resp s3). mrun (await_run (stored_lazy_list h s3) s3).
    reflexivity. }
  rewrite (Hstart (ret ())). clear Hstart. mrun Hscan.
  assert (Hf3 : fetches (trace s4) = fetches (trace s) ++ [passthrough rq]).
  { rewrite Htrace4. unfold s3. cbn [trace]. rewrite Htrace2.
    rewrite !fetches_app, Hevs, Hevs4. simpl. by rewrite !app_nil_r. }
  destruct b.
  - (* the URL is in the list: the response is put into the generation *)
    assert (Hbad : ∀ pre p post, stored_lazy_list h s = Some (pre ++ p :: post) →
                   Forall (rejects h url) pre → RegExp h p = None → False).
    { intros pre p post Hl Hpre Hp. rewrite <- Hstored in Hl. rewrite Hl in Hscan.
      unfold IsUrlInLazyLoadList in Hscan.
      rewrite (run_catch _ _ _ _ _ (lazy_loop_first_bad h url pre p post s3 Hpre Hp)) in Hscan.
      discriminate. }
    unfold try_catch, cache_put.
    destruct (put_ok h name url) eqn:Hput.
    + eexists. split; [unfold_monad; reflexivity|]. simpl. split_and!.
      * by rewrite fetches_app, Hf3, app_nil_r.
      * intros _ _ _ _ _ _ _ _.
        unfold lookup_entry, find_cache. simpl.
        rewrite assoc_put, decide_True by done.
        rewrite Hcaches4. unfold s3. simpl.
        unfold find_cache in Hfind. rewrite Hfind. simpl. apply lookup_insert_eq.
      * intros Hnone. destruct (Htrue eq_refl) as (l & p & Hl & Hp & Hacc).
        rewrite Hstored in Hl. by destruct (Hnone l p Hl Hp).
      * intros l pre p post Hl -> Hpre Hp. by destruct (Hbad pre p post).
    + eexists. split; [unfold_monad; reflexivity|]. simpl. split_and!.
      * by rewrite !fetches_app, Hf3, !app_nil_r.
      * intros _ _ _ _ _ _ _ _. by rewrite Hcaches4.
      * intros _. by rewrite Hcaches4.
      * intros _ _ _ _ _ _ _ _. by rewrite Hcaches4.
  - (* the scan said no *)
    exists s4. split; [unfold_monad; reflexivity|]. split_and!.
    + exact Hf3.
    + intros l pre p post Hl -> Hpre Hp. exfalso.
      rewrite <- Hstored in Hl. rewrite Hl in Hscan.
      unfold IsUrlInLazyLoadList in Hscan.
      rewrite (run_try _ _ _ _ _ (lazy_loop_first_hit h url pre p post s3 Hpre Hp)) in Hscan.
      congruence.
    + intros _. by rewrite Hcaches4.
    + intros _ _ _ _ _ _ _ _. by rewrite Hcaches4.
Qed.

(** The [fetch] listener leaves a cross-origin request to the host and
    answers a same-origin subresource request with [HandleFetch]. *)
Lemma on_fetch_cross_origin h rq s :
  rq_origin rq ≠ location_origin h → on_fetch h rq s = (Ret None, s).
Proof.
  intros Hne. unfold on_fetch.
  apply String.eqb_neq in Hne. by rewrite Hne.
Qed.

Lemma on_fetch_subresource h rq s r s' :
  rq_origin rq = location_origin h → rq_mode rq = ModeOther →
  HandleFetch h rq false s = (Ret r, s') →
  on_fetch h rq s = (Ret (Some r), s').
Proof.
  intros Horigin Hmode Hrun. unfold on_fetch.
  apply String.eqb_eq in Horigin. rewrite Horigin, Hmode. cbn [negb].
  mrun (run_start _ _ _ _ Hrun). reflexivity.
Qed.

(** The patterns of the worked instances, run through the fragment. *)
Example RegExp_fragment_samples :
  (f ← RegExpFragment.RegExp_fragment ".*\.png$"; Some (f "https://example.com/app/a.png"))
    = Some true
  ∧ (f ← RegExpFragment.RegExp_fragment ".*\.png$"; Some (f "https://example.com/app/a.txt"))
    = Some false
  ∧ RegExpFragment.RegExp_fragment "*" = None
  ∧ RegExpFragment.RegExp_fragment "a\" = None.
Proof. by vm_compute. Qed.

(** ** The populator *)

Lemma resolve_all_cons h request (rest urls : list string) :
  resolve_all h (request :: rest) = Some urls
  ↔ ∃ url urls', resolve h request = Some url ∧ resolve_all h rest = Some urls'
                 ∧ urls = url :: urls'.
Proof.
  cbn [resolve_all]. split.
  - destruct (resolve h request) as [url|]; [|done].
    destruct (resolve_all h rest) as [urls'|]; [|done].
    intros [= <-]. by exists url, urls'.
  - intros (url & urls' & -> & -> & ->). done.
Qed.

Lemma resolve_all_issued h (fileList urls : list string) :
  resolve_all h fileList = Some urls → issued h fileList = urls.
Proof.
  revert urls. induction fileList as [|request rest IH]; intros urls.
  - by intros [= <-].
  - intros (url & urls' & Hurl & Hrest & ->)%resolve_all_cons.
    cbn [issued]. by rewrite Hurl, (IH urls' Hrest).
Qed.

Lemma resolve_all_Forall2 h (fileList urls : list string) :
  resolve_all h fileList = Some urls →
  Forall2 (λ request url, resolve h request = Some url) fileList urls.
Proof.
  revert urls. induction fileList as [|request rest IH]; intros urls.
  - intros [= <-]. constructor.
  - intros (url & urls' & Hurl & Hrest & ->)%resolve_all_cons. constructor; auto.
Qed.

(** Every entry of a list that resolves has its URL among the resolved
    ones, and every resolved URL comes from an entry. *)
Lemma resolve_all_elem h (fileList urls : list string) :
  resolve_all h fileList = Some urls →
  (∀ request, request ∈ fileList → ∃ url, resolve h request = Some url ∧ url ∈ urls)
  ∧ (∀ url, url ∈ urls → ∃ request, request ∈ fileList ∧ resolve h request = Some url).
Proof.
  intros Hall%resolve_all_Forall2. induction Hall as [|request url rest urls Hurl _ [IH1 IH2]].
  - split; intros x Hx; by apply elem_of_nil in Hx.
  - split.
    + intros x [->|Hx]%elem_of_cons.
      * exists url. split; [done | by left].
      * destruct (IH1 x Hx) as (u & Hu & Hin). exists u. split; [done | by right].
    + intros u [->|Hu]%elem_of_cons.
      * exists request. split; [by left | done].
      * destruct (IH2 u Hu) as (x & Hx & Hin). exists x. split; [by right | done].
Qed.

(** A list with an entry that is refused does not resolve. *)
Lemma resolve_all_refused h (pre : list string) bad post urls :
  resolve h bad = None → resolve_all h (pre ++ bad :: post) ≠ Some urls.
Proof.
  intros Hbad. revert urls. induction pre as [|x pre IH]; intros urls Hall.
  - apply resolve_all_cons in Hall as (? & ? & ? & _). congruence.
  - apply resolve_all_cons in Hall as (? & urls' & _ & Hall & _). by apply (IH urls').
Qed.

Lemma fetchWithBypass_run h request url bypass s :
  resolve h request = Some url →
  fetchWithBypass h request bypass s
  = (Ret (settle h (n_fetch s) (file_request h bypass (n_random s) url)),
     mkState (caches s) (lazy_store s) (if bypass then S (n_random s) else n_random s)
             (S (n_fetch s))
             (trace s ++ [EvFetch (file_request h bypass (n_random s) url)])).
Proof.
  intros Hurl. unfold fetchWithBypass, file_request, settle. rewrite Hurl. destruct bypass.
  - unfold next_random. unfold_monad. unfold fetch. simpl.
    by destruct (network h (n_fetch s) _).
  - unfold start, fetch. by destruct (network h (n_fetch s) _).
Qed.

Lemma fetchWithBypass_refused h request bypass s :
  resolve h request = None →
  fetchWithBypass h request bypass s = (Throw (TypeError request), s).
Proof. intros Hbad. unfold fetchWithBypass. by rewrite Hbad. Qed.

(** The fetches are issued entry by entry, whatever they settle to, until
    an entry is refused by [new Request]. *)
Lemma issue_fetches_run h bypass (fileList : list string) s :
  ∃ s1,
    caches s1 = caches s ∧ lazy_store s1 = lazy_store s
    ∧ trace s1 = trace s ++ (EvFetch <$> file_requests h bypass (n_random s) (issued h fileList))
    ∧ ((∃ urls, resolve_all h fileList = Some urls
                ∧ mapM (λ url, fetchWithBypass h url bypass) fileList s
                  = (Ret (populate_outcomes h bypass (n_random s) (n_fetch s) fileList), s1))
       ∨ (∃ pre bad post urls,
            fileList = pre ++ bad :: post ∧ resolve_all h pre = Some urls
            ∧ resolve h bad = None
            ∧ mapM (λ url, fetchWithBypass h url bypass) fileList s
              = (Throw (TypeError bad), s1))).
Proof.
  unfold populate_outcomes. revert s.
  induction fileList as [|request rest IH]; intros s.
  - exists s. split_and!; [done | done | simpl; by rewrite app_nil_r |].
    left. by exists [].
  - cbn [mapM issued]. destruct (resolve h request) as [url|] eqn:Hurl.
    + mrun (fetchWithBypass_run h request url bypass s Hurl).
      destruct (IH (mkState (caches s) (lazy_store s)
                      (if bypass then S (n_random s) else n_random s) (S (n_fetch s))
                      (trace s ++ [EvFetch (file_request h bypass (n_random s) url)])))
        as (s1 & Hc & Hl & Ht & Hrun).
      exists s1. split_and!; [done | done | |].
      * rewrite Ht. simpl. by rewrite <- app_assoc.
      * destruct Hrun as [(urls & Hall & Hrun)
                         | (pre & bad & post & urls & -> & Hpre & Hbad & Hrun)].
        -- left. exists (url :: urls). split.
           ++ cbn [resolve_all]. by rewrite Hurl, Hall.
           ++ mrun Hrun. reflexivity.
        -- right. exists (request :: pre), bad, post, (url :: urls).
           split_and!; [done | | done |].
           ++ cbn [resolve_all]. by rewrite Hurl, Hpre.
           ++ by rewrite (run_bind_throw _ _ _ _ _ Hrun).
    + exists s. split_and!; [done | done | simpl; by rewrite app_nil_r |].
      right. exists [], request, rest, []. split_and!; try done.
      by rewrite (run_bind_throw _ _ _ _ _ (fetchWithBypass_refused h request bypass s Hurl)).
Qed.

Lemma Ret_fmap_inj {A} (l k : list A) : Ret <$> l = Ret <$> k → l = k.
Proof.
  revert k. induction l as [|a l IH]; intros [|b k]; try done.
  rewrite !fmap_cons. intros [= -> Hk]. f_equal. by apply IH.
Qed.

Lemma Promise_all_cases {A} (ps : list (Outcome A)) s :
  (∃ l, ps = Ret <$> l ∧ Promise_all ps s = (Ret l, s))
  ∨ (∃ e, Throw e ∈ ps ∧ Promise_all ps s = (Throw e, s)).
Proof.
  induction ps as [|[a|e] ps IH].
  - left. by exists [].
  - destruct IH as [(l & -> & Hrun) | (e & He & Hrun)].
    + left. exists (a :: l). split; [done|]. apply (Promise_all_resolved (a :: l)).
    + right. exists e. split; [by right|].
      cbn [Promise_all]. mrun (await_run a s). by rewrite (run_bind_throw _ _ _ _ _ Hrun).
  - right. exists e. split; [by left | reflexivity].
Qed.

Lemma report_failed_run (responses : list Response) s :
  ∃ entries,
    report_failed responses s
    = (Ret (), mkState (caches s) (lazy_store s) (n_random s) (n_fetch s)
                       (trace s ++ (EvConsole LvError <$> entries))).
Proof.
  revert s. induction responses as [|r rest IH]; intros s.
  - exists []. simpl. unfold_monad. destruct s; simpl. by rewrite app_nil_r.
  - cbn [report_failed]. destruct (r_ok r); simpl.
    + unfold_monad. apply IH.
    + destruct (IH (record (EvConsole LvError
                              (LogFetchError (r_url r) (r_status r) (r_statusText r))) s))
        as [entries Hrun].
      exists (LogFetchError (r_url r) (r_status r) (r_statusText r) :: entries).
      unfold_monad. rewrite Hrun. simpl. by rewrite <- app_assoc.
Qed.

Lemma fetches_fetch (l : list FetchReq) : fetches (EvFetch <$> l) = l.
Proof. induction l as [|q l IH]; [reflexivity | rewrite fmap_cons; simpl; by rewrite IH]. Qed.

Lemma fetches_console lv (l : list LogEntry) : fetches (EvConsole lv <$> l) = [].
Proof. induction l as [|q l IH]; [reflexivity | rewrite fmap_cons; exact IH]. Qed.

Lemma quiet_fetch (l : list FetchReq) : Forall (λ e, touches_storage e = false) (EvFetch <$> l).
Proof. apply Forall_fmap, Forall_true. done. Qed.

Lemma quiet_console lv (l : list LogEntry) :
  Forall (λ e, touches_storage e = false) (EvConsole lv <$> l).
Proof. apply Forall_fmap, Forall_true. done. Qed.

(** The first half of [CreateCacheFromFileList]: either it throws with
    storage untouched, or every entry resolved, every response is ok and
    [write_entries] takes over. *)
Lemma CreateCacheFromFileList_fetch_phase h cacheName (fileList : list string) bypass s :
  ∃ s1 entries,
    caches s1 = caches s ∧ lazy_store s1 = lazy_store s
    ∧ trace s1 = trace s
                 ++ (EvFetch <$> file_requests h bypass (n_random s) (issued h fileList))
                 ++ (EvConsole LvError <$> entries)
    ∧ ((∃ e, CreateCacheFromFileList h cacheName fileList bypass s = (Throw e, s1)
             ∧ ¬ ∃ urls rs, resolve_all h fileList = Some urls
                            ∧ populate_outcomes h bypass (n_random s) (n_fetch s) fileList
                              = Ret <$> rs
                            ∧ Forall (λ r, r_ok r = true) rs)
       ∨ (∃ urls rs, resolve_all h fileList = Some urls
                     ∧ populate_outcomes h bypass (n_random s) (n_fetch s) fileList = Ret <$> rs
                     ∧ Forall (λ r, r_ok r = true) rs
                     ∧ CreateCacheFromFileList h cacheName fileList bypass s
                       = write_entries h cacheName fileList rs s1)).
Proof.
  destruct (issue_fetches_run h bypass fileList s)
    as (s0 & Hc0 & Hl0 & Ht0 & [(urls & Hurls & Hissue)
                              | (pre & bad & post & urls & Hsplit & Hpre & Hbad & Hissue)]);
    unfold CreateCacheFromFileList; cycle 1.
  { (* an entry is refused *)
    rewrite (run_bind_throw _ _ _ _ _ Hissue).
    exists s0, []. split_and!; [exact Hc0 | exact Hl0 | by rewrite Ht0, app_nil_r |].
    left. exists (TypeError bad). split; [reflexivity|].
    intros (urls' & _ & Hall & _). rewrite Hsplit in Hall.
    by apply (resolve_all_refused h pre bad post urls' Hbad). }
  mrun Hissue.
  destruct (Promise_all_cases (populate_outcomes h bypass (n_random s) (n_fetch s) fileList) s0)
    as [(rs & Hrs & Hall) | (e & He & Hall)].
  - mrun Hall. destruct (report_failed_run rs s0) as [entries Hrep]. mrun Hrep.
    exists (mkState (caches s0) (lazy_store s0) (n_random s0) (n_fetch s0)
                    (trace s0 ++ (EvConsole LvError <$> entries))), entries.
    split_and!; [exact Hc0 | exact Hl0 | simpl; by rewrite Ht0, <- app_assoc |].
    destruct (forallb r_ok rs) eqn:Hok; simpl.
    + right. exists urls, rs. split_and!; [done | done | | reflexivity].
      apply Forall_forall. intros r Hr.
      rewrite forallb_forall in Hok. apply Hok. by apply list_elem_of_In.
    + left. exists ErrNotAllFetched. split; [reflexivity|].
      intros (urls' & rs' & _ & Hrs' & Hok'). rewrite Hrs in Hrs'.
      apply Ret_fmap_inj in Hrs' as <-.
      assert (forallb r_ok rs = true); [|congruence].
      apply forallb_forall. intros r Hr. rewrite Forall_forall in Hok'.
      apply Hok'. by apply list_elem_of_In.
  - rewrite (run_bind_throw _ _ _ _ _ Hall).
    exists s0, []. split_and!; [exact Hc0 | exact Hl0 | by rewrite Ht0, app_nil_r |].
    left. exists e. split; [reflexivity|].
    intros (urls' & rs & _ & Hrs & _). rewrite Hrs in He.
    apply list_elem_of_fmap in He as (r & Hr & _). discriminate.
Qed.

(** C1. When one of the fetches [CreateCacheFromFileList] issues settles to
    a response that is not ok, it throws before [caches.open]: Cache
    Storage and the key/value store are exactly as before, the only events
    are the fetches and console entries, so nothing that was fetched is kept
    and no generation with the target name appears. *)
Theorem populate_aborts_on_failed_fetch h cacheName (fileList : list string) bypass s r :
  Ret r ∈ populate_outcomes h bypass (n_random s) (n_fetch s) fileList →
  r_ok r = false →
  ∃ e s' evs,
    CreateCacheFromFileList h cacheName fileList bypass s = (Throw e, s')
    ∧ caches s' = caches s ∧ lazy_store s' = lazy_store s
    ∧ trace s' = trace s ++ evs ∧ Forall (λ ev, touches_storage ev = false) evs
    ∧ (has_cache cacheName s = false → has_cache cacheName s' = false).
Proof.
  intros Hin Hbad.
  destruct (CreateCacheFromFileList_fetch_phase h cacheName fileList bypass s)
    as (s1 & entries & Hc & Hl & Ht & [(e & Hrun & _) | (urls & rs & _ & Hrs & Hok & _)]).
  - exists e, s1, ((EvFetch <$> file_requests h bypass (n_random s) (issued h fileList))
                   ++ (EvConsole LvError <$> entries)).
    split_and!; try done.
    + apply Forall_app. split; [apply quiet_fetch | apply quiet_console].
    + unfold has_cache, cache_names. by rewrite Hc.
  - exfalso. rewrite Hrs in Hin. apply list_elem_of_fmap in Hin as (r' & [= <-] & Hr).
    rewrite Forall_forall in Hok. specialize (Hok r Hr). congruence.
Qed.

(** ** Writing the entries *)

Lemma cache_put_run h name key r s :
  cache_put h name key r s
  = if put_ok h name key
    then (Ret (), record (EvCachePut name key true) (set_caches (store_entry name key r) s))
    else (Throw (PutError name key), record (EvCachePut name key false) s).
Proof. reflexivity. Qed.

(** Putting a list of entries into the cache [name]: the puts that succeed
    land in that cache, nothing else changes. *)
Lemma put_all_run h name (l : list (string * Response)) s :
  ∃ s' evs,
    mapM (λ ur, start (cache_put h name ur.1 ur.2)) l s = (Ret (put_outcome h name <$> l), s')
    ∧ cache_names s' = cache_names s ∧ lazy_store s' = lazy_store s
    ∧ trace s' = trace s ++ evs ∧ fetches evs = []
    ∧ (∀ n, n ≠ name → find_cache n s' = find_cache n s)
    ∧ (∀ c, find_cache name s = Some c →
         ∃ c', find_cache name s' = Some c'
               ∧ (∀ k, k ∉ l.*1 → c' !! k = c !! k)
               ∧ ((∀ ur, ur ∈ l → put_ok h name ur.1 = true) →
                  ∀ k, k ∈ l.*1 → ∃ r, (k, r) ∈ l ∧ c' !! k = Some r)).
Proof.
  revert s. induction l as [|[k r] l IH]; intros s.
  - exists s, []. split_and!; try done; [by rewrite app_nil_r|].
    intros c Hc. exists c. split_and!; try done.
    intros _ k Hk. by apply elem_of_nil in Hk.
  - cbn [mapM]. simpl fst. simpl snd.
    destruct (put_ok h name k) eqn:Hput.
    + (* this put succeeds *)
      set (s1 := record (EvCachePut name k true) (set_caches (store_entry name k r) s)).
      assert (Hstep : start (cache_put h name k r) s = (Ret (Ret ()), s1)).
      { apply run_start. by rewrite cache_put_run, Hput. }
      mrun Hstep.
      destruct (IH s1) as (s' & evs & Hrun & Hn & Hl & Ht & Hf & Hother & Hthis).
      mrun Hrun. exists s', (EvCachePut name k true :: evs).
      split_and!.
      * rewrite fmap_cons. unfold put_outcome at 2. simpl. by rewrite Hput.
      * rewrite Hn. unfold cache_names, s1. simpl. apply names_put.
      * by rewrite Hl.
      * rewrite Ht. unfold s1. simpl. by rewrite <- app_assoc.
      * exact Hf.
      * intros n Hne. rewrite (Hother n Hne). unfold find_cache, s1. simpl.
        rewrite assoc_put. by rewrite decide_False.
      * intros c Hc.
        assert (Hc1 : find_cache name s1 = Some (<[k:=r]> c)).
        { unfold find_cache, s1. simpl. rewrite assoc_put, decide_True by done.
          unfold find_cache in Hc. by rewrite Hc. }
        destruct (Hthis _ Hc1) as (c' & Hc' & Hout & Hin).
        exists c'. split_and!; [exact Hc' | |].
        -- intros k' Hk'. rewrite fmap_cons in Hk'. apply not_elem_of_cons in Hk' as [Hne Hk'].
           rewrite (Hout k' Hk'). by apply lookup_insert_ne.
        -- intros Hall k' Hk'.
           destruct (decide (k' ∈ l.*1)) as [Hl'|Hl'].
           ++ destruct (Hin (λ ur Hur, Hall ur (list_elem_of_further _ _ _ Hur)) k' Hl')
                as (r' & Hr' & Hlook).
              exists r'. split; [by right | exact Hlook].
           ++ rewrite fmap_cons in Hk'. apply elem_of_cons in Hk' as [Heq|Hk']; [|done].
              simpl in Heq. subst k'.
              exists r. split; [by left|]. rewrite (Hout k Hl'). apply lookup_insert_eq.
    + (* this put fails *)
      set (s1 := record (EvCachePut name k false) s).
      assert (Hstep : start (cache_put h name k r) s = (Ret (Throw (PutError name k)), s1)).
      { apply run_start. by rewrite cache_put_run, Hput. }
      mrun Hstep.
      destruct (IH s1) as (s' & evs & Hrun & Hn & Hl & Ht & Hf & Hother & Hthis).
      mrun Hrun. exists s', (EvCachePut name k false :: evs).
      split_and!.
      * rewrite fmap_cons. unfold put_outcome at 2. simpl. by rewrite Hput.
      * by rewrite Hn.
      * by rewrite Hl.
      * rewrite Ht. unfold s1. simpl. by rewrite <- app_assoc.
      * exact Hf.
      * intros n Hne. by rewrite (Hother n Hne).
      * intros c Hc. destruct (Hthis c Hc) as (c' & Hc' & Hout & Hin).
        exists c'. split_and!; [exact Hc' | |].
        -- intros k' Hk'. rewrite fmap_cons in Hk'. apply not_elem_of_cons in Hk' as [Hne Hk'].
           by apply Hout.
        -- intros Hall. specialize (Hall (k, r) (list_elem_of_here _ _)). simpl in Hall.
           congruence.
Qed.

Lemma cache_names_open name s :
  cache_names (caches_open name s).2
  = if has_cache name s then cache_names s else cache_names s ++ [name].
Proof.
  unfold caches_open, cache_names. simpl.
  destruct (has_cache name s); simpl; [reflexivity | by rewrite fmap_app].
Qed.

(** The entries are put under the URLs their strings resolve to. *)
Lemma put_strings_run h name (fileList urls : list string) (rs : list Response) s :
  resolve_all h fileList = Some urls →
  mapM (λ ur, start (cache_put_string h name ur.1 ur.2)) (zip fileList rs) s
  = mapM (λ ur, start (cache_put h name ur.1 ur.2)) (zip urls rs) s.
Proof.
  intros Hall%resolve_all_Forall2. revert rs s.
  induction Hall as [|request url rest urls Hurl _ IH]; intros rs s; [reflexivity|].
  destruct rs as [|r rs]; [reflexivity|].
  cbn [zip zip_with mapM]. simpl fst. simpl snd.
  assert (Hstep : cache_put_string h name request r = cache_put h name url r)
    by (unfold cache_put_string; by rewrite Hurl).
  rewrite Hstep. unfold_monad.
  destruct (cache_put h name url r s) as [o s1]. by rewrite IH.
Qed.

(** [write_entries] either stores every entry and returns, or some put
    fails, the cache is deleted again and the failure of a put is thrown
    on.  It never fetches, and other caches keep their content. *)
Lemma write_entries_cases h name (fileList urls : list string) (rs : list Response) s :
  resolve_all h fileList = Some urls →
  ∃ s' evs,
    lazy_store s' = lazy_store s ∧ trace s' = trace s ++ evs ∧ fetches evs = []
    ∧ (∀ n, n ≠ name → find_cache n s' = find_cache n s)
    ∧ (((∀ ur, ur ∈ zip urls rs → put_ok h name ur.1 = true)
        ∧ write_entries h name fileList rs s = (Ret (), s')
        ∧ cache_names s' = cache_names (caches_open name s).2
        ∧ ∃ c', find_cache name s' = Some c'
                ∧ (∀ k, k ∉ (zip urls rs).*1 → c' !! k = default ∅ (find_cache name s) !! k)
                ∧ (∀ k, k ∈ (zip urls rs).*1 → ∃ r, (k, r) ∈ zip urls rs ∧ c' !! k = Some r))
       ∨ (∃ key evs0,
            key ∈ (zip urls rs).*1 ∧ put_ok h name key = false
            ∧ write_entries h name fileList rs s = (Throw (PutError name key), s')
            ∧ has_cache name s' = false
            ∧ evs = EvCacheOpen name
                    :: evs0 ++ [EvConsole LvError (LogWriteError (PutError name key));
                                EvCacheDelete name])).
Proof.
  intros Hurls.
  unfold write_entries. mrun (caches_open_run name s).
  remember (caches_open name s).2 as s2 eqn:Hs2.
  assert (Hframe2 : lazy_store s2 = lazy_store s ∧ trace s2 = trace s ++ [EvCacheOpen name]).
  { rewrite Hs2. unfold caches_open. simpl. by destruct (has_cache name s). }
  destruct Hframe2 as [Hl2 Ht2].
  assert (Hfind2 : find_cache name s2 = Some (default ∅ (find_cache name s))).
  { by rewrite Hs2, find_cache_open, decide_True. }
  assert (Hother2 : ∀ n, n ≠ name → find_cache n s2 = find_cache n s).
  { intros n Hn. by rewrite Hs2, find_cache_open, decide_False. }
  destruct (put_all_run h name (zip urls rs) s2)
    as (s3 & evs3 & Hputs & Hn3 & Hl3 & Ht3 & Hf3 & Hother3 & Hthis3).
  rewrite <- (put_strings_run h name fileList urls rs s2 Hurls) in Hputs.
  destruct (Hthis3 _ Hfind2) as (c' & Hc' & Hout & Hin).
  destruct (Promise_all_cases (put_outcome h name <$> zip urls rs) s3)
    as [(us & Hus & Hall) | (e & He & Hall)].
  - (* every put succeeded *)
    assert (Hok : ∀ ur, ur ∈ zip urls rs → put_ok h name ur.1 = true).
    { intros ur Hur. destruct (put_ok h name ur.1) eqn:Hput; [done|].
      assert (Hthrow : Throw (PutError name ur.1) ∈ put_outcome h name <$> zip urls rs).
      { apply list_elem_of_fmap. exists ur. split; [|done]. unfold put_outcome. by rewrite Hput. }
      rewrite Hus in Hthrow. apply list_elem_of_fmap in Hthrow as (? & ? & _). discriminate. }
    exists s3, (EvCacheOpen name :: evs3). split_and!.
    + by rewrite Hl3.
    + rewrite Ht3, Ht2. by rewrite <- app_assoc.
    + exact Hf3.
    + intros n Hn. by rewrite Hother3, Hother2.
    + left. split_and!; [exact Hok | | exact Hn3 |].
      * apply run_try. mrun Hputs. mrun Hall. reflexivity.
      * exists c'. split_and!; [exact Hc' | exact Hout | by apply Hin].
  - (* some put failed *)
    apply list_elem_of_fmap in He as (ur & Hur & Hmem).
    unfold put_outcome in Hur. destruct (put_ok h name ur.1) eqn:Hput; [discriminate|].
    injection Hur as ->.
    set (err := PutError name ur.1) in *.
    set (s4 := record (EvConsole LvError (LogWriteError err)) s3).
    exists (record (EvCacheDelete name) (set_caches (filter (λ c, c.1 ≠ name)) s4)),
           (EvCacheOpen name :: evs3 ++ [EvConsole LvError (LogWriteError err);
                                         EvCacheDelete name]).
    split_and!.
    + simpl. by rewrite Hl3.
    + simpl. rewrite Ht3, Ht2. by rewrite <- !app_assoc.
    + simpl. rewrite fetches_app, Hf3. reflexivity.
    + intros n Hn. rewrite <- Hother2, <- Hother3 by done.
      unfold find_cache. simpl. exact (assoc_filter (λ m, m ≠ name) n _ Hn).
    + right. exists ur.1, evs3. split_and!.
      * apply list_elem_of_fmap. by exists ur.
      * exact Hput.
      * erewrite run_catch; [reflexivity|].
        mrun Hputs. by rewrite (run_bind_throw _ _ _ _ _ Hall).
      * apply has_cache_false. unfold cache_names. simpl.
        pose proof (names_filter (λ m, m ≠ name) (caches s3)) as Hnf.
        rewrite Hnf, list_elem_of_filter. tauto.
      * reflexivity.
Qed.

Lemma populate_outcomes_length h bypass nr nf (fileList : list string) :
  length (populate_outcomes h bypass nr nf fileList) = length (issued h fileList).
Proof.
  unfold populate_outcomes. generalize (issued h fileList) as urls. revert nr nf.
  intros nr nf urls. revert nr nf.
  induction urls as [|url rest IH]; intros nr nf; [reflexivity|].
  simpl. by rewrite IH.
Qed.

Lemma zip_keys h bypass nr nf (fileList urls : list string) (rs : list Response) :
  resolve_all h fileList = Some urls →
  populate_outcomes h bypass nr nf fileList = Ret <$> rs →
  (zip urls rs).*1 = urls.
Proof.
  intros Hurls Hrs. apply fst_zip.
  rewrite <- (resolve_all_issued h fileList urls Hurls) at 1.
  rewrite <- (populate_outcomes_length h bypass nr nf fileList), Hrs, length_fmap. done.
Qed.

(** C7. When every fetch succeeded and the generation has been opened, a
    failing [cache.put] makes [CreateCacheFromFileList] log the error,
    delete the generation it just opened and throw the error of a failed
    put on to its caller; the caches of other names keep their content.
    The entries are put under the URLs [urls] that the strings of the list
    resolve to. *)
Theorem populate_rolls_back_on_write_failure h cacheName (fileList urls : list string)
    bypass s (rs : list Response) url :
  resolve_all h fileList = Some urls →
  populate_outcomes h bypass (n_random s) (n_fetch s) fileList = Ret <$> rs →
  Forall (λ r, r_ok r = true) rs →
  url ∈ urls → put_ok h cacheName url = false →
  ∃ key s' before puts,
    CreateCacheFromFileList h cacheName fileList bypass s
    = (Throw (PutError cacheName key), s')
    ∧ key ∈ urls ∧ put_ok h cacheName key = false
    ∧ trace s' = trace s ++ before ++ EvCacheOpen cacheName :: puts
                   ++ [EvConsole LvError (LogWriteError (PutError cacheName key));
                       EvCacheDelete cacheName]
    ∧ has_cache cacheName s' = false
    ∧ (∀ n, n ≠ cacheName → find_cache n s' = find_cache n s).
Proof.
  intros Hurls Hrs Hok Hurl Hfail.
  pose proof (zip_keys _ _ _ _ _ _ _ Hurls Hrs) as Hkeys.
  destruct (CreateCacheFromFileList_fetch_phase h cacheName fileList bypass s)
    as (s1 & entries & Hc & Hl & Ht
        & [(e & _ & Hnot) | (urls' & rs' & Hurls' & Hrs' & _ & Hrun)]).
  { destruct Hnot. by exists urls, rs. }
  rewrite Hrs in Hrs'. apply Ret_fmap_inj in Hrs' as <-. clear urls' Hurls'.
  destruct (write_entries_cases h cacheName fileList urls rs s1 Hurls)
    as (s' & evs & _ & Ht' & _ & Hother
        & [(Hall & _) | (key & puts & Hkey & Hput & Hwrite & Hgone & Hevs)]).
  { rewrite <- Hkeys in Hurl. apply list_elem_of_fmap in Hurl as (ur & -> & Hur).
    specialize (Hall ur Hur). congruence. }
  exists key, s', ((EvFetch <$> file_requests h bypass (n_random s) (issued h fileList))
                   ++ (EvConsole LvError <$> entries)), puts.
  split_and!.
  - by rewrite Hrun.
  - by rewrite <- Hkeys.
  - exact Hput.
  - rewrite Ht', Ht, Hevs. by rewrite <- !app_assoc.
  - exact Hgone.
  - intros n Hn. rewrite (Hother n Hn). unfold find_cache. by rewrite Hc.
Qed.

(** ** The update check *)

Lemma record_all_nil s : record_all [] s = s.
Proof. destruct s. unfold record_all. simpl. by rewrite app_nil_r. Qed.

Lemma record_all_app evs1 evs2 s :
  record_all evs2 (record_all evs1 s) = record_all (evs1 ++ evs2) s.
Proof. unfold record_all. simpl. by rewrite <- app_assoc. Qed.

Lemma emit_run e s : emit e s = (Ret (), record_all [e] s).
Proof. reflexivity. Qed.

Lemma PostBroadcastMessage_run h m s :
  PostBroadcastMessage h m s = (Ret (), record_all (posted h m) s).
Proof.
  unfold PostBroadcastMessage, posted. destruct (has_BroadcastChannel h).
  - reflexivity.
  - by rewrite record_all_nil.
Qed.

Lemma IsUpdatePending_run h s :
  IsUpdatePending h s = (Ret (2 <=? length (available h s)), s).
Proof. reflexivity. Qed.

Lemma GetMainPageUrl_run h s : GetMainPageUrl h s = (Ret (main_page h), s).
Proof. reflexivity. Qed.

Lemma caches_has_run name s : caches_has name s = (Ret (has_cache name s), s).
Proof. reflexivity. Qed.

(** The first two lines of [UpdateCheck], when [new Request] accepts the
    manifest's name. *)
Lemma manifest_fetch_run {B} h murl s (k : Response → M B) :
  resolve h OFFLINE_DATA_FILE = Some murl →
  (fetchWithBypass h OFFLINE_DATA_FILE true ≫= λ started, await started ≫= k) s
  = match settle h (n_fetch s) (manifest_request h murl s) with
    | Ret r => k r (after_manifest h murl s)
    | Throw e => (Throw e, after_manifest h murl s)
    end.
Proof.
  intros Hm. mrun (fetchWithBypass_run h OFFLINE_DATA_FILE murl true s Hm).
  fold (manifest_request h murl s). fold (after_manifest h murl s).
  by destruct (settle h (n_fetch s) (manifest_request h murl s)).
Qed.

(** An update check that fails before it has looked for the generation:
    the manifest is unreachable, not ok, or not JSON. *)
Lemma UpdateCheck_no_manifest h isFirst s murl :
  resolve h OFFLINE_DATA_FILE = Some murl →
  (∀ r, network h (n_fetch s) (manifest_request h murl s) = Some r →
        r_ok r = false ∨ r_json r = None) →
  ∃ e, UpdateCheck h isFirst s
       = (Ret (), record_all [EvConsole LvWarn (LogUpdateCheckFailed e)] (after_manifest h murl s)).
Proof.
  intros Hm Hbad. unfold UpdateCheck.
  destruct (network h (n_fetch s) (manifest_request h murl s)) as [r|] eqn:Hnet.
  - destruct (r_ok r) eqn:Hok.
    + destruct (Hbad r eq_refl) as [?|Hjson]; [congruence|].
      eexists. erewrite run_catch; [reflexivity|].
      rewrite (manifest_fetch_run h murl s _ Hm). unfold settle. rewrite Hnet, Hok.
      simpl. unfold response_json. rewrite Hjson. reflexivity.
    + eexists. erewrite run_catch; [reflexivity|].
      rewrite (manifest_fetch_run h murl s _ Hm). unfold settle. rewrite Hnet, Hok.
      reflexivity.
  - eexists. erewrite run_catch; [reflexivity|].
    rewrite (manifest_fetch_run h murl s _ Hm). unfold settle. by rewrite Hnet.
Qed.

(** An update check that finds the generation of the manifest's version. *)
Lemma UpdateCheck_existing_run h isFirst s murl r data :
  resolve h OFFLINE_DATA_FILE = Some murl →
  network h (n_fetch s) (manifest_request h murl s) = Some r →
  r_ok r = true → r_json r = Some data →
  has_cache (GetCacheVersionName h (m_version data)) s = true →
  UpdateCheck h isFirst s
  = (Ret (),
     record_all
       (if 2 <=? length (available h s)
        then EvConsole LvLog LogUpdatePending :: posted h (mkMessage "update-pending" None)
        else EvConsole LvLog LogUpToDate :: posted h (mkMessage "up-to-date" None))
       (after_manifest h murl s)).
Proof.
  intros Hm Hnet Hok Hjson Hhas. unfold UpdateCheck.
  apply run_try. rewrite (manifest_fetch_run h murl s _ Hm). unfold settle.
  rewrite Hnet, Hok. cbn [negb].
  unfold response_json. rewrite Hjson. mrun (eq_refl : ret data (after_manifest h murl s) = _).
  mrun (caches_has_run (GetCacheVersionName h (m_version data)) (after_manifest h murl s)).
  change (has_cache _ (after_manifest h murl s))
    with (has_cache (GetCacheVersionName h (m_version data)) s).
  rewrite Hhas. mrun (IsUpdatePending_run h (after_manifest h murl s)).
  change (available h (after_manifest h murl s)) with (available h s).
  destruct (2 <=? length (available h s)).
  - unfold console_log.
    mrun (emit_run (EvConsole LvLog LogUpdatePending) (after_manifest h murl s)).
    unfold Broadcast. rewrite PostBroadcastMessage_run, record_all_app. reflexivity.
  - unfold console_log. mrun (emit_run (EvConsole LvLog LogUpToDate) (after_manifest h murl s)).
    unfold Broadcast. rewrite PostBroadcastMessage_run, record_all_app. reflexivity.
Qed.

Lemma fetches_console_cons lv e (l : list Event) :
  fetches (EvConsole lv e :: l) = fetches l.
Proof. reflexivity. Qed.

Lemma fetches_posted h m : fetches (posted h m) = [].
Proof. unfold posted. by destruct (has_BroadcastChannel h). Qed.

(** C6. When the generation named for the manifest's version exists, the
    update check fetches the manifest and nothing else, leaves Cache
    Storage and the stored lazy-load list as they were, logs, emits
    [update-pending] when two or more generations exist and [up-to-date]
    otherwise, and returns.  The manifest is fetched from [murl], the URL
    its name resolves to. *)
Theorem update_check_existing_generation h isFirst s murl r data :
  resolve h OFFLINE_DATA_FILE = Some murl →
  network h (n_fetch s) (manifest_request h murl s) = Some r →
  r_ok r = true → r_json r = Some data →
  has_cache (GetCacheVersionName h (m_version data)) s = true →
  ∃ s' verdict,
    UpdateCheck h isFirst s = (Ret (), s')
    ∧ caches s' = caches s ∧ lazy_store s' = lazy_store s
    ∧ fetches (trace s') = fetches (trace s) ++ [manifest_request h murl s]
    ∧ verdict = (if 2 <=? length (available h s) then "update-pending" else "up-to-date")
    ∧ ∃ entry, trace s' = trace s ++ EvFetch (manifest_request h murl s)
                           :: EvConsole LvLog entry :: posted h (mkMessage verdict None).
Proof.
  intros Hm Hnet Hok Hjson Hhas.
  rewrite (UpdateCheck_existing_run h isFirst s murl r data Hm Hnet Hok Hjson Hhas).
  assert (Hquiet : ∀ entry verdict,
            fetches (trace s ++ [EvFetch (manifest_request h murl s)]
                     ++ EvConsole LvLog entry :: posted h (mkMessage verdict None))
            = fetches (trace s) ++ [manifest_request h murl s]).
  { intros entry verdict. rewrite !fetches_app.
    change (fetches (EvConsole LvLog entry :: ?l)) with (fetches l).
    by rewrite fetches_posted, app_nil_r. }
  destruct (2 <=? length (available h s)).
  - eexists _, "update-pending". split_and!; try reflexivity.
    + cbn [trace record_all after_manifest]. rewrite <- app_assoc. apply Hquiet.
    + exists LogUpdatePending. cbn [trace record_all after_manifest]. by rewrite <- app_assoc.
  - eexists _, "up-to-date". split_and!; try reflexivity.
    + cbn [trace record_all after_manifest]. rewrite <- app_assoc. apply Hquiet.
    + exists LogUpToDate. cbn [trace record_all after_manifest]. by rewrite <- app_assoc.
Qed.

Lemma WriteLazyLoadList_frame h (lazyLoadList : option (list string)) s :
  ∃ s2 evs,
    match lazyLoadList with
    | Some l => WriteLazyLoadListToStorage h l
    | None => ret ()
    end s = (Ret (), s2)
    ∧ caches s2 = caches s ∧ n_random s2 = n_random s ∧ n_fetch s2 = n_fetch s
    ∧ trace s2 = trace s ++ evs ∧ fetches evs = [].
Proof.
  destruct lazyLoadList as [l|].
  - unfold WriteLazyLoadListToStorage. destruct (has_localforage h); simpl.
    + eexists _, [_]. split_and!; reflexivity.
    + exists s, []. split_and!; try reflexivity. by rewrite app_nil_r.
  - exists s, []. split_and!; try reflexivity. by rewrite app_nil_r.
Qed.

(** An update check that does not find the generation of the manifest's
    version: it runs the populator on [populate_list], from a state whose
    Cache Storage is still the initial one, and always returns. *)
Lemma UpdateCheck_populate_run h isFirst s murl r data :
  resolve h OFFLINE_DATA_FILE = Some murl →
  network h (n_fetch s) (manifest_request h murl s) = Some r →
  r_ok r = true → r_json r = Some data →
  has_cache (GetCacheVersionName h (m_version data)) s = false →
  ∃ s_pre evs_pre s' evs_post,
    caches s_pre = caches s
    ∧ n_random s_pre = S (n_random s) ∧ n_fetch s_pre = S (n_fetch s)
    ∧ trace s_pre = trace s ++ EvFetch (manifest_request h murl s) :: evs_pre
    ∧ fetches evs_pre = []
    ∧ UpdateCheck h isFirst s = (Ret (), s')
    ∧ caches s' = caches (CreateCacheFromFileList h (GetCacheVersionName h (m_version data))
                            (populate_list h data) (negb isFirst) s_pre).2
    ∧ trace s' = trace (CreateCacheFromFileList h (GetCacheVersionName h (m_version data))
                          (populate_list h data) (negb isFirst) s_pre).2 ++ evs_post
    ∧ fetches evs_post = [].
Proof.
  intros Hm Hnet Hok Hjson Hhas.
  set (name := GetCacheVersionName h (m_version data)) in *.
  set (files := populate_list h data).
  set (announce := if isFirst then mkMessage "downloading" None
                   else mkMessage "downloading-update" (Some (m_version data))).
  set (s_b := record_all (EvConsole LvLog (LogCaching (length files)) :: posted h announce)
                         (after_manifest h murl s)).
  destruct (WriteLazyLoadList_frame h (m_lazyLoad data) s_b)
    as (s_pre & evs_w & Hwrite & Hc & Hnr & Hnf & Ht & Hf).
  assert (Hhead : UpdateCheck h isFirst s
    = try_catch
        (λ s0, (CreateCacheFromFileList h name files (negb isFirst)
                ≫= λ _, IsUpdatePending h
                ≫= λ isUpdatePending : bool,
                     if isUpdatePending
                     then console_log LogUpdateReady ≫= λ _, BroadcastUpdateReady h (m_version data)
                     else console_log LogOfflineReady ≫= λ _, Broadcast h "offline-ready") s_pre)
        (λ err, console_warn (LogUpdateCheckFailed err)) s).
  { unfold UpdateCheck, try_catch. rewrite (manifest_fetch_run h murl s _ Hm). unfold settle.
    rewrite Hnet, Hok. cbn [negb].
    unfold response_json. rewrite Hjson. mrun (eq_refl : ret data (after_manifest h murl s) = _).
    mrun (caches_has_run name (after_manifest h murl s)).
    change (has_cache name (after_manifest h murl s)) with (has_cache name s). rewrite Hhas.
    mrun (GetMainPageUrl_run h (after_manifest h murl s)).
    fold (populate_list h data). fold files.
    unfold console_log at 1.
    mrun (emit_run (EvConsole LvLog (LogCaching (length files))) (after_manifest h murl s)).
    assert (Hannounce :
      (if isFirst then Broadcast h "downloading"
       else BroadcastDownloadingUpdate h (m_version data))
        (record_all [EvConsole LvLog (LogCaching (length files))] (after_manifest h murl s))
      = (Ret (), s_b)).
    { unfold s_b, announce, Broadcast, BroadcastDownloadingUpdate.
      destruct isFirst; by rewrite PostBroadcastMessage_run, record_all_app. }
    mrun Hannounce. mrun Hwrite. reflexivity. }
  rewrite Hhead. clear Hhead. unfold try_catch.
  assert (Hpre : trace s_pre = trace s ++ EvFetch (manifest_request h murl s)
                   :: (EvConsole LvLog (LogCaching (length files)) :: posted h announce) ++ evs_w
                 ∧ fetches ((EvConsole LvLog (LogCaching (length files)) :: posted h announce)
                            ++ evs_w) = []).
  { split.
    - rewrite Ht. unfold s_b. simpl. by rewrite <- !app_assoc.
    - by rewrite fetches_app, Hf, fetches_console_cons, fetches_posted. }
  destruct Hpre as [Htpre Hfpre].
  change (populate_list h data) with files.
  destruct (CreateCacheFromFileList h name files (negb isFirst) s_pre) as [[[]|e] s2] eqn:Hpop.
  - (* the populator returned *)
    mrun Hpop. mrun (IsUpdatePending_run h s2).
    exists s_pre, ((EvConsole LvLog (LogCaching (length files)) :: posted h announce) ++ evs_w).
    destruct (2 <=? length (available h s2)).
    + unfold console_log. mrun (emit_run (EvConsole LvLog LogUpdateReady) s2).
      unfold BroadcastUpdateReady. rewrite PostBroadcastMessage_run, record_all_app.
      eexists _, _.
      split_and!; [by rewrite Hc | by rewrite Hnr | by rewrite Hnf | exact Htpre | exact Hfpre
                  | reflexivity | by rewrite Hpop | by rewrite Hpop |].
      by rewrite fetches_app, fetches_console_cons, fetches_posted.
    + unfold console_log. mrun (emit_run (EvConsole LvLog LogOfflineReady) s2).
      unfold Broadcast. rewrite PostBroadcastMessage_run, record_all_app.
      eexists _, _.
      split_and!; [by rewrite Hc | by rewrite Hnr | by rewrite Hnf | exact Htpre | exact Hfpre
                  | reflexivity | by rewrite Hpop | by rewrite Hpop |].
      by rewrite fetches_app, fetches_console_cons, fetches_posted.
  - (* the populator threw: the check logs a warning and returns *)
    rewrite (run_bind_throw _ _ _ _ _ Hpop).
    exists s_pre, ((EvConsole LvLog (LogCaching (length files)) :: posted h announce) ++ evs_w).
    eexists _, [_].
    split_and!; [by rewrite Hc | by rewrite Hnr | by rewrite Hnf | exact Htpre | exact Hfpre
                | reflexivity | by rewrite Hpop | by rewrite Hpop | reflexivity].
Qed.

Lemma file_requests_urls h bypass nr (fileList : list string) :
  fq_url <$> file_requests h bypass nr fileList = fileList.
Proof.
  revert nr. induction fileList as [|url rest IH]; intros nr; [reflexivity|].
  cbn [file_requests]. rewrite fmap_cons, IH. by destruct bypass.
Qed.

Lemma file_requests_mode h bypass nr (fileList : list string) :
  Forall (λ q, if bypass : bool then bypasses q else ordinary q)
         (file_requests h bypass nr fileList).
Proof.
  revert nr. induction fileList as [|url rest IH]; intros nr; [apply Forall_nil_2|].
  cbn [file_requests]. apply Forall_cons_2; [|apply IH].
  unfold file_request, bypasses, ordinary. destruct bypass; simpl; eauto.
Qed.

(** The populator hands exactly the requests for the URLs it gets to to
    [fetch], however it ends. *)
Lemma CreateCacheFromFileList_fetches h name (fileList : list string) bypass s :
  fetches (trace (CreateCacheFromFileList h name fileList bypass s).2)
  = fetches (trace s) ++ file_requests h bypass (n_random s) (issued h fileList).
Proof.
  destruct (CreateCacheFromFileList_fetch_phase h name fileList bypass s)
    as (s1 & entries & _ & _ & Ht & [(e & Hrun & _) | (urls & rs & Hurls & _ & _ & Hrun)]).
  - rewrite Hrun. simpl. rewrite Ht, !fetches_app, fetches_fetch, fetches_console.
    by rewrite app_nil_r.
  - rewrite Hrun.
    destruct (write_entries_cases h name fileList urls rs s1 Hurls)
      as (s' & evs & _ & Ht' & Hf & _ & [(_ & Hw & _) | (key & evs0 & _ & _ & Hw & _)]);
      rewrite Hw; simpl; rewrite Ht', Ht, !fetches_app, fetches_fetch, fetches_console, Hf;
      by rewrite !app_nil_r.
Qed.

Lemma unshift_entry_pages_covers mainPageUrl (fileList : list string) :
  "./" ∈ unshift_entry_pages mainPageUrl fileList
  ∧ (∀ f, f ∈ fileList → f ∈ unshift_entry_pages mainPageUrl fileList)
  ∧ (mainPageUrl ≠ "" → mainPageUrl ∈ unshift_entry_pages mainPageUrl fileList)
  ∧ (∀ f, f ∈ unshift_entry_pages mainPageUrl fileList →
          f = mainPageUrl ∧ mainPageUrl ≠ "" ∨ f = "./" ∨ f ∈ fileList).
Proof.
  unfold unshift_entry_pages.
  destruct (String.eqb mainPageUrl "") eqn:Hempty; simpl.
  - apply String.eqb_eq in Hempty. split_and!.
    + by left.
    + intros f Hf. by right.
    + done.
    + intros f Hf. right. by apply elem_of_cons in Hf.
  - apply String.eqb_neq in Hempty.
    destruct (bool_decide (mainPageUrl ∈ "./" :: fileList)) eqn:Hin; simpl.
    + apply bool_decide_eq_true in Hin. split_and!.
      * by left.
      * intros f Hf. by right.
      * done.
      * intros f Hf. right. by apply elem_of_cons in Hf.
    + split_and!.
      * right. by left.
      * intros f Hf. right. by right.
      * intros _. by left.
      * intros f Hf. apply elem_of_cons in Hf as [->|Hf]; [by left|].
        right. by apply elem_of_cons in Hf.
Qed.

(** C8, as amended.  When the target generation does not exist, the update
    check hands the populator the manifest's file list with ["./"] put in
    front and, when a main page URL was inferred that this list does not
    already contain, with that URL put in front of it; a main page URL
    already in the list is not added a second time.  When every fetch and
    every put succeeds, the generation then holds an entry for ["./"], for
    every file of the manifest, and for the main page URL when one was
    inferred, each under the URL its string resolves to and with the
    response fetched for it; when no main page URL is found the list is
    ["./"] followed by the manifest's files. *)
Theorem update_check_populates h isFirst s murl r data (urls : list string)
    (rs : list Response) :
  resolve h OFFLINE_DATA_FILE = Some murl →
  network h (n_fetch s) (manifest_request h murl s) = Some r →
  r_ok r = true → r_json r = Some data →
  has_cache (GetCacheVersionName h (m_version data)) s = false →
  resolve_all h (populate_list h data) = Some urls →
  populate_outcomes h (negb isFirst) (S (n_random s)) (S (n_fetch s)) (populate_list h data)
    = Ret <$> rs →
  Forall (λ r, r_ok r = true) rs →
  (∀ url, url ∈ urls → put_ok h (GetCacheVersionName h (m_version data)) url = true) →
  ∃ s',
    UpdateCheck h isFirst s = (Ret (), s')
    ∧ populate_list h data
      = (if bool_decide (main_page h ≠ "" ∧ main_page h ∉ "./" :: m_fileList data)
         then main_page h :: "./" :: m_fileList data
         else "./" :: m_fileList data)
    ∧ fq_url <$> fetches (trace s') = (fq_url <$> fetches (trace s)) ++ murl :: urls
    ∧ (∀ f, f ∈ populate_list h data →
         ∃ url resp, resolve h f = Some url ∧ (url, resp) ∈ zip urls rs
                     ∧ lookup_entry (GetCacheVersionName h (m_version data)) url s' = Some resp)
    ∧ "./" ∈ populate_list h data
    ∧ (∀ f, f ∈ m_fileList data → f ∈ populate_list h data)
    ∧ (main_page h ≠ "" → main_page h ∈ populate_list h data)
    ∧ (main_page h = "" → populate_list h data = "./" :: m_fileList data).
Proof.
  intros Hm Hnet Hok Hjson Hhas Hurls Hrs Hoks Hputs.
  set (name := GetCacheVersionName h (m_version data)) in *.
  set (files := populate_list h data) in *.
  destruct (UpdateCheck_populate_run h isFirst s murl r data Hm Hnet Hok Hjson Hhas)
    as (s_pre & evs_pre & s' & evs_post & Hc & Hnr & Hnf & Ht & Hf & Hrun & Hc' & Ht' & Hf').
  fold name files in Hc', Ht'.
  pose proof (CreateCacheFromFileList_fetches h name files (negb isFirst) s_pre) as Hfetches.
  destruct (CreateCacheFromFileList_fetch_phase h name files (negb isFirst) s_pre)
    as (s1 & entries & Hc1 & _ & _
        & [(e & _ & Hnot) | (urls' & rs' & Hurls' & Hrs' & _ & Hpop)]).
  { destruct Hnot. exists urls, rs. by rewrite Hnr, Hnf. }
  rewrite Hnr, Hnf, Hrs in Hrs'. apply Ret_fmap_inj in Hrs' as <-. clear urls' Hurls'.
  pose proof (zip_keys _ _ _ _ _ _ _ Hurls Hrs) as Hkeys.
  destruct (write_entries_cases h name files urls rs s1 Hurls)
    as (s2 & evs & _ & _ & _ & _
        & [(_ & Hw & _ & c' & Hfind & Hout & Hin) | (key & puts & Hkey & Hput & _)]);
    cycle 1.
  { rewrite Hkeys in Hkey. specialize (Hputs key Hkey). congruence. }
  rewrite Hpop, Hw in Hc'. simpl in Hc'.
  rewrite Hkeys in Hin.
  assert (Hlook : ∀ url, lookup_entry name url s' = c' !! url).
  { intros url. unfold lookup_entry, find_cache. rewrite Hc'.
    unfold find_cache in Hfind. by rewrite Hfind. }
  destruct (unshift_entry_pages_covers (main_page h) (m_fileList data))
    as (Hroot & Hfiles & Hmain & _).
  exists s'. split_and!.
  - exact Hrun.
  - unfold files, populate_list, unshift_entry_pages.
    destruct (String.eqb (main_page h) "") eqn:Hempty; simpl.
    + apply String.eqb_eq in Hempty. rewrite bool_decide_eq_false_2; [done | tauto].
    + apply String.eqb_neq in Hempty.
      destruct (bool_decide (main_page h ∈ "./" :: m_fileList data)) eqn:Hin'; simpl.
      * apply bool_decide_eq_true in Hin'. rewrite bool_decide_eq_false_2; [done | tauto].
      * apply bool_decide_eq_false in Hin'. by rewrite bool_decide_eq_true_2.
  - rewrite Ht', fetches_app, Hf', app_nil_r, Hfetches, Ht.
    rewrite fetches_app. simpl. rewrite Hf, !fmap_app, fmap_cons, file_requests_urls.
    rewrite (resolve_all_issued h files urls Hurls). simpl. by rewrite <- app_assoc.
  - intros f Hfile.
    destruct (proj1 (resolve_all_elem h files urls Hurls) f Hfile) as (url & Hurl & Hmem).
    destruct (Hin url Hmem) as (resp & Hzip & Hentry).
    exists url, resp. split_and!; [done | done |]. by rewrite Hlook.
  - exact Hroot.
  - exact Hfiles.
  - exact Hmain.
  - intros Hempty. unfold files, populate_list, unshift_entry_pages.
    by rewrite Hempty.
Qed.

(** The fetches of an update check in which [new Request] accepts the
    manifest's name. *)
Lemma UpdateCheck_fetches h isFirst s murl :
  resolve h OFFLINE_DATA_FILE = Some murl →
  ∃ rest,
    fetches (trace (UpdateCheck h isFirst s).2)
    = fetches (trace s) ++ manifest_request h murl s :: rest
    ∧ Forall (λ q, if isFirst then ordinary q else bypasses q) rest
    ∧ (∀ r data,
         network h (n_fetch s) (manifest_request h murl s) = Some r →
         r_ok r = true → r_json r = Some data →
         has_cache (GetCacheVersionName h (m_version data)) s = false →
         fq_url <$> rest = issued h (populate_list h data)).
Proof.
  intros Hm.
  assert (Hquiet : (∀ r data,
             network h (n_fetch s) (manifest_request h murl s) = Some r →
             r_ok r = true → r_json r = Some data →
             has_cache (GetCacheVersionName h (m_version data)) s = true) →
           (∃ evs, trace (UpdateCheck h isFirst s).2
                   = trace s ++ EvFetch (manifest_request h murl s) :: evs ∧ fetches evs = []) →
           ∃ rest,
             fetches (trace (UpdateCheck h isFirst s).2)
             = fetches (trace s) ++ manifest_request h murl s :: rest
             ∧ Forall (λ q, if isFirst then ordinary q else bypasses q) rest
             ∧ (∀ r data,
                  network h (n_fetch s) (manifest_request h murl s) = Some r →
                  r_ok r = true → r_json r = Some data →
                  has_cache (GetCacheVersionName h (m_version data)) s = false →
                  fq_url <$> rest = issued h (populate_list h data))).
  { intros Hnever (evs & Ht & Hf). exists []. split_and!; try done.
    - rewrite Ht, fetches_app. simpl. by rewrite Hf.
    - intros r data Hnet Hok Hjson Hhas.
      rewrite (Hnever r data Hnet Hok Hjson) in Hhas. discriminate. }
  destruct (network h (n_fetch s) (manifest_request h murl s)) as [r|] eqn:Hnet.
  - destruct (r_ok r) eqn:Hok.
    + destruct (r_json r) as [data|] eqn:Hjson.
      * destruct (has_cache (GetCacheVersionName h (m_version data)) s) eqn:Hhas.
        -- (* the generation exists *)
           apply Hquiet.
           { intros r' data' Hr' _ Hj'. assert (data' = data) as -> by congruence. done. }
           rewrite (UpdateCheck_existing_run h isFirst s murl r data Hm Hnet Hok Hjson Hhas).
           eexists. split; [cbn [snd trace record_all after_manifest]; by rewrite <- app_assoc|].
           destruct (2 <=? length (available h s));
             by rewrite fetches_console_cons, fetches_posted.
        -- (* the check populates *)
           destruct (UpdateCheck_populate_run h isFirst s murl r data Hm Hnet Hok Hjson Hhas)
             as (s_pre & evs_pre & s' & evs_post
                 & _ & Hnr & _ & Ht & Hf & Hrun & _ & Ht' & Hf').
           exists (file_requests h (negb isFirst) (S (n_random s))
                     (issued h (populate_list h data))).
           split_and!.
           ++ rewrite Hrun. simpl. rewrite Ht', fetches_app, Hf', app_nil_r.
              rewrite CreateCacheFromFileList_fetches, Ht, Hnr, fetches_app. simpl.
              by rewrite Hf, <- app_assoc.
           ++ pose proof (file_requests_mode h (negb isFirst) (S (n_random s))
                            (issued h (populate_list h data))) as Hmode.
              by destruct isFirst.
           ++ intros r' data' Hr' _ Hj' _. assert (data' = data) as -> by congruence.
              apply file_requests_urls.
      * apply Hquiet; [intros r' data' Hr' _ Hj'; congruence|].
        destruct (UpdateCheck_no_manifest h isFirst s murl Hm) as [e Hrun].
        { intros r' Hr'. assert (r' = r) as -> by congruence. by right. }
        rewrite Hrun. eexists [_]. split; [simpl; by rewrite <- app_assoc | reflexivity].
    + apply Hquiet; [intros r' data' Hr' Hok'; congruence|].
      destruct (UpdateCheck_no_manifest h isFirst s murl Hm) as [e Hrun].
      { intros r' Hr'. assert (r' = r) as -> by congruence. by left. }
      rewrite Hrun. eexists [_]. split; [simpl; by rewrite <- app_assoc | reflexivity].
  - apply Hquiet; [intros r' data' ?; congruence|].
    destruct (UpdateCheck_no_manifest h isFirst s murl Hm) as [e Hrun].
    { intros r' ?. congruence. }
    rewrite Hrun. eexists [_]. split; [simpl; by rewrite <- app_assoc | reflexivity].
Qed.

(** When [new Request] refuses the manifest's name the check fetches
    nothing: the exception lands in the handler of [UpdateCheck]. *)
Lemma UpdateCheck_refused h isFirst s :
  resolve h OFFLINE_DATA_FILE = None →
  UpdateCheck h isFirst s
  = (Ret (), record_all [EvConsole LvWarn (LogUpdateCheckFailed (TypeError OFFLINE_DATA_FILE))] s).
Proof.
  intros Hbad. unfold UpdateCheck. erewrite run_catch; [reflexivity|].
  by rewrite (run_bind_throw _ _ _ _ _ (fetchWithBypass_refused h _ true s Hbad)).
Qed.

(** C10. Every update check, first or not, fetches the manifest with
    cache bypass: random digits in the query string and [no-store].  All
    its other fetches are the populator's file fetches; they are ordinary
    fetches in the first check and cache-bypassing fetches in every later
    one.  When the check populates, these are the fetches of the URLs of
    its file list, in order, as far as the populator gets: all of them
    when every entry of the list is a URL.  The manifest is fetched from
    the URL [murl] its name resolves to; should [new Request] refuse the
    name, the check fetches nothing at all. *)
Theorem bypass_only_after_first_check h isFirst s :
  (∀ murl,
     resolve h OFFLINE_DATA_FILE = Some murl →
     ∃ rest,
       fetches (trace (UpdateCheck h isFirst s).2)
       = fetches (trace s) ++ manifest_request h murl s :: rest
       ∧ fq_url (manifest_request h murl s) = murl
       ∧ bypasses (manifest_request h murl s)
       ∧ Forall (λ q, if isFirst then ordinary q else bypasses q) rest
       ∧ (∀ r data,
            network h (n_fetch s) (manifest_request h murl s) = Some r →
            r_ok r = true → r_json r = Some data →
            has_cache (GetCacheVersionName h (m_version data)) s = false →
            fq_url <$> rest = issued h (populate_list h data)
            ∧ ∀ urls, resolve_all h (populate_list h data) = Some urls →
                      fq_url <$> rest = urls))
  ∧ (resolve h OFFLINE_DATA_FILE = None →
     fetches (trace (UpdateCheck h isFirst s).2) = fetches (trace s)).
Proof.
  split.
  - intros murl Hm.
    destruct (UpdateCheck_fetches h isFirst s murl Hm) as (rest & Hfetches & Hmode & Hfiles).
    exists rest. split_and!; [done | done | split; [by eexists | reflexivity] | done |].
    intros r data Hnet Hok Hjson Hhas.
    pose proof (Hfiles r data Hnet Hok Hjson Hhas) as Hrest. split; [done|].
    intros urls Hurls. by rewrite Hrest, (resolve_all_issued h _ urls Hurls).
  - intros Hbad. rewrite (UpdateCheck_refused h isFirst s Hbad). cbn [snd trace record_all].
    by rewrite fetches_app, app_nil_r.
Qed.

(** ** Cache Storage keeps its names distinct *)

Lemma caches_open_NoDup name s :
  NoDup (cache_names s) → NoDup (cache_names (caches_open name s).2).
Proof.
  intros Hnd. rewrite cache_names_open.
  destruct (has_cache name s) eqn:Hhas; [exact Hnd|].
  apply has_cache_false in Hhas. apply NoDup_app. split_and!.
  - exact Hnd.
  - intros n Hn Hn'. apply list_elem_of_singleton in Hn' as ->. done.
  - apply NoDup_singleton.
Qed.

Lemma caches_delete_NoDup name s :
  NoDup (cache_names s) → NoDup (cache_names (caches_delete name s).2).
Proof.
  intros Hnd. unfold caches_delete, cache_names. simpl.
  pose proof (names_filter (λ m, m ≠ name) (caches s)) as Hnf. rewrite Hnf.
  by apply NoDup_filter.
Qed.

Lemma cache_put_NoDup h name key r s :
  NoDup (cache_names s) → NoDup (cache_names (cache_put h name key r s).2).
Proof.
  intros Hnd. rewrite cache_put_run. destruct (put_ok h name key); [|exact Hnd].
  unfold cache_names. simpl. by rewrite names_put.
Qed.

(** * Worked instances *)

Lemma populate_aborts_on_failed_fetch_witness :
  ∃ e s' evs,
    CreateCacheFromFileList flaky_host (generation "2") ["./"; "a.js"; "b.js"] true empty_state
    = (Throw e, s')
    ∧ caches s' = caches empty_state ∧ lazy_store s' = lazy_store empty_state
    ∧ trace s' = trace empty_state ++ evs ∧ Forall (λ ev, touches_storage ev = false) evs
    ∧ (has_cache (generation "2") empty_state = false → has_cache (generation "2") s' = false).
Proof.
  apply (populate_aborts_on_failed_fetch flaky_host (generation "2") ["./"; "a.js"; "b.js"]
           true empty_state (not_found (app_url "b.js"))).
  - vm_compute. do 2 apply list_elem_of_further. apply list_elem_of_here.
  - reflexivity.
Defined.

Lemma single_instance_upgrade_witness :
  ∃ newest s',
    last (available steady_host two_generations) = Some newest
    ∧ GetCacheNameToUse steady_host (available steady_host two_generations) true two_generations
      = (Ret (Some newest), s')
    ∧ available steady_host s' = [newest]
    ∧ (∀ n, n ∈ available steady_host two_generations → n ≠ newest → has_cache n s' = false)
    ∧ find_cache newest s' = find_cache newest two_generations
    ∧ (∀ n, n ∉ available steady_host two_generations →
            find_cache n s' = find_cache n two_generations)
    ∧ (∀ nav, GetCacheNameToUse steady_host (available steady_host s') nav s'
              = (Ret (Some newest), s')).
Proof.
  apply (single_instance_upgrade steady_host two_generations).
  - compute_done.
  - vm_compute. lia.
  - vm_compute. lia.
Defined.

Lemma oldest_generation_selected_witness :
  GetCacheNameToUse busy_host (available busy_host two_generations) true two_generations
  = (Ret (head (available busy_host two_generations)), two_generations).
Proof.
  apply (oldest_generation_selected busy_host (available busy_host two_generations) true
           two_generations).
  right; right. vm_compute. lia.
Defined.

Lemma cache_miss_lazy_caching_witness :
  ∃ s',
    HandleFetch steady_host a_png false two_generations
    = (Ret (fetched "https://example.com/app/a.png"), s')
    ∧ fetches (trace s') = fetches (trace two_generations) ++ [passthrough a_png]
    ∧ (∀ l pre p post,
         stored_lazy_list steady_host two_generations = Some l → l = pre ++ p :: post →
         Forall (rejects steady_host (rq_url a_png)) pre → accepts steady_host (rq_url a_png) p →
         if put_ok steady_host (name_to_string (Some (generation "1"))) (rq_url a_png)
         then lookup_entry (name_to_string (Some (generation "1"))) (rq_url a_png) s'
              = Some (fetched "https://example.com/app/a.png")
         else caches s'
              = caches (caches_open (name_to_string (Some (generation "1"))) two_generations).2)
    ∧ ((∀ l p, stored_lazy_list steady_host two_generations = Some l → p ∈ l →
               ¬ accepts steady_host (rq_url a_png) p) →
         caches s'
         = caches (caches_open (name_to_string (Some (generation "1"))) two_generations).2)
    ∧ (∀ l pre p post,
         stored_lazy_list steady_host two_generations = Some l → l = pre ++ p :: post →
         Forall (rejects steady_host (rq_url a_png)) pre → RegExp steady_host p = None →
         caches s'
         = caches (caches_open (name_to_string (Some (generation "1"))) two_generations).2).
Proof.
  apply (cache_miss_lazy_caching steady_host a_png false two_generations
           (Some (generation "1")) two_generations
           (fetched "https://example.com/app/a.png")).
  - vm_compute. discriminate.
  - vm_compute. reflexivity.
  - vm_compute. reflexivity.
  - vm_compute. reflexivity.
Defined.

Lemma update_check_existing_generation_witness :
  ∃ s' verdict,
    UpdateCheck steady_host false two_generations = (Ret (), s')
    ∧ caches s' = caches two_generations ∧ lazy_store s' = lazy_store two_generations
    ∧ fetches (trace s')
      = fetches (trace two_generations)
        ++ [manifest_request steady_host manifest_location two_generations]
    ∧ verdict = (if 2 <=? length (available steady_host two_generations)
                 then "update-pending" else "up-to-date")
    ∧ ∃ entry, trace s' = trace two_generations
                           ++ EvFetch (manifest_request steady_host manifest_location
                                         two_generations)
                           :: EvConsole LvLog entry
                           :: posted steady_host (mkMessage verdict None).
Proof.
  apply (update_check_existing_generation steady_host false two_generations manifest_location
           (manifest_response demo_manifest) demo_manifest).
  - reflexivity.
  - vm_compute. reflexivity.
  - reflexivity.
  - reflexivity.
  - vm_compute. reflexivity.
Defined.

Lemma populate_rolls_back_on_write_failure_witness :
  ∃ key s' before puts,
    CreateCacheFromFileList full_host (generation "2") ["./"; "a.js"; "b.js"] true empty_state
    = (Throw (PutError (generation "2") key), s')
    ∧ key ∈ [app_url ""; app_url "a.js"; app_url "b.js"]
    ∧ put_ok full_host (generation "2") key = false
    ∧ trace s' = trace empty_state ++ before ++ EvCacheOpen (generation "2") :: puts
                   ++ [EvConsole LvError (LogWriteError (PutError (generation "2") key));
                       EvCacheDelete (generation "2")]
    ∧ has_cache (generation "2") s' = false
    ∧ (∀ n, n ≠ generation "2" → find_cache n s' = find_cache n empty_state).
Proof.
  apply (populate_rolls_back_on_write_failure full_host (generation "2") ["./"; "a.js"; "b.js"]
           [app_url ""; app_url "a.js"; app_url "b.js"] true empty_state
           [fetched (app_url ""); fetched (app_url "a.js"); fetched (app_url "b.js")]
           (app_url "b.js")).
  - reflexivity.
  - vm_compute. reflexivity.
  - repeat constructor.
  - do 2 apply list_elem_of_further. apply list_elem_of_here.
  - reflexivity.
Defined.

Lemma cache_hit_skips_network_witness :
  ∃ s',
    HandleFetch steady_host a_js false two_generations = (Ret stored_a_js, s')
    ∧ fetches (trace s') = fetches (trace two_generations)
    ∧ n_fetch s' = n_fetch two_generations.
Proof.
  apply (cache_hit_skips_network steady_host a_js false two_generations
           (Some (generation "1")) two_generations stored_a_js).
  - vm_compute. discriminate.
  - vm_compute. reflexivity.
  - vm_compute. reflexivity.
Defined.

Lemma update_check_populates_witness :
  ∃ s',
    UpdateCheck steady_host true empty_state = (Ret (), s')
    ∧ populate_list steady_host demo_manifest
      = (if bool_decide (main_page steady_host ≠ ""
                         ∧ main_page steady_host ∉ "./" :: m_fileList demo_manifest)
         then main_page steady_host :: "./" :: m_fileList demo_manifest
         else "./" :: m_fileList demo_manifest)
    ∧ fq_url <$> fetches (trace s')
      = (fq_url <$> fetches (trace empty_state))
        ++ manifest_location
           :: [app_url "index.html"; app_url ""; app_url "a.js"; app_url "b.js"]
    ∧ (∀ f, f ∈ populate_list steady_host demo_manifest →
         ∃ url resp,
           resolve steady_host f = Some url
           ∧ (url, resp) ∈ zip [app_url "index.html"; app_url ""; app_url "a.js"; app_url "b.js"]
                               [fetched (app_url "index.html"); fetched (app_url "");
                                fetched (app_url "a.js"); fetched (app_url "b.js")]
           ∧ lookup_entry (GetCacheVersionName steady_host (m_version demo_manifest)) url s'
             = Some resp)
    ∧ "./" ∈ populate_list steady_host demo_manifest
    ∧ (∀ f, f ∈ m_fileList demo_manifest → f ∈ populate_list steady_host demo_manifest)
    ∧ (main_page steady_host ≠ "" → main_page steady_host ∈ populate_list steady_host demo_manifest)
    ∧ (main_page steady_host = "" →
       populate_list steady_host demo_manifest = "./" :: m_fileList demo_manifest).
Proof.
  apply (update_check_populates steady_host true empty_state manifest_location
           (manifest_response demo_manifest) demo_manifest
           [app_url "index.html"; app_url ""; app_url "a.js"; app_url "b.js"]
           [fetched (app_url "index.html"); fetched (app_url "");
            fetched (app_url "a.js"); fetched (app_url "b.js")]).
  - reflexivity.
  - vm_compute. reflexivity.
  - reflexivity.
  - reflexivity.
  - vm_compute. reflexivity.
  - vm_compute. reflexivity.
  - vm_compute. reflexivity.
  - repeat constructor.
  - intros url _. reflexivity.
Defined.

Lemma bypass_only_after_first_check_witness :
  ∃ rest,
    fetches (trace (UpdateCheck steady_host false one_generation).2)
    = fetches (trace one_generation)
      ++ manifest_request steady_host manifest_location one_generation :: rest
    ∧ fq_url (manifest_request steady_host manifest_location one_generation) = manifest_location
    ∧ bypasses (manifest_request steady_host manifest_location one_generation)
    ∧ Forall (λ q, if false then ordinary q else bypasses q) rest
    ∧ (∀ r data,
         network steady_host (n_fetch one_generation)
           (manifest_request steady_host manifest_location one_generation) = Some r →
         r_ok r = true → r_json r = Some data →
         has_cache (GetCacheVersionName steady_host (m_version data)) one_generation = false →
         fq_url <$> rest = issued steady_host (populate_list steady_host data)
         ∧ ∀ urls, resolve_all steady_host (populate_list steady_host data) = Some urls →
                   fq_url <$> rest = urls).
Proof.
  apply (proj1 (bypass_only_after_first_check steady_host false one_generation)
           manifest_location).
  reflexivity.
Defined.

(** * Where the code departs from the wording *)

(** C5: the first pattern does not compile, the second one accepts the
    URL.  Skipping the bad pattern and testing the rest, as the
    specification words it, finds the match; [IsUrlInLazyLoadList] logs the
    error and answers [false] without testing the second pattern. *)
Lemma malformed_pattern_ends_scan :
  RegExp steady_host "*" = None
  ∧ accepts steady_host "https://example.com/app/a.png" ".*\.png$"
  ∧ spec_lazy_match steady_host "https://example.com/app/a.png" ["*"; ".*\.png$"] = true
  ∧ IsUrlInLazyLoadList steady_host "https://example.com/app/a.png"
      (Some ["*"; ".*\.png$"]) empty_state
    = (Ret false,
       record (EvConsole LvError (LogLazyMatchError (SyntaxError "*"))) empty_state).
Proof.
  split_and!.
  - reflexivity.
  - eexists. split; [reflexivity | vm_compute; reflexivity].
  - vm_compute. reflexivity.
  - vm_compute. reflexivity.
Qed.

(** C4: a miss on [a.png] while the stored lazy-load list holds a pattern
    that accepts it, behind a pattern that does not compile: the network
    response is returned but not stored. *)
Lemma lazy_match_behind_malformed_pattern_not_stored :
  stored_lazy_list steady_host broken_lazy_list = Some ["*"; ".*\.png$"]
  ∧ accepts steady_host (rq_url a_png) ".*\.png$"
  ∧ lookup_entry (generation "2") (rq_url a_png) broken_lazy_list = None
  ∧ (HandleFetch steady_host a_png false broken_lazy_list).1
    = Ret (fetched "https://example.com/app/a.png")
  ∧ lookup_entry (generation "2") (rq_url a_png)
      (HandleFetch steady_host a_png false broken_lazy_list).2 = None.
Proof.
  split_and!.
  - reflexivity.
  - eexists. split; [reflexivity | vm_compute; reflexivity].
  - vm_compute. reflexivity.
  - vm_compute. reflexivity.
  - vm_compute. reflexivity.
Qed.

(** C8: the manifest lists [index.html] and the open tab shows it.  A main
    page URL is found, yet it is not put in front of the list a second
    time: the check fetches [./], [index.html] and [a.js] once each. *)
Lemma listed_main_page_not_prepended :
  main_page index_host = "index.html"
  ∧ spec_populate_list index_host manifest_with_index
    = ["index.html"; "./"; "index.html"; "a.js"]
  ∧ issued index_host (populate_list index_host manifest_with_index)
    = [app_url ""; app_url "index.html"; app_url "a.js"]
  ∧ fq_url <$> fetches (trace (UpdateCheck index_host true empty_state).2)
    = [manifest_location; app_url ""; app_url "index.html"; app_url "a.js"]
  ∧ populate_list index_host manifest_with_index
    ≠ spec_populate_list index_host manifest_with_index.
Proof.
  split_and!.
  - vm_compute. reflexivity.
  - vm_compute. reflexivity.
  - vm_compute. reflexivity.
  - vm_compute. reflexivity.
  - vm_compute. discriminate.
Qed.

(** * Further properties of the worker *)

(** ** Strings *)

Lemma prefix_app (a b : string) : String.prefix a (a +:+ b) = true.
Proof.
  induction a as [|c a IH]; simpl.
  - by destruct b.
  - destruct (Ascii.ascii_dec c c); [exact IH | done].
Qed.

Lemma string_app_assoc (a b c : string) : (a +:+ b) +:+ c = a +:+ (b +:+ c).
Proof.
  induction a as [|x a IH]; [reflexivity|].
  change (String x ((a +:+ b) +:+ c) = String x (a +:+ (b +:+ c))). by rewrite IH.
Qed.

Lemma GetCacheVersionName_listed h version :
  startsWith (GetCacheVersionName h version) (GetCacheBaseName h) = true.
Proof. unfold startsWith, GetCacheVersionName. apply prefix_app. Qed.

(** ** Generation names *)

Lemma elem_of_available h n s :
  n ∈ available h s ↔ n ∈ cache_names s ∧ startsWith n (GetCacheBaseName h) = true.
Proof. unfold available. by rewrite !list_elem_of_In, filter_In. Qed.

(** X1. A cache named by [GetCacheVersionName] exists exactly when
    [GetAvailableCacheNames] lists it, and two versions never share a
    name. *)
Theorem versioned_generation_listed h version s :
  (has_cache (GetCacheVersionName h version) s = true
   ↔ GetCacheVersionName h version ∈ available h s)
  ∧ (∀ version', GetCacheVersionName h version = GetCacheVersionName h version' →
                 version = version').
Proof.
  split.
  - rewrite elem_of_available. unfold has_cache. rewrite bool_decide_eq_true.
    pose proof (GetCacheVersionName_listed h version). tauto.
  - unfold GetCacheVersionName. intros version' Heq.
    by do 2 apply (inj (String.app _)) in Heq.
Qed.

(** X2. The listing goes by name prefix, so the worker of a scope also
    lists every generation of a scope nested inside its own. *)
Theorem nested_scope_generation_listed h inner suffix version s :
  scope inner = scope h +:+ suffix →
  GetCacheVersionName inner version ∈ cache_names s →
  GetCacheVersionName inner version ∈ available h s.
Proof.
  intros Hscope Hin. apply elem_of_available. split; [exact Hin|].
  unfold startsWith, GetCacheVersionName, GetCacheBaseName. rewrite Hscope.
  rewrite !string_app_assoc.
  rewrite <- (string_app_assoc CACHE_NAME_PREFIX "-" (scope h +:+ _)).
  rewrite <- (string_app_assoc (CACHE_NAME_PREFIX +:+ "-") (scope h)).
  rewrite (string_app_assoc CACHE_NAME_PREFIX "-" (scope h)).
  apply prefix_app.
Qed.

Lemma nested_scope_generation_listed_witness :
  GetCacheVersionName steady_host "1" ∈ available root_host two_generations.
Proof.
  apply (nested_scope_generation_listed root_host steady_host "app/" "1" two_generations).
  - reflexivity.
  - vm_compute. apply list_elem_of_here.
Defined.

(** ** The main page URL *)

Lemma main_page_loop_shape h (cs : list Client) :
  main_page_loop h cs ≠ "/" ∧ startsWith (main_page_loop h cs) "?" = false.
Proof.
  induction cs as [|c cs IH]; [by split|].
  cbn [main_page_loop]. fold (scope_relative h (c_url c)).
  destruct (String.eqb (scope_relative h (c_url c)) "") eqn:He; [exact IH|].
  destruct (String.eqb (scope_relative h (c_url c)) "/") eqn:Hs; [exact IH|].
  cbn [negb andb]. apply String.eqb_neq in He, Hs.
  destruct (startsWith (scope_relative h (c_url c)) "?") eqn:Hq.
  - split; [|reflexivity].
    destruct (scope_relative h (c_url c)); [done | discriminate].
  - by split.
Qed.

(** X3. [GetMainPageUrl] never answers ["/"] and never a bare query
    string: a URL that starts with [?] comes back with [/] in front. *)
Theorem main_page_never_root_or_query h s :
  ∃ url, GetMainPageUrl h s = (Ret url, s)
         ∧ url ≠ "/" ∧ startsWith url "?" = false.
Proof.
  exists (main_page h). split; [reflexivity|]. apply main_page_loop_shape.
Qed.

(** X4. [GetMainPageUrl] answers [""] exactly when every window client,
    controlled or not, shows the scope root. *)
Theorem main_page_empty_iff h :
  main_page h = "" ↔ Forall (at_root h) (matching_clients true (clients h)).
Proof.
  unfold main_page. induction (matching_clients true (clients h)) as [|c cs IH].
  - split; [intros _; apply Forall_nil_2 | done].
  - cbn [main_page_loop]. fold (scope_relative h (c_url c)).
    rewrite Forall_cons. unfold at_root at 1.
    destruct (String.eqb (scope_relative h (c_url c)) "") eqn:He.
    { apply String.eqb_eq in He. rewrite IH. tauto. }
    destruct (String.eqb (scope_relative h (c_url c)) "/") eqn:Hs.
    { apply String.eqb_eq in Hs. rewrite IH. tauto. }
    cbn [negb andb]. apply String.eqb_neq in He, Hs.
    split; [|tauto].
    destruct (startsWith (scope_relative h (c_url c)) "?"); [discriminate | done].
Qed.

(** X5. The main page URL comes from the first window client that does
    not show the scope root: its URL relative to the scope, or its whole
    URL when it lies outside the scope, with [/] put in front of a bare
    query string. *)
Theorem main_page_first_window h (pre : list Client) c post :
  matching_clients true (clients h) = pre ++ c :: post →
  Forall (at_root h) pre → ¬ at_root h c →
  main_page h
  = if startsWith (scope_relative h (c_url c)) "?"
    then "/" +:+ scope_relative h (c_url c)
    else scope_relative h (c_url c).
Proof.
  intros Hcs Hpre Hc. unfold main_page. rewrite Hcs. clear Hcs.
  induction Hpre as [|d pre Hd _ IH].
  - cbn [app main_page_loop]. fold (scope_relative h (c_url c)).
    unfold at_root in Hc.
    destruct (String.eqb (scope_relative h (c_url c)) "") eqn:He.
    { apply String.eqb_eq in He. tauto. }
    destruct (String.eqb (scope_relative h (c_url c)) "/") eqn:Hs.
    { apply String.eqb_eq in Hs. tauto. }
    reflexivity.
  - cbn [app main_page_loop]. fold (scope_relative h (c_url d)).
    destruct Hd as [Hd|Hd]; rewrite Hd; exact IH.
Qed.

Lemma main_page_first_window_witness :
  main_page mixed_host = "https://example.com/other/page.html".
Proof.
  apply (main_page_first_window mixed_host
           [mkClient "https://example.com/app/" TWindow true]
           (mkClient "https://example.com/other/page.html" TWindow false)
           [mkClient "https://example.com/app/index.html" TWindow true]).
  - reflexivity.
  - apply Forall_singleton. left. reflexivity.
  - intros [H|H]; vm_compute in H; discriminate.
Defined.

(** X6. When the manifest's file list has no duplicates and does not
    list ["./"], neither has the list handed to the populator: no URL is
    fetched twice. *)
Theorem unshift_entry_pages_NoDup mainPageUrl (fileList : list string) :
  NoDup ("./" :: fileList) → NoDup (unshift_entry_pages mainPageUrl fileList).
Proof.
  intros Hnd. unfold unshift_entry_pages.
  destruct (negb (String.eqb mainPageUrl "")); [|exact Hnd]. cbn [andb].
  destruct (bool_decide (mainPageUrl ∈ "./" :: fileList)) eqn:Hin; [exact Hnd|].
  apply bool_decide_eq_false in Hin. by apply NoDup_cons.
Qed.

Lemma unshift_entry_pages_NoDup_witness :
  NoDup (unshift_entry_pages "index.html" ["index.html"; "a.js"]).
Proof.
  apply (unshift_entry_pages_NoDup "index.html" ["index.html"; "a.js"]).
  compute_done.
Defined.

(** ** More on generation selection *)

(** The two ways [GetCacheNameToUse] ends: it keeps the oldest generation
    and the state, or it deletes all but the last listed one. *)
Lemma GetCacheNameToUse_cases h (names : list string) nav s :
  GetCacheNameToUse h names nav s = (Ret (head names), s)
  ∨ (length names ≠ 1
     ∧ GetCacheNameToUse h names nav s
       = (Ret (last names),
          without (removelast names) s
            (EvConsole LvLog LogUpgrading :: (EvCacheDelete <$> removelast names)))).
Proof.
  destruct (delete_all_run (removelast names) (record (EvConsole LvLog LogUpgrading) s))
    as [bs Hdel].
  unfold GetCacheNameToUse.
  destruct (length names =? 1) eqn:Hone; [by left|]. apply Nat.eqb_neq in Hone.
  destruct nav; [|by left]. cbn [negb orb].
  unfold clients_matchAll. unfold_monad.
  destruct (1 <? length (matching_clients false (clients h))); [by left|].
  right. split; [exact Hone|].
  rewrite Hdel, Promise_all_resolved. unfold without. simpl. by rewrite <- app_assoc.
Qed.

Lemma assoc_filter_name (P : string → Prop) `{∀ n, Decision (P n)} name
    (cs : list (string * gmap string Response)) :
  assoc name (filter (λ c, P c.1) cs) = if decide (P name) then assoc name cs else None.
Proof.
  induction cs as [|c cs IH]; [by case_decide|].
  rewrite filter_cons. simpl.
  destruct (decide (P c.1)) as [Hc|Hc]; simpl.
  - destruct (decide (c.1 = name)) as [<-|Hn]; [by rewrite decide_True | exact IH].
  - destruct (decide (c.1 = name)) as [<-|Hn]; [by rewrite IH, !decide_False | exact IH].
Qed.

Lemma last_not_in_removelast (l : list string) n :
  NoDup l → last l = Some n → n ∉ removelast l.
Proof.
  intros Hnd Hlast. destruct (decide (l = [])) as [->|Hne]; [done|].
  destruct (exists_last Hne) as (old & x & ->).
  rewrite last_snoc in Hlast. injection Hlast as ->.
  rewrite removelast_last. apply NoDup_app in Hnd as (_ & Hdisj & _).
  intros Hin. apply (Hdisj _ Hin). by left.
Qed.

(** X7. On a non-empty list [GetCacheNameToUse] never throws and always
    returns the first or the last name of the list, so [HandleFetch]
    never opens a cache called ["undefined"]. *)
Theorem selection_is_first_or_last h (names : list string) nav s :
  names ≠ [] →
  ∃ n s1, GetCacheNameToUse h names nav s = (Ret (Some n), s1)
          ∧ (head names = Some n ∨ last names = Some n).
Proof.
  intros Hne.
  destruct (GetCacheNameToUse_cases h names nav s) as [Hrun | [_ Hrun]]; rewrite Hrun.
  - destruct names as [|n names]; [done|]. exists n, s. split; [done | by left].
  - destruct (exists_last Hne) as (old & n & ->). rewrite last_snoc.
    eexists n, _. split; [done | by right].
Qed.

Lemma selection_is_first_or_last_witness :
  ∃ n s1, GetCacheNameToUse steady_host (available steady_host two_generations) true
            two_generations = (Ret (Some n), s1)
          ∧ (head (available steady_host two_generations) = Some n
             ∨ last (available steady_host two_generations) = Some n).
Proof.
  apply (selection_is_first_or_last steady_host (available steady_host two_generations)
           true two_generations).
  vm_compute. discriminate.
Defined.

(** X8. Whatever [GetCacheNameToUse] decides, a cache that is not among
    the listed names before the last keeps its content, the key/value
    store is not written and nothing is fetched. *)
Theorem selection_spares_other_caches h (names : list string) nav s n :
  n ∉ removelast names →
  find_cache n (GetCacheNameToUse h names nav s).2 = find_cache n s
  ∧ lazy_store (GetCacheNameToUse h names nav s).2 = lazy_store s
  ∧ n_fetch (GetCacheNameToUse h names nav s).2 = n_fetch s.
Proof.
  intros Hn.
  destruct (GetCacheNameToUse_cases h names nav s) as [Hrun | [_ Hrun]]; rewrite Hrun.
  - done.
  - split_and!; try done. unfold find_cache, without. simpl.
    exact (assoc_filter (λ m, m ∉ removelast names) n _ Hn).
Qed.

Lemma selection_spares_other_caches_witness :
  find_cache (generation "2")
    (GetCacheNameToUse steady_host (available steady_host two_generations) true
       two_generations).2
  = find_cache (generation "2") two_generations
  ∧ lazy_store (GetCacheNameToUse steady_host (available steady_host two_generations) true
                  two_generations).2
    = lazy_store two_generations
  ∧ n_fetch (GetCacheNameToUse steady_host (available steady_host two_generations) true
               two_generations).2
    = n_fetch two_generations.
Proof.
  apply (selection_spares_other_caches steady_host (available steady_host two_generations)
           true two_generations (generation "2")).
  vm_compute. intros Hin. apply list_elem_of_singleton in Hin. discriminate.
Defined.

(** ** More on the request router *)

Lemma HandleFetch_no_generation h rq nav s :
  available h s = [] → HandleFetch h rq nav s = fetch h (passthrough rq) s.
Proof.
  intros Hnone. unfold HandleFetch.
  mrun (GetAvailableCacheNames_run h s). by rewrite Hnone.
Qed.

Lemma HandleFetch_selected h rq nav s sel s1 :
  available h s ≠ [] →
  GetCacheNameToUse h (available h s) nav s = (Ret sel, s1) →
  HandleFetch h rq nav s
  = serve h rq (name_to_string sel) (caches_open (name_to_string sel) s1).2.
Proof.
  intros Hav Hsel. unfold HandleFetch.
  mrun (GetAvailableCacheNames_run h s).
  destruct (available h s) as [|n names] eqn:Hnames; [done|]. cbn [length Nat.eqb].
  mrun Hsel. mrun (caches_open_run (name_to_string sel) s1). reflexivity.
Qed.

Lemma IsUrlInLazyLoadList_run h url lazy s :
  ∃ b evs, IsUrlInLazyLoadList h url lazy s = (Ret b, record_all evs s)
           ∧ fetches evs = [].
Proof.
  destruct lazy as [l|].
  - destruct (IsUrlInLazyLoadList_cases h url l s)
      as [(pre & p & post & _ & _ & _ & Hrun)
         |[(pre & p & post & _ & _ & _ & Hrun)
          |[_ Hrun]]]; rewrite Hrun.
    + exists true, []. by rewrite record_all_nil.
    + by eexists false, [_].
    + exists false, []. by rewrite record_all_nil.
  - exists false, []. by rewrite record_all_nil.
Qed.

(** The ways [serve] ends: a hit, a miss whose fetch is rejected, or a
    miss answered by the network, stored or not. *)
Lemma serve_cases h rq name s2 :
  (∃ r, lookup_entry name (rq_url rq) s2 = Some r ∧ serve h rq name s2 = (Ret r, s2))
  ∨ (lookup_entry name (rq_url rq) s2 = None
     ∧ network h (n_fetch s2) (passthrough rq) = None
     ∧ serve h rq name s2
       = (Throw (NetworkError (rq_url rq)), (fetch h (passthrough rq) s2).2))
  ∨ (lookup_entry name (rq_url rq) s2 = None
     ∧ ∃ resp b evs,
         network h (n_fetch s2) (passthrough rq) = Some resp
         ∧ fetches evs = []
         ∧ IsUrlInLazyLoadList h (rq_url rq) (stored_lazy_list h s2)
             (fetch h (passthrough rq) s2).2
           = (Ret b, record_all evs (fetch h (passthrough rq) s2).2)
         ∧ serve h rq name s2
           = (Ret resp,
              if b
              then if put_ok h name (rq_url rq)
                   then record (EvCachePut name (rq_url rq) true)
                          (set_caches (store_entry name (rq_url rq) resp)
                             (record_all evs (fetch h (passthrough rq) s2).2))
                   else record_all
                          [EvCachePut name (rq_url rq) false;
                           EvConsole LvWarn
                             (LogLazyPutFailed (rq_url rq) (PutError name (rq_url rq)))]
                          (record_all evs (fetch h (passthrough rq) s2).2)
              else record_all evs (fetch h (passthrough rq) s2).2)).
Proof.
  unfold serve. mrun (cache_match_run name rq s2).
  destruct (lookup_entry name (rq_url rq) s2) as [r|] eqn:Hlook.
  { left. by exists r. }
  right. fold (passthrough rq).
  remember (fetch h (passthrough rq) s2) as fr eqn:Hfr.
  destruct fr as [o s3].
  assert (Hstart : start (fetch h (passthrough rq)) s2 = (Ret o, s3)).
  { apply run_start. by rewrite <- Hfr. }
  mrun Hstart.
  assert (Hstored : stored_lazy_list h s3 = stored_lazy_list h s2).
  { unfold fetch in Hfr. unfold stored_lazy_list.
    destruct (network h (n_fetch s2) (passthrough rq)); by injection Hfr as _ ->. }
  mrun (run_start _ _ _ _ (ReadLazyLoadListFromStorage_run h s3)).
  unfold fetch in Hfr.
  destruct (network h (n_fetch s2) (passthrough rq)) as [resp|] eqn:Hnet.
  - right. split; [done|]. injection Hfr as -> Hs3.
    mrun (await_run resp s3). mrun (await_run (stored_lazy_list h s3) s3).
    rewrite Hstored.
    destruct (IsUrlInLazyLoadList_run h (rq_url rq) (stored_lazy_list h s2) s3)
      as (b & evs & Hscan & Hevs).
    exists resp, b, evs. simpl snd. split_and!; [done | done | exact Hscan |].
    mrun Hscan. destruct b.
    + unfold_monad. rewrite cache_put_run.
      destruct (put_ok h name (rq_url rq)); simpl.
      * reflexivity.
      * unfold record_all, record. simpl. by rewrite <- !app_assoc.
    + reflexivity.
  - left. split_and!; [done | done |]. injection Hfr as -> Hs3. simpl snd.
    unfold await at 1. unfold_monad. reflexivity.
Qed.

(** [serve] leaves the list of caches, the key/value store and every
    cache but its own alone, and fetches at most once. *)
Lemma serve_frame h rq name s2 :
  cache_names (serve h rq name s2).2 = cache_names s2
  ∧ lazy_store (serve h rq name s2).2 = lazy_store s2
  ∧ (∀ n, n ≠ name → find_cache n (serve h rq name s2).2 = find_cache n s2)
  ∧ (fetches (trace (serve h rq name s2).2) = fetches (trace s2)
     ∨ fetches (trace (serve h rq name s2).2) = fetches (trace s2) ++ [passthrough rq]).
Proof.
  assert (Hfetch : caches (fetch h (passthrough rq) s2).2 = caches s2
                   ∧ lazy_store (fetch h (passthrough rq) s2).2 = lazy_store s2
                   ∧ fetches (trace (fetch h (passthrough rq) s2).2)
                     = fetches (trace s2) ++ [passthrough rq]).
  { unfold fetch. destruct (network h (n_fetch s2) (passthrough rq)); simpl;
      by rewrite fetches_app. }
  destruct Hfetch as (Hc & Hl & Hf).
  destruct (serve_cases h rq name s2)
    as [(r & _ & Hrun) | [(_ & _ & Hrun) | (_ & resp & b & evs & _ & Hevs & _ & Hrun)]];
    rewrite Hrun; clear Hrun; cbn [snd].
  - split_and!; try done. by left.
  - remember (fetch h (passthrough rq) s2).2 as s3. split_and!.
    + unfold cache_names. by rewrite Hc.
    + exact Hl.
    + intros n _. unfold find_cache. by rewrite Hc.
    + by right.
  - remember (fetch h (passthrough rq) s2).2 as s3.
    assert (Hquiet : ∀ evs', fetches evs' = [] →
              fetches ((trace s3 ++ evs) ++ evs') = fetches (trace s2) ++ [passthrough rq]).
    { intros evs' Hevs'. by rewrite !fetches_app, Hevs, Hevs', Hf, !app_nil_r. }
    destruct b; [destruct (put_ok h name (rq_url rq))|].
    + split_and!.
      * unfold cache_names. simpl. by rewrite names_put, Hc.
      * exact Hl.
      * intros n Hne. unfold find_cache. simpl. rewrite assoc_put, decide_False by done.
        by rewrite Hc.
      * right. simpl. by apply Hquiet.
    + split_and!.
      * unfold cache_names. simpl. by rewrite Hc.
      * exact Hl.
      * intros n _. unfold find_cache. simpl. by rewrite Hc.
      * right. simpl. by apply Hquiet.
    + split_and!.
      * unfold cache_names. simpl. by rewrite Hc.
      * exact Hl.
      * intros n _. unfold find_cache. simpl. by rewrite Hc.
      * right. simpl. rewrite <- (app_nil_r (trace s3 ++ evs)). by apply Hquiet.
Qed.

Lemma lookup_entry_without gone s evs n k r :
  lookup_entry n k (without gone s evs) = Some r → lookup_entry n k s = Some r.
Proof.
  unfold lookup_entry, find_cache, without. simpl.
  pose proof (assoc_filter_name (λ m, m ∉ gone) n (caches s)) as Hf. rewrite Hf.
  by case_decide.
Qed.

(** With distinct cache names, the generation [GetCacheNameToUse] selects
    still exists once it has returned. *)
Lemma selected_generation_exists h nav s :
  NoDup (cache_names s) → available h s ≠ [] →
  ∃ n s1,
    GetCacheNameToUse h (available h s) nav s = (Ret (Some n), s1)
    ∧ has_cache n s1 = true
    ∧ (∀ m, m ∈ cache_names s1 → m ∈ cache_names s)
    ∧ lazy_store s1 = lazy_store s
    ∧ fetches (trace s1) = fetches (trace s).
Proof.
  intros Hnd Hne.
  assert (Hsub : ∀ m, m ∈ available h s → m ∈ cache_names s).
  { intros m Hm. by apply elem_of_available in Hm as [? _]. }
  destruct (GetCacheNameToUse_cases h (available h s) nav s) as [Hrun | [_ Hrun]];
    rewrite Hrun.
  - destruct (available h s) as [|n names] eqn:Hav; [done|].
    exists n, s. split_and!; try done.
    unfold has_cache. apply bool_decide_eq_true, Hsub. by left.
  - destruct (exists_last Hne) as (old & n & Hsplit).
    assert (Hlast : last (available h s) = Some n) by by rewrite Hsplit, last_snoc.
    rewrite Hlast. eexists n, _. split_and!; try done.
    + unfold has_cache, cache_names, without. simpl.
      pose proof (names_filter (λ m, m ∉ removelast (available h s)) (caches s)) as Hnf.
      rewrite Hnf. apply bool_decide_eq_true, list_elem_of_filter. split.
      * apply last_not_in_removelast; [by apply NoDup_bfilter | done].
      * apply Hsub. rewrite Hsplit, elem_of_app. right. by left.
    + intros m. unfold cache_names, without. simpl.
      pose proof (names_filter (λ m, m ∉ removelast (available h s)) (caches s)) as Hnf.
      rewrite Hnf, list_elem_of_filter. tauto.
    + unfold without. simpl. rewrite fetches_app, fetches_console_cons, fetches_deletes.
      by rewrite app_nil_r.
Qed.

(** X9. With distinct cache names [HandleFetch] never creates a cache:
    every cache that exists afterwards existed before.  It never writes
    the key/value store, and it hands at most one request to [fetch], the
    intercepted one. *)
Theorem routing_creates_no_cache h rq nav s :
  NoDup (cache_names s) →
  (∀ n, n ∈ cache_names (HandleFetch h rq nav s).2 → n ∈ cache_names s)
  ∧ lazy_store (HandleFetch h rq nav s).2 = lazy_store s
  ∧ (fetches (trace (HandleFetch h rq nav s).2) = fetches (trace s)
     ∨ fetches (trace (HandleFetch h rq nav s).2) = fetches (trace s) ++ [passthrough rq]).
Proof.
  intros Hnd. destruct (decide (available h s = [])) as [Hnone|Hsome].
  - rewrite (HandleFetch_no_generation h rq nav s Hnone). unfold fetch.
    destruct (network h (n_fetch s) (passthrough rq)); simpl;
      (split_and!; [done | done | right; by rewrite fetches_app]).
  - destruct (selected_generation_exists h nav s Hnd Hsome)
      as (n & s1 & Hsel & Hhas & Hsub & Hlazy & Hf).
    rewrite (HandleFetch_selected h rq nav s _ _ Hsome Hsel).
    change (name_to_string (Some n)) with n.
    destruct (serve_frame h rq n (caches_open n s1).2) as (Hn & Hl & _ & Hfs).
    assert (Hopen : cache_names (caches_open n s1).2 = cache_names s1
                    ∧ lazy_store (caches_open n s1).2 = lazy_store s1
                    ∧ fetches (trace (caches_open n s1).2) = fetches (trace s1)).
    { rewrite cache_names_open. unfold caches_open. rewrite Hhas. simpl.
      by rewrite fetches_app, app_nil_r. }
    destruct Hopen as (Hon & Hol & Hof).
    split_and!.
    + intros m. rewrite Hn, Hon. apply Hsub.
    + by rewrite Hl, Hol.
    + rewrite Hof, Hf in Hfs. exact Hfs.
Qed.

Lemma routing_creates_no_cache_witness :
  (∀ n, n ∈ cache_names (HandleFetch steady_host a_png true two_generations).2 →
        n ∈ cache_names two_generations)
  ∧ lazy_store (HandleFetch steady_host a_png true two_generations).2
    = lazy_store two_generations
  ∧ (fetches (trace (HandleFetch steady_host a_png true two_generations).2)
     = fetches (trace two_generations)
     ∨ fetches (trace (HandleFetch steady_host a_png true two_generations).2)
       = fetches (trace two_generations) ++ [passthrough a_png]).
Proof.
  apply (routing_creates_no_cache steady_host a_png true two_generations).
  compute_done.
Defined.

(** X10. A worker without [localforage] never stores anything while
    routing: every entry a cache holds after [HandleFetch] was there
    before. *)
Theorem no_localforage_no_lazy_caching h rq nav s n k r :
  has_localforage h = false →
  lookup_entry n k (HandleFetch h rq nav s).2 = Some r →
  lookup_entry n k s = Some r.
Proof.
  intros Hbare. destruct (decide (available h s = [])) as [Hnone|Hsome].
  - rewrite (HandleFetch_no_generation h rq nav s Hnone). unfold fetch.
    by destruct (network h (n_fetch s) (passthrough rq)).
  - destruct (GetCacheNameToUse_frame h (available h s) nav s)
      as (sel & s1 & _ & Hsel & _).
    rewrite (HandleFetch_selected h rq nav s _ _ Hsome Hsel).
    set (m := name_to_string sel).
    assert (Hs1 : lookup_entry n k s1 = Some r → lookup_entry n k s = Some r).
    { destruct (GetCacheNameToUse_cases h (available h s) nav s) as [Hrun | [_ Hrun]];
        rewrite Hrun in Hsel; injection Hsel as _ <-; [done|].
      apply lookup_entry_without. }
    intros Hlook. apply Hs1. rewrite <- (lookup_entry_open m n k s1).
    remember (caches_open m s1).2 as s2.
    assert (Hc : caches (serve h rq m s2).2 = caches s2); [|].
    { destruct (serve_cases h rq m s2)
        as [(r' & _ & Hrun) | [(_ & _ & Hrun) | (_ & resp & b & evs & _ & _ & Hscan & Hrun)]];
        rewrite Hrun; cbn [snd].
      - done.
      - unfold fetch. by destruct (network h (n_fetch s2) (passthrough rq)).
      - assert (Hfc : caches (fetch h (passthrough rq) s2).2 = caches s2).
        { unfold fetch. by destruct (network h (n_fetch s2) (passthrough rq)). }
        unfold stored_lazy_list in Hscan. rewrite Hbare in Hscan.
        cbv [IsUrlInLazyLoadList lazy_loop try_catch ret] in Hscan.
        injection Hscan as <- _. exact Hfc. }
    unfold lookup_entry, find_cache in Hlook |- *. by rewrite <- Hc.
Qed.

Lemma no_localforage_no_lazy_caching_witness :
  lookup_entry (generation "1") "https://example.com/app/a.js" two_generations
  = Some stored_a_js.
Proof.
  apply (no_localforage_no_lazy_caching bare_host a_png false two_generations
           (generation "1") "https://example.com/app/a.js" stored_a_js).
  - reflexivity.
  - vm_compute. reflexivity.
Defined.

Lemma GetCacheNameToUse_subresource h (names : list string) s :
  GetCacheNameToUse h names false s = (Ret (head names), s).
Proof. unfold GetCacheNameToUse. by rewrite orb_true_r. Qed.

(** X11. Lazy caching round trip.  When a subresource request misses in
    the oldest generation, the network answers, the lazy-load list accepts
    the URL and the put succeeds, the same request asked again is answered
    with that response from the generation, without a fetch. *)
Theorem lazily_stored_response_hits_next h rq s name resp (pre : list string) p post :
  head (available h s) = Some name →
  lookup_entry name (rq_url rq) s = None →
  network h (n_fetch s) (passthrough rq) = Some resp →
  stored_lazy_list h s = Some (pre ++ p :: post) →
  Forall (rejects h (rq_url rq)) pre → accepts h (rq_url rq) p →
  put_ok h name (rq_url rq) = true →
  ∃ s' s'',
    HandleFetch h rq false s = (Ret resp, s')
    ∧ HandleFetch h rq false s' = (Ret resp, s'')
    ∧ fetches (trace s') = fetches (trace s) ++ [passthrough rq]
    ∧ fetches (trace s'') = fetches (trace s').
Proof.
  intros Hhead Hmiss Hnet Hlist Hpre Hp Hput.
  assert (Hsome : available h s ≠ []) by (by destruct (available h s)).
  assert (Hhas : has_cache name s = true).
  { unfold has_cache. apply bool_decide_eq_true.
    apply (proj1 (elem_of_available h name s)).
    destruct (available h s) as [|n l]; [done|]. injection Hhead as ->. by left. }
  pose proof (GetCacheNameToUse_subresource h (available h s) s) as Hsel.
  rewrite Hhead in Hsel.
  rewrite (HandleFetch_selected h rq false s _ _ Hsome Hsel).
  change (name_to_string (Some name)) with name.
  remember (caches_open name s).2 as s2 eqn:Hs2.
  assert (Hopen : cache_names s2 = cache_names s ∧ lazy_store s2 = lazy_store s
                  ∧ n_fetch s2 = n_fetch s
                  ∧ fetches (trace s2) = fetches (trace s)
                  ∧ find_cache name s2 = Some (default ∅ (find_cache name s))).
  { rewrite Hs2, cache_names_open, find_cache_open, decide_True by done.
    unfold caches_open. rewrite Hhas. simpl. by rewrite fetches_app, app_nil_r. }
  destruct Hopen as (Hnames2 & Hlazy2 & Hnf2 & Hf2 & Hfind2).
  assert (Hmiss2 : lookup_entry name (rq_url rq) s2 = None)
    by (by rewrite Hs2, lookup_entry_open).
  assert (Hstored2 : stored_lazy_list h s2 = Some (pre ++ p :: post)).
  { unfold stored_lazy_list in *. by rewrite Hlazy2. }
  destruct (serve_frame h rq name s2) as (Hnames' & _ & _ & _).
  destruct (serve_cases h rq name s2)
    as [(r' & Hhit & _) | [(_ & Hnone & _) | (_ & resp' & b & evs & Hnet' & Hevs & Hscan & Hrun)]].
  { congruence. }
  { rewrite Hnf2 in Hnone. congruence. }
  rewrite Hnf2, Hnet in Hnet'. injection Hnet' as <-.
  rewrite Hstored2 in Hscan. unfold IsUrlInLazyLoadList in Hscan.
  rewrite (run_try _ _ _ _ _ (lazy_loop_first_hit h (rq_url rq) pre p post _ Hpre Hp)) in Hscan.
  injection Hscan as <- Hsame. rewrite <- Hsame, Hput in Hrun.
  rewrite Hrun in Hnames'. cbn [snd] in Hnames'.
  remember (record (EvCachePut name (rq_url rq) true)
              (set_caches (store_entry name (rq_url rq) resp)
                 (fetch h (passthrough rq) s2).2)) as s' eqn:Hs'.
  assert (Hstate : lookup_entry name (rq_url rq) s' = Some resp
                   ∧ fetches (trace s') = fetches (trace s) ++ [passthrough rq]).
  { rewrite Hs'. unfold lookup_entry, find_cache, fetch.
    destruct (network h (n_fetch s2) (passthrough rq)); simpl;
      rewrite assoc_put, decide_True by done; unfold find_cache in Hfind2;
      rewrite Hfind2; simpl; rewrite lookup_insert_eq, !fetches_app, Hf2;
      by rewrite app_nil_r. }
  destruct Hstate as [Hstored Hfetched].
  assert (Hav' : available h s' = available h s).
  { unfold available. by rewrite Hnames', Hnames2. }
  assert (Hsome' : available h s' ≠ []) by by rewrite Hav'.
  pose proof (GetCacheNameToUse_subresource h (available h s') s') as Hsel'.
  rewrite Hav' in Hsel' at 2. rewrite Hhead in Hsel'.
  exists s', (caches_open name s').2. split_and!.
  - exact Hrun.
  - rewrite (HandleFetch_selected h rq false s' _ _ Hsome' Hsel').
    change (name_to_string (Some name)) with name.
    unfold serve. mrun (cache_match_run name rq (caches_open name s').2).
    by rewrite lookup_entry_open, Hstored.
  - exact Hfetched.
  - unfold caches_open. destruct (has_cache name s'); simpl;
      by rewrite fetches_app, app_nil_r.
Qed.

Lemma lazily_stored_response_hits_next_witness :
  ∃ s' s'',
    HandleFetch steady_host a_png false one_generation
    = (Ret (fetched "https://example.com/app/a.png"), s')
    ∧ HandleFetch steady_host a_png false s'
      = (Ret (fetched "https://example.com/app/a.png"), s'')
    ∧ fetches (trace s') = fetches (trace one_generation) ++ [passthrough a_png]
    ∧ fetches (trace s'') = fetches (trace s').
Proof.
  apply (lazily_stored_response_hits_next steady_host a_png one_generation (generation "1")
           (fetched "https://example.com/app/a.png") [] ".*\.png$" []).
  - vm_compute. reflexivity.
  - vm_compute. reflexivity.
  - vm_compute. reflexivity.
  - reflexivity.
  - apply Forall_nil_2.
  - eexists. split; [reflexivity | vm_compute; reflexivity].
  - reflexivity.
Defined.

(** ** More on the lazy-load list *)

(** X12. When every pattern of the list compiles, [IsUrlInLazyLoadList]
    answers whether some pattern accepts the URL, and logs nothing: on
    such lists the code and the per-pattern reading agree. *)
Theorem lazy_scan_agrees_when_patterns_compile h url (l : list string) s :
  Forall (λ p, is_Some (RegExp h p)) l →
  IsUrlInLazyLoadList h url (Some l) s = (Ret (spec_lazy_match h url l), s).
Proof.
  intros Hall. unfold IsUrlInLazyLoadList. apply run_try.
  induction Hall as [|p l [test Hp] _ IH]; [reflexivity|].
  simpl. rewrite Hp. destruct (test url); [reflexivity | exact IH].
Qed.

Lemma lazy_scan_agrees_when_patterns_compile_witness :
  IsUrlInLazyLoadList steady_host "https://example.com/app/a.png"
    (Some ["\.jpg$"; ".*\.png$"]) empty_state
  = (Ret (spec_lazy_match steady_host "https://example.com/app/a.png" ["\.jpg$"; ".*\.png$"]),
     empty_state).
Proof.
  apply (lazy_scan_agrees_when_patterns_compile steady_host "https://example.com/app/a.png"
           ["\.jpg$"; ".*\.png$"] empty_state).
  repeat apply Forall_cons_2; [by eexists | by eexists | apply Forall_nil_2].
Defined.

(** ** More on the populator *)

Lemma rejected_fetch_in_outcomes h nf (reqs : list FetchReq) e :
  Throw e ∈ fetch_outcomes h nf reqs →
  ∃ i q, reqs !! i = Some q ∧ network h (nf + i) q = None ∧ e = NetworkError (fq_url q).
Proof.
  revert nf. induction reqs as [|q reqs IH]; intros nf Hin; [by apply elem_of_nil in Hin|].
  cbn [fetch_outcomes] in Hin. apply elem_of_cons in Hin as [Hq|Hin].
  - exists 0, q. rewrite Nat.add_0_r. unfold settle in Hq.
    destruct (network h nf q); [discriminate|]. injection Hq as ->. done.
  - destruct (IH _ Hin) as (i & q' & Hq' & Hnet & ->). exists (S i), q'.
    split_and!; [done | | done]. by replace (nf + S i) with (S nf + i) by lia.
Qed.

(** X13. When every entry of the list is a URL and one of the populator's
    fetches is rejected, the populator throws the network error of a
    request that the network rejected.  Every fetch of the list was still
    issued; nothing else happened: no failed response is reported, no cache
    is opened, Cache Storage and the key/value store are as before. *)
Theorem populate_rethrows_network_error h cacheName (fileList urls : list string) bypass s e :
  resolve_all h fileList = Some urls →
  Throw e ∈ populate_outcomes h bypass (n_random s) (n_fetch s) fileList →
  ∃ i q s',
    CreateCacheFromFileList h cacheName fileList bypass s
    = (Throw (NetworkError (fq_url q)), s')
    ∧ file_requests h bypass (n_random s) urls !! i = Some q
    ∧ network h (n_fetch s + i) q = None
    ∧ fq_url q ∈ urls
    ∧ caches s' = caches s ∧ lazy_store s' = lazy_store s
    ∧ trace s' = trace s ++ (EvFetch <$> file_requests h bypass (n_random s) urls).
Proof.
  intros Hurls Hin.
  pose proof (resolve_all_issued h fileList urls Hurls) as Hissued.
  destruct (issue_fetches_run h bypass fileList s)
    as (s0 & Hc0 & Hl0 & Ht0 & [(urls' & _ & Hissue)
                              | (pre & bad & post & urls' & Hsplit & _ & Hbad & _)]);
    cycle 1.
  { exfalso. rewrite Hsplit in Hurls.
    by apply (resolve_all_refused h pre bad post urls Hbad). }
  unfold CreateCacheFromFileList. mrun Hissue.
  destruct (Promise_all_cases (populate_outcomes h bypass (n_random s) (n_fetch s) fileList) s0)
    as [(rs & Hrs & _) | (e' & He' & Hall)].
  { rewrite Hrs in Hin. apply list_elem_of_fmap in Hin as (? & ? & _). discriminate. }
  unfold populate_outcomes in He'. rewrite Hissued in He', Ht0.
  destruct (rejected_fetch_in_outcomes _ _ _ _ He') as (i & q & Hq & Hnet & ->).
  rewrite (run_bind_throw _ _ _ _ _ Hall).
  exists i, q, s0. split_and!; try done.
  rewrite <- (file_requests_urls h bypass (n_random s) urls).
  apply list_elem_of_fmap. exists q. split; [done|]. by apply list_elem_of_lookup_2 in Hq.
Qed.

Lemma populate_rethrows_network_error_witness :
  ∃ i q s',
    CreateCacheFromFileList offline_host (generation "2") ["./"; "a.js"] false empty_state
    = (Throw (NetworkError (fq_url q)), s')
    ∧ file_requests offline_host false (n_random empty_state) [app_url ""; app_url "a.js"] !! i
      = Some q
    ∧ network offline_host (n_fetch empty_state + i) q = None
    ∧ fq_url q ∈ [app_url ""; app_url "a.js"]
    ∧ caches s' = caches empty_state ∧ lazy_store s' = lazy_store empty_state
    ∧ trace s' = trace empty_state
                 ++ (EvFetch <$> file_requests offline_host false (n_random empty_state)
                                   [app_url ""; app_url "a.js"]).
Proof.
  apply (populate_rethrows_network_error offline_host (generation "2") ["./"; "a.js"]
           [app_url ""; app_url "a.js"] false empty_state (NetworkError (app_url ""))).
  - reflexivity.
  - vm_compute. apply list_elem_of_here.
Defined.

(** X14. When every entry of the list is a URL and every fetch and every
    put succeeds, the populator returns and the named cache exists: it
    holds, for every file of the list, the response fetched for it, under
    the URL the file's string resolves to, whatever that URL held before.
    Every other cache and the key/value store are as before. *)
Theorem populate_adds_entries h cacheName (fileList urls : list string) bypass s
    (rs : list Response) :
  resolve_all h fileList = Some urls →
  populate_outcomes h bypass (n_random s) (n_fetch s) fileList = Ret <$> rs →
  Forall (λ r, r_ok r = true) rs →
  (∀ url, url ∈ urls → put_ok h cacheName url = true) →
  ∃ s',
    CreateCacheFromFileList h cacheName fileList bypass s = (Ret (), s')
    ∧ has_cache cacheName s' = true
    ∧ (∀ f, f ∈ fileList →
         ∃ url resp, resolve h f = Some url ∧ (url, resp) ∈ zip urls rs
                     ∧ lookup_entry cacheName url s' = Some resp)
    ∧ (∀ n, n ≠ cacheName → find_cache n s' = find_cache n s)
    ∧ lazy_store s' = lazy_store s.
Proof.
  intros Hurls Hrs Hok Hputs.
  pose proof (zip_keys _ _ _ _ _ _ _ Hurls Hrs) as Hkeys.
  destruct (CreateCacheFromFileList_fetch_phase h cacheName fileList bypass s)
    as (s1 & entries & Hc & Hl & _
        & [(e & _ & Hnot) | (urls' & rs' & _ & Hrs' & _ & Hrun)]).
  { destruct Hnot. by exists urls, rs. }
  rewrite Hrs in Hrs'. apply Ret_fmap_inj in Hrs' as <-.
  destruct (write_entries_cases h cacheName fileList urls rs s1 Hurls)
    as (s' & evs & Hl' & _ & _ & Hother
        & [(_ & Hw & _ & c' & Hfind & Hout & Hin) | (key & puts & Hkey & Hput & _)]);
    cycle 1.
  { rewrite Hkeys in Hkey. specialize (Hputs key Hkey). congruence. }
  rewrite Hkeys in Hin.
  assert (Hlook : ∀ url, lookup_entry cacheName url s' = c' !! url).
  { intros url. unfold lookup_entry. by rewrite Hfind. }
  exists s'. split_and!.
  - by rewrite Hrun.
  - apply has_cache_find. by rewrite Hfind.
  - intros f Hfile.
    destruct (proj1 (resolve_all_elem h fileList urls Hurls) f Hfile) as (url & Hurl & Hmem).
    destruct (Hin url Hmem) as (resp & Hzip & Hentry).
    exists url, resp. split_and!; [done | done |]. by rewrite Hlook.
  - intros n Hn. rewrite (Hother n Hn). unfold find_cache. by rewrite Hc.
  - by rewrite Hl'.
Qed.

Lemma populate_adds_entries_witness :
  ∃ s',
    CreateCacheFromFileList steady_host (generation "1") ["./"; "b.js"] true one_generation
    = (Ret (), s')
    ∧ has_cache (generation "1") s' = true
    ∧ (∀ f, f ∈ ["./"; "b.js"] →
         ∃ url resp,
           resolve steady_host f = Some url
           ∧ (url, resp) ∈ zip [app_url ""; app_url "b.js"]
                               [fetched (app_url ""); fetched (app_url "b.js")]
           ∧ lookup_entry (generation "1") url s' = Some resp)
    ∧ (∀ n, n ≠ generation "1" → find_cache n s' = find_cache n one_generation)
    ∧ lazy_store s' = lazy_store one_generation.
Proof.
  apply (populate_adds_entries steady_host (generation "1") ["./"; "b.js"]
           [app_url ""; app_url "b.js"] true one_generation
           [fetched (app_url ""); fetched (app_url "b.js")]).
  - reflexivity.
  - vm_compute. reflexivity.
  - repeat constructor.
  - intros url _. reflexivity.
Defined.

(** ** More on the update check *)

Lemma WriteLazyLoadList_run h (lazyLoadList : option (list string)) s :
  match lazyLoadList with
  | Some l => WriteLazyLoadListToStorage h l
  | None => ret ()
  end s
  = (Ret (),
     match lazyLoadList with
     | Some l =>
         if has_localforage h
         then record (EvSetItem LAZYLOAD_KEYNAME l)
                (mkState (caches s) (Some l) (n_random s) (n_fetch s) (trace s))
         else s
     | None => s
     end).
Proof.
  destruct lazyLoadList as [l|]; [|reflexivity].
  unfold WriteLazyLoadListToStorage. by destruct (has_localforage h).
Qed.

(** An update check that does not find the generation of the manifest's
    version, step by step: it announces the download, stores the lazy-load
    list, runs the populator and reports how that went. *)
Lemma UpdateCheck_populate_exact h isFirst s murl r data :
  resolve h OFFLINE_DATA_FILE = Some murl →
  network h (n_fetch s) (manifest_request h murl s) = Some r →
  r_ok r = true → r_json r = Some data →
  has_cache (GetCacheVersionName h (m_version data)) s = false →
  UpdateCheck h isFirst s
  = after_populate h (m_version data)
      (CreateCacheFromFileList h (GetCacheVersionName h (m_version data))
         (populate_list h data) (negb isFirst) (before_populate h murl isFirst data s)).
Proof.
  intros Hm Hnet Hok Hjson Hhas.
  set (name := GetCacheVersionName h (m_version data)) in *.
  set (files := populate_list h data).
  assert (Hhead : UpdateCheck h isFirst s
    = try_catch
        (λ s0, (CreateCacheFromFileList h name files (negb isFirst)
                ≫= λ _, IsUpdatePending h
                ≫= λ isUpdatePending : bool,
                     if isUpdatePending
                     then console_log LogUpdateReady ≫= λ _, BroadcastUpdateReady h (m_version data)
                     else console_log LogOfflineReady ≫= λ _, Broadcast h "offline-ready")
               (before_populate h murl isFirst data s))
        (λ err, console_warn (LogUpdateCheckFailed err)) s).
  { unfold UpdateCheck, try_catch. rewrite (manifest_fetch_run h murl s _ Hm). unfold settle.
    rewrite Hnet, Hok. cbn [negb].
    unfold response_json. rewrite Hjson. mrun (eq_refl : ret data (after_manifest h murl s) = _).
    mrun (caches_has_run name (after_manifest h murl s)).
    change (has_cache name (after_manifest h murl s)) with (has_cache name s). rewrite Hhas.
    mrun (GetMainPageUrl_run h (after_manifest h murl s)).
    fold (populate_list h data). fold files.
    unfold console_log at 1.
    mrun (emit_run (EvConsole LvLog (LogCaching (length files))) (after_manifest h murl s)).
    assert (Hannounce :
      (if isFirst then Broadcast h "downloading"
       else BroadcastDownloadingUpdate h (m_version data))
        (record_all [EvConsole LvLog (LogCaching (length files))] (after_manifest h murl s))
      = (Ret (), record_all (EvConsole LvLog (LogCaching (length files))
                             :: posted h (announcement isFirst (m_version data)))
                            (after_manifest h murl s))).
    { unfold announcement, Broadcast, BroadcastDownloadingUpdate.
      destruct isFirst; by rewrite PostBroadcastMessage_run, record_all_app. }
    mrun Hannounce.
    mrun (WriteLazyLoadList_run h (m_lazyLoad data)
            (record_all (EvConsole LvLog (LogCaching (length files))
                         :: posted h (announcement isFirst (m_version data)))
                        (after_manifest h murl s))).
    reflexivity. }
  rewrite Hhead. clear Hhead. unfold try_catch, after_populate.
  destruct (CreateCacheFromFileList h name files (negb isFirst)
              (before_populate h murl isFirst data s)) as [[[]|e] s2] eqn:Hpop.
  - mrun Hpop. mrun (IsUpdatePending_run h s2).
    unfold ready_entry, ready_message.
    destruct (2 <=? length (available h s2)).
    + unfold console_log. mrun (emit_run (EvConsole LvLog LogUpdateReady) s2).
      unfold BroadcastUpdateReady. by rewrite PostBroadcastMessage_run, record_all_app.
    + unfold console_log. mrun (emit_run (EvConsole LvLog LogOfflineReady) s2).
      unfold Broadcast. by rewrite PostBroadcastMessage_run, record_all_app.
  - by rewrite (run_bind_throw _ _ _ _ _ Hpop).
Qed.

Lemma before_populate_frame h murl isFirst data s :
  caches (before_populate h murl isFirst data s) = caches s
  ∧ n_random (before_populate h murl isFirst data s) = S (n_random s)
  ∧ n_fetch (before_populate h murl isFirst data s) = S (n_fetch s)
  ∧ lazy_store (before_populate h murl isFirst data s)
    = match m_lazyLoad data with
      | Some l => if has_localforage h then Some l else lazy_store s
      | None => lazy_store s
      end.
Proof.
  unfold before_populate.
  destruct (m_lazyLoad data); [destruct (has_localforage h)|]; done.
Qed.

(** [UpdateCheck] catches whatever goes wrong inside it. *)
Lemma UpdateCheck_returns h isFirst s : ∃ s', UpdateCheck h isFirst s = (Ret (), s').
Proof.
  destruct (resolve h OFFLINE_DATA_FILE) as [murl|] eqn:Hm;
    [|eexists; by apply UpdateCheck_refused].
  destruct (network h (n_fetch s) (manifest_request h murl s)) as [r|] eqn:Hnet.
  - destruct (r_ok r) eqn:Hok.
    + destruct (r_json r) as [data|] eqn:Hjson.
      * destruct (has_cache (GetCacheVersionName h (m_version data)) s) eqn:Hhas.
        -- eexists. by apply (UpdateCheck_existing_run h isFirst s murl r data).
        -- rewrite (UpdateCheck_populate_exact h isFirst s murl r data Hm Hnet Hok Hjson Hhas).
           unfold after_populate.
           destruct (CreateCacheFromFileList _ _ _ _ _) as [[[]|e] s2]; by eexists.
      * destruct (UpdateCheck_no_manifest h isFirst s murl Hm) as [e Hrun]; [|by eexists].
        intros r' Hr'. assert (r' = r) as -> by congruence. by right.
    + destruct (UpdateCheck_no_manifest h isFirst s murl Hm) as [e Hrun]; [|by eexists].
      intros r' Hr'. assert (r' = r) as -> by congruence. by left.
  - destruct (UpdateCheck_no_manifest h isFirst s murl Hm) as [e Hrun]; [|by eexists].
    intros r' Hr'. congruence.
Qed.

(** X15. An update check never throws, whatever the URL parser, the
    network and the storage do: every failure inside it ends in its own
    handler.  The [install] listener's extra handler is therefore never
    reached, and the listener does what [UpdateCheck(true)] does. *)
Theorem update_check_never_throws h isFirst s :
  (∃ s', UpdateCheck h isFirst s = (Ret (), s'))
  ∧ on_install h s = UpdateCheck h true s.
Proof.
  split; [apply UpdateCheck_returns|].
  destruct (UpdateCheck_returns h true s) as [s' Hrun].
  unfold on_install. by rewrite (run_try _ _ _ _ _ Hrun).
Qed.

(** X16. When the manifest cannot be had (the fetch is rejected, the
    response is not ok, or its body is not JSON) the update check logs one
    warning and returns: it posts no message, and Cache Storage and the
    key/value store are as before. *)
Theorem update_check_without_manifest h isFirst s murl :
  resolve h OFFLINE_DATA_FILE = Some murl →
  (∀ r, network h (n_fetch s) (manifest_request h murl s) = Some r →
        r_ok r = false ∨ r_json r = None) →
  ∃ e s',
    UpdateCheck h isFirst s = (Ret (), s')
    ∧ caches s' = caches s ∧ lazy_store s' = lazy_store s
    ∧ trace s' = trace s ++ [EvFetch (manifest_request h murl s);
                             EvConsole LvWarn (LogUpdateCheckFailed e)].
Proof.
  intros Hm Hbad. destruct (UpdateCheck_no_manifest h isFirst s murl Hm Hbad) as [e Hrun].
  exists e. eexists. split; [exact Hrun|]. simpl. by rewrite <- app_assoc.
Qed.

Lemma update_check_without_manifest_witness :
  ∃ e s',
    UpdateCheck offline_host false two_generations = (Ret (), s')
    ∧ caches s' = caches two_generations ∧ lazy_store s' = lazy_store two_generations
    ∧ trace s' = trace two_generations
                 ++ [EvFetch (manifest_request offline_host manifest_location two_generations);
                     EvConsole LvWarn (LogUpdateCheckFailed e)].
Proof.
  apply (update_check_without_manifest offline_host false two_generations manifest_location).
  - reflexivity.
  - intros r Hr. vm_compute in Hr. discriminate.
Defined.

Lemma messages_app (t1 t2 : list Event) : messages (t1 ++ t2) = messages t1 ++ messages t2.
Proof. apply omap_app. Qed.

Lemma messages_fetch (l : list FetchReq) : messages (EvFetch <$> l) = [].
Proof. induction l as [|q l IH]; [reflexivity | rewrite fmap_cons; exact IH]. Qed.

Lemma messages_console lv (l : list LogEntry) : messages (EvConsole lv <$> l) = [].
Proof. induction l as [|q l IH]; [reflexivity | rewrite fmap_cons; exact IH]. Qed.

Lemma messages_posted h m :
  messages (posted h m) = if has_BroadcastChannel h then [m] else [].
Proof. unfold posted. by destruct (has_BroadcastChannel h). Qed.

Lemma put_all_messages h name (l : list (string * Response)) s :
  messages (trace (mapM (λ ur, start (cache_put h name ur.1 ur.2)) l s).2)
  = messages (trace s).
Proof.
  revert s. induction l as [|[k r] l IH]; intros s; [reflexivity|].
  cbn [mapM]. simpl fst. simpl snd.
  assert (Hstep : ∃ o s1, start (cache_put h name k r) s = (Ret o, s1)
                          ∧ messages (trace s1) = messages (trace s)).
  { unfold start. rewrite cache_put_run. destruct (put_ok h name k);
      eexists _, _; (split; [reflexivity|]); simpl; by rewrite messages_app, app_nil_r. }
  destruct Hstep as (o & s1 & Hstep & Hm). mrun Hstep.
  specialize (IH s1).
  destruct (mapM (λ ur, start (cache_put h name ur.1 ur.2)) l s1) as [[outs|e] s3] eqn:Hrest.
  - unfold_monad. rewrite Hrest. simpl in *. by rewrite IH.
  - unfold_monad. rewrite Hrest. simpl in *. by rewrite IH.
Qed.

Lemma write_entries_messages h name (fileList urls : list string) (rs : list Response) s :
  resolve_all h fileList = Some urls →
  messages (trace (write_entries h name fileList rs s).2) = messages (trace s).
Proof.
  intros Hurls.
  unfold write_entries. mrun (caches_open_run name s).
  assert (Hopen : messages (trace (caches_open name s).2) = messages (trace s)).
  { unfold caches_open. destruct (has_cache name s); simpl;
      by rewrite messages_app, app_nil_r. }
  remember (caches_open name s).2 as s2.
  destruct (put_all_run h name (zip urls rs) s2) as (s3 & evs3 & Hputs & _).
  pose proof (put_all_messages h name (zip urls rs) s2) as Hm3.
  rewrite Hputs in Hm3. cbn [snd] in Hm3.
  rewrite <- (put_strings_run h name fileList urls rs s2 Hurls) in Hputs.
  destruct (Promise_all_cases (put_outcome h name <$> zip urls rs) s3)
    as [(us & _ & Hall) | (e & _ & Hall)].
  - erewrite run_try; [|mrun Hputs; mrun Hall; reflexivity].
    cbn [snd]. by rewrite Hm3.
  - erewrite run_catch; [|mrun Hputs; by rewrite (run_bind_throw _ _ _ _ _ Hall)].
    unfold_monad. unfold caches_delete. simpl.
    by rewrite !messages_app, Hm3, Hopen, !app_nil_r.
Qed.

(** The populator posts nothing to the broadcast channel. *)
Lemma CreateCacheFromFileList_messages h name (fileList : list string) bypass s :
  messages (trace (CreateCacheFromFileList h name fileList bypass s).2) = messages (trace s).
Proof.
  destruct (CreateCacheFromFileList_fetch_phase h name fileList bypass s)
    as (s1 & entries & _ & _ & Ht & [(e & Hrun & _) | (urls & rs & Hurls & _ & _ & Hrun)]);
    rewrite Hrun.
  - cbn [snd]. by rewrite Ht, !messages_app, messages_fetch, messages_console, !app_nil_r.
  - by rewrite (write_entries_messages h name fileList urls rs s1 Hurls), Ht, !messages_app,
      messages_fetch, messages_console, !app_nil_r.
Qed.

(** However the populator ends, the key/value store and the caches of
    other names are as before, and the named cache is either complete or
    not made by this run: the populator threw and left Cache Storage alone,
    or threw and deleted the cache, or returned with every entry written. *)
Lemma CreateCacheFromFileList_total h name (fileList : list string) bypass s :
  lazy_store (CreateCacheFromFileList h name fileList bypass s).2 = lazy_store s
  ∧ (∀ n, n ≠ name →
       find_cache n (CreateCacheFromFileList h name fileList bypass s).2 = find_cache n s)
  ∧ ((∃ e, (CreateCacheFromFileList h name fileList bypass s).1 = Throw e
           ∧ (caches (CreateCacheFromFileList h name fileList bypass s).2 = caches s
              ∨ has_cache name (CreateCacheFromFileList h name fileList bypass s).2 = false))
     ∨ ((CreateCacheFromFileList h name fileList bypass s).1 = Ret ()
        ∧ ∃ urls rs c',
            resolve_all h fileList = Some urls
            ∧ populate_outcomes h bypass (n_random s) (n_fetch s) fileList = Ret <$> rs
            ∧ cache_names (CreateCacheFromFileList h name fileList bypass s).2
              = cache_names (caches_open name s).2
            ∧ find_cache name (CreateCacheFromFileList h name fileList bypass s).2 = Some c'
            ∧ (∀ k, k ∉ urls → c' !! k = default ∅ (find_cache name s) !! k)
            ∧ (∀ k, k ∈ urls → ∃ resp, (k, resp) ∈ zip urls rs ∧ c' !! k = Some resp))).
Proof.
  destruct (CreateCacheFromFileList_fetch_phase h name fileList bypass s)
    as (s1 & entries & Hc & Hl & _ & [(e & Hrun & _) | (urls & rs & Hurls & Hrs & _ & Hrun)]);
    rewrite Hrun.
  - cbn [fst snd]. split_and!; try done.
    + intros n _. unfold find_cache. by rewrite Hc.
    + left. exists e. split; [done | by left].
  - pose proof (zip_keys _ _ _ _ _ _ _ Hurls Hrs) as Hkeys.
    assert (Hfind : ∀ n, find_cache n s1 = find_cache n s).
    { intros n. unfold find_cache. by rewrite Hc. }
    destruct (write_entries_cases h name fileList urls rs s1 Hurls)
      as (s' & evs & Hl' & _ & _ & Hother
          & [(_ & Hw & Hn & c' & Hc' & Hout & Hin) | (key & puts & _ & _ & Hw & Hgone & _)]);
      rewrite Hw; cbn [fst snd].
    + split_and!.
      * by rewrite Hl'.
      * intros n Hn'. by rewrite Hother, Hfind.
      * right. split; [done|]. exists urls, rs, c'. rewrite Hkeys in Hout, Hin.
        split_and!; try done.
        -- rewrite Hn, !cache_names_open. unfold has_cache, cache_names. by rewrite Hc.
        -- intros k Hk. by rewrite (Hout k Hk), Hfind.
    + split_and!.
      * by rewrite Hl'.
      * intros n Hn'. by rewrite Hother, Hfind.
      * left. eexists. split; [done | by right].
Qed.

Lemma after_populate_frame h version (r : Outcome () * State) :
  (after_populate h version r).1 = Ret ()
  ∧ caches (after_populate h version r).2 = caches r.2
  ∧ lazy_store (after_populate h version r).2 = lazy_store r.2.
Proof. by destruct r as [[[]|e] s2]. Qed.

(** X17. All or nothing.  After an update check that did not find the
    generation of the manifest's version, that generation is either absent
    or holds an entry for every file of the populator's list, under the
    URL the file's string resolves to, whatever failed on the way; the
    caches of other names keep their content. *)
Theorem update_check_all_or_nothing h isFirst s murl r data :
  resolve h OFFLINE_DATA_FILE = Some murl →
  network h (n_fetch s) (manifest_request h murl s) = Some r →
  r_ok r = true → r_json r = Some data →
  has_cache (GetCacheVersionName h (m_version data)) s = false →
  (∀ n, n ≠ GetCacheVersionName h (m_version data) →
        find_cache n (UpdateCheck h isFirst s).2 = find_cache n s)
  ∧ (has_cache (GetCacheVersionName h (m_version data)) (UpdateCheck h isFirst s).2 = false
     ∨ ∀ f, f ∈ populate_list h data →
         ∃ url, resolve h f = Some url
                ∧ is_Some (lookup_entry (GetCacheVersionName h (m_version data)) url
                             (UpdateCheck h isFirst s).2)).
Proof.
  intros Hm Hnet Hok Hjson Hhas.
  rewrite (UpdateCheck_populate_exact h isFirst s murl r data Hm Hnet Hok Hjson Hhas).
  set (name := GetCacheVersionName h (m_version data)) in *.
  destruct (before_populate_frame h murl isFirst data s) as (Hc & _).
  remember (before_populate h murl isFirst data s) as s_pre.
  destruct (CreateCacheFromFileList_total h name (populate_list h data) (negb isFirst) s_pre)
    as (_ & Hother & Hcases).
  remember (CreateCacheFromFileList h name (populate_list h data) (negb isFirst) s_pre) as res.
  destruct (after_populate_frame h (m_version data) res) as (_ & Hca & _).
  assert (Hfind : ∀ n, find_cache n (after_populate h (m_version data) res).2
                       = find_cache n res.2).
  { intros n. unfold find_cache. by rewrite Hca. }
  split.
  - intros n Hn. rewrite Hfind, (Hother n Hn). unfold find_cache. by rewrite Hc.
  - destruct Hcases
      as [(e & _ & [Hsame | Hgone]) | (_ & urls & rs & c' & Hurls & _ & _ & Hc' & _ & Hin)].
    + left. unfold has_cache, cache_names in *. by rewrite Hca, Hsame, Hc.
    + left. unfold has_cache, cache_names in *. by rewrite Hca.
    + right. intros f Hfile.
      destruct (proj1 (resolve_all_elem h _ urls Hurls) f Hfile) as (url & Hurl & Hmem).
      exists url. split; [done|]. unfold lookup_entry. rewrite Hfind, Hc'. simpl.
      destruct (Hin url Hmem) as (resp & _ & ->). by eexists.
Qed.

Lemma update_check_all_or_nothing_witness :
  (∀ n, n ≠ GetCacheVersionName flaky_host (m_version demo_manifest) →
        find_cache n (UpdateCheck flaky_host false one_generation).2
        = find_cache n one_generation)
  ∧ (has_cache (GetCacheVersionName flaky_host (m_version demo_manifest))
       (UpdateCheck flaky_host false one_generation).2 = false
     ∨ ∀ f, f ∈ populate_list flaky_host demo_manifest →
         ∃ url, resolve flaky_host f = Some url
                ∧ is_Some (lookup_entry (GetCacheVersionName flaky_host (m_version demo_manifest))
                             url (UpdateCheck flaky_host false one_generation).2)).
Proof.
  apply (update_check_all_or_nothing flaky_host false one_generation manifest_location
           (manifest_response demo_manifest) demo_manifest).
  - reflexivity.
  - vm_compute. reflexivity.
  - reflexivity.
  - reflexivity.
  - vm_compute. reflexivity.
Defined.

Lemma before_populate_messages h murl isFirst data s :
  messages (trace (before_populate h murl isFirst data s))
  = messages (trace s)
    ++ (if has_BroadcastChannel h then [announcement isFirst (m_version data)] else []).
Proof.
  assert (Hb : messages (trace (record_all
                 (EvConsole LvLog (LogCaching (length (populate_list h data)))
                  :: posted h (announcement isFirst (m_version data)))
                 (after_manifest h murl s)))
               = messages (trace s)
                 ++ (if has_BroadcastChannel h
                     then [announcement isFirst (m_version data)] else [])).
  { cbn [trace record_all after_manifest]. rewrite !messages_app.
    change (messages (EvConsole ?lv ?e :: ?l)) with (messages l).
    rewrite messages_posted. simpl. by rewrite app_nil_r. }
  unfold before_populate.
  destruct (m_lazyLoad data); [destruct (has_localforage h)|]; try exact Hb.
  cbn [trace record]. rewrite messages_app. cbn [trace] in Hb |- *.
  rewrite Hb. simpl. by rewrite app_nil_r.
Qed.

Lemma available_after_open h name s :
  startsWith name (GetCacheBaseName h) = true → has_cache name s = false →
  available h (caches_open name s).2 = available h s ++ [name].
Proof.
  intros Hpre Hhas. unfold available. rewrite cache_names_open, Hhas.
  rewrite List.filter_app. simpl. by rewrite Hpre.
Qed.

(** X18. When an update check populates and nothing fails, the channel
    gets two messages, in this order: [downloading] in the first check,
    [downloading-update] with the version in a later one; then
    [offline-ready] when the scope had no generation before, and
    [update-ready] with the version when it had.  Without a
    [BroadcastChannel] nothing is posted. *)
Theorem update_check_announces h isFirst s murl r data (urls : list string)
    (rs : list Response) :
  resolve h OFFLINE_DATA_FILE = Some murl →
  network h (n_fetch s) (manifest_request h murl s) = Some r →
  r_ok r = true → r_json r = Some data →
  has_cache (GetCacheVersionName h (m_version data)) s = false →
  resolve_all h (populate_list h data) = Some urls →
  populate_outcomes h (negb isFirst) (S (n_random s)) (S (n_fetch s)) (populate_list h data)
    = Ret <$> rs →
  Forall (λ r, r_ok r = true) rs →
  (∀ url, url ∈ urls → put_ok h (GetCacheVersionName h (m_version data)) url = true) →
  messages (trace (UpdateCheck h isFirst s).2)
  = messages (trace s)
    ++ (if has_BroadcastChannel h
        then [announcement isFirst (m_version data);
              if bool_decide (available h s = [])
              then mkMessage "offline-ready" None
              else mkMessage "update-ready" (Some (m_version data))]
        else []).
Proof.
  intros Hm Hnet Hok Hjson Hhas Hurls Hrs Hoks Hputs.
  rewrite (UpdateCheck_populate_exact h isFirst s murl r data Hm Hnet Hok Hjson Hhas).
  set (name := GetCacheVersionName h (m_version data)) in *.
  destruct (before_populate_frame h murl isFirst data s) as (Hc & Hnr & Hnf & _).
  pose proof (before_populate_messages h murl isFirst data s) as Hmpre.
  remember (before_populate h murl isFirst data s) as s_pre.
  pose proof (CreateCacheFromFileList_messages h name (populate_list h data) (negb isFirst)
                s_pre) as Hmpop.
  destruct (CreateCacheFromFileList_total h name (populate_list h data) (negb isFirst) s_pre)
    as (_ & _ & [(e & Hthrow & _) | (Hret & urls' & rs' & c' & _ & _ & Hnames & _)]).
  { exfalso.
    destruct (CreateCacheFromFileList_fetch_phase h name (populate_list h data) (negb isFirst)
                s_pre)
      as (s1 & entries & _ & _ & _
          & [(e' & _ & Hnot) | (urls' & rs' & Hurls' & Hrs' & _ & Hrun)]).
    - destruct Hnot. exists urls, rs. by rewrite Hnr, Hnf.
    - rewrite Hrun in Hthrow.
      assert (urls' = urls) as -> by congruence.
      destruct (write_entries_cases h name (populate_list h data) urls rs' s1 Hurls)
        as (s' & evs & _ & _ & _ & _
            & [(_ & Hw & _) | (key & puts & Hkey & Hput & _)]).
      + rewrite Hw in Hthrow. discriminate.
      + rewrite (zip_keys _ _ _ _ _ _ _ Hurls Hrs') in Hkey.
        specialize (Hputs key Hkey). congruence. }
  destruct (CreateCacheFromFileList h name (populate_list h data) (negb isFirst) s_pre)
    as [o s2]. cbn [fst snd] in *. subst o.
  assert (Hav : available h s2 = available h s ++ [name]).
  { unfold available at 1. rewrite Hnames. fold (available h (caches_open name s_pre).2).
    rewrite available_after_open.
    - unfold available, cache_names. by rewrite Hc.
    - apply GetCacheVersionName_listed.
    - unfold has_cache, cache_names in *. by rewrite Hc. }
  unfold after_populate. cbn [snd trace record_all].
  rewrite messages_app. change (messages (EvConsole ?lv ?e :: ?l)) with (messages l).
  rewrite messages_posted, Hmpop, Hmpre.
  unfold ready_message. rewrite Hav, length_app. simpl length.
  destruct (has_BroadcastChannel h); [|by rewrite !app_nil_r].
  rewrite <- app_assoc. f_equal. simpl. f_equal. f_equal.
  destruct (available h s) as [|n l]; simpl; [done|].
  replace (length l + 1) with (S (length l)) by lia. done.
Qed.

Lemma update_check_announces_witness :
  messages (trace (UpdateCheck steady_host false one_generation).2)
  = messages (trace one_generation)
    ++ (if has_BroadcastChannel steady_host
        then [announcement false (m_version demo_manifest);
              if bool_decide (available steady_host one_generation = [])
              then mkMessage "offline-ready" None
              else mkMessage "update-ready" (Some (m_version demo_manifest))]
        else []).
Proof.
  apply (update_check_announces steady_host false one_generation manifest_location
           (manifest_response demo_manifest) demo_manifest
           [app_url "index.html"; app_url ""; app_url "a.js"; app_url "b.js"]
           [fetched (app_url "index.html"); fetched (app_url "");
            fetched (app_url "a.js"); fetched (app_url "b.js")]).
  - reflexivity.
  - vm_compute. reflexivity.
  - reflexivity.
  - reflexivity.
  - vm_compute. reflexivity.
  - vm_compute. reflexivity.
  - vm_compute. reflexivity.
  - repeat constructor.
  - intros url _. reflexivity.
Defined.

(** X19. Two checks in a row.  After an update check that populated
    without failure, a later check that reads the same version from the
    manifest finds the generation: it fetches the manifest and nothing
    else, and leaves Cache Storage as it is. *)
Theorem second_check_fetches_only_manifest h isFirst s murl r data (urls : list string)
    (rs : list Response) r2 data2 :
  resolve h OFFLINE_DATA_FILE = Some murl →
  network h (n_fetch s) (manifest_request h murl s) = Some r →
  r_ok r = true → r_json r = Some data →
  has_cache (GetCacheVersionName h (m_version data)) s = false →
  resolve_all h (populate_list h data) = Some urls →
  populate_outcomes h (negb isFirst) (S (n_random s)) (S (n_fetch s)) (populate_list h data)
    = Ret <$> rs →
  Forall (λ r, r_ok r = true) rs →
  (∀ url, url ∈ urls → put_ok h (GetCacheVersionName h (m_version data)) url = true) →
  network h (n_fetch (UpdateCheck h isFirst s).2)
    (manifest_request h murl (UpdateCheck h isFirst s).2) = Some r2 →
  r_ok r2 = true → r_json r2 = Some data2 → m_version data2 = m_version data →
  ∃ s'',
    UpdateCheck h false (UpdateCheck h isFirst s).2 = (Ret (), s'')
    ∧ caches s'' = caches (UpdateCheck h isFirst s).2
    ∧ fetches (trace s'')
      = fetches (trace (UpdateCheck h isFirst s).2)
        ++ [manifest_request h murl (UpdateCheck h isFirst s).2].
Proof.
  intros Hm Hnet Hok Hjson Hhas Hurls Hrs Hoks Hputs Hnet2 Hok2 Hjson2 Hversion.
  assert (Hnow : has_cache (GetCacheVersionName h (m_version data))
                   (UpdateCheck h isFirst s).2 = true).
  { rewrite (UpdateCheck_populate_exact h isFirst s murl r data Hm Hnet Hok Hjson Hhas).
    set (name := GetCacheVersionName h (m_version data)) in *.
    destruct (before_populate_frame h murl isFirst data s) as (Hc & Hnr & Hnf & _).
    remember (before_populate h murl isFirst data s) as s_pre.
    destruct (after_populate_frame h (m_version data)
                (CreateCacheFromFileList h name (populate_list h data) (negb isFirst) s_pre))
      as (_ & Hca & _).
    apply has_cache_find. unfold find_cache. rewrite Hca.
    destruct (CreateCacheFromFileList_fetch_phase h name (populate_list h data) (negb isFirst)
                s_pre)
      as (s1 & entries & _ & _ & _
          & [(e' & _ & Hnot) | (urls' & rs' & Hurls' & Hrs' & _ & Hrun)]).
    { destruct Hnot. exists urls, rs. by rewrite Hnr, Hnf. }
    rewrite Hrun. assert (urls' = urls) as -> by congruence.
    destruct (write_entries_cases h name (populate_list h data) urls rs' s1 Hurls)
      as (s' & evs & _ & _ & _ & _
          & [(_ & Hw & _ & c' & Hc' & _) | (key & puts & Hkey & Hput & _)]).
    - rewrite Hw. cbn [snd]. unfold find_cache in Hc'. by rewrite Hc'.
    - rewrite (zip_keys _ _ _ _ _ _ _ Hurls Hrs') in Hkey.
      specialize (Hputs key Hkey). congruence. }
  rewrite <- Hversion in Hnow.
  rewrite (UpdateCheck_existing_run h false _ murl r2 data2 Hm Hnet2 Hok2 Hjson2 Hnow).
  eexists. split; [reflexivity|]. split; [reflexivity|].
  cbn [trace record_all after_manifest]. rewrite !fetches_app.
  destruct (2 <=? length (available h (UpdateCheck h isFirst s).2));
    by rewrite fetches_console_cons, fetches_posted, app_nil_r.
Qed.

Lemma second_check_fetches_only_manifest_witness :
  ∃ s'',
    UpdateCheck steady_host false (UpdateCheck steady_host true empty_state).2 = (Ret (), s'')
    ∧ caches s'' = caches (UpdateCheck steady_host true empty_state).2
    ∧ fetches (trace s'')
      = fetches (trace (UpdateCheck steady_host true empty_state).2)
        ++ [manifest_request steady_host manifest_location
              (UpdateCheck steady_host true empty_state).2].
Proof.
  apply (second_check_fetches_only_manifest steady_host true empty_state manifest_location
           (manifest_response demo_manifest) demo_manifest
           [app_url "index.html"; app_url ""; app_url "a.js"; app_url "b.js"]
           [fetched (app_url "index.html"); fetched (app_url "");
            fetched (app_url "a.js"); fetched (app_url "b.js")]
           (manifest_response demo_manifest) demo_manifest).
  - reflexivity.
  - vm_compute. reflexivity.
  - reflexivity.
  - reflexivity.
  - vm_compute. reflexivity.
  - vm_compute. reflexivity.
  - vm_compute. reflexivity.
  - repeat constructor.
  - intros url _. reflexivity.
  - vm_compute. reflexivity.
  - reflexivity.
  - reflexivity.
  - reflexivity.
Defined.

(** X20. The lazy-load list of the manifest replaces the stored one
    before the populator runs, so it stays stored whether populating
    succeeds or fails; without [localforage], or when the manifest has no
    list, the stored list is left as it is. *)
Theorem lazy_list_stored_before_populate h isFirst s murl r data :
  resolve h OFFLINE_DATA_FILE = Some murl →
  network h (n_fetch s) (manifest_request h murl s) = Some r →
  r_ok r = true → r_json r = Some data →
  has_cache (GetCacheVersionName h (m_version data)) s = false →
  lazy_store (UpdateCheck h isFirst s).2
  = match m_lazyLoad data with
    | Some l => if has_localforage h then Some l else lazy_store s
    | None => lazy_store s
    end.
Proof.
  intros Hm Hnet Hok Hjson Hhas.
  rewrite (UpdateCheck_populate_exact h isFirst s murl r data Hm Hnet Hok Hjson Hhas).
  destruct (before_populate_frame h murl isFirst data s) as (_ & _ & _ & Hl).
  destruct (after_populate_frame h (m_version data)
              (CreateCacheFromFileList h (GetCacheVersionName h (m_version data))
                 (populate_list h data) (negb isFirst) (before_populate h murl isFirst data s)))
    as (_ & _ & Hla).
  rewrite Hla.
  destruct (CreateCacheFromFileList_total h (GetCacheVersionName h (m_version data))
              (populate_list h data) (negb isFirst) (before_populate h murl isFirst data s))
    as (Hlp & _).
  by rewrite Hlp.
Qed.

Lemma lazy_list_stored_before_populate_witness :
  lazy_store (UpdateCheck flaky_host true empty_state).2
  = match m_lazyLoad demo_manifest with
    | Some l => if has_localforage flaky_host then Some l else lazy_store empty_state
    | None => lazy_store empty_state
    end.
Proof.
  apply (lazy_list_stored_before_populate flaky_host true empty_state manifest_location
           (manifest_response demo_manifest) demo_manifest).
  - reflexivity.
  - vm_compute. reflexivity.
  - reflexivity.
  - reflexivity.
  - vm_compute. reflexivity.
Defined.

(** ** The fetch listener *)

(** X21. For a same-origin request the listener answers with what
    [HandleFetch] returned, also for a navigation, where the update check
    runs afterwards and cannot disturb the answer; when [HandleFetch]
    throws, the listener throws the same error and no update check runs. *)
Theorem listener_answers_with_routed_response h rq s :
  rq_origin rq = location_origin h →
  (∀ r s1,
     HandleFetch h rq (is_navigation rq) s = (Ret r, s1) →
     on_fetch h rq s
     = (Ret (Some r), if is_navigation rq then (UpdateCheck h false s1).2 else s1))
  ∧ (∀ e s1,
       HandleFetch h rq (is_navigation rq) s = (Throw e, s1) →
       on_fetch h rq s = (Throw e, s1)).
Proof.
  intros Horigin. apply String.eqb_eq in Horigin.
  unfold on_fetch, is_navigation. rewrite Horigin. cbn [negb].
  destruct (rq_mode rq); split.
  - intros r s1 Hrun. mrun (run_start _ _ _ _ Hrun).
    destruct (UpdateCheck_returns h false s1) as [s' Hcheck]. mrun Hcheck.
    by rewrite Hcheck.
  - intros e s1 Hrun. mrun (run_start _ _ _ _ Hrun). reflexivity.
  - intros r s1 Hrun. mrun (run_start _ _ _ _ Hrun). reflexivity.
  - intros e s1 Hrun. mrun (run_start _ _ _ _ Hrun). reflexivity.
Qed.

Lemma listener_answers_with_routed_response_witness :
  (∀ r s1,
     HandleFetch steady_host index_html (is_navigation index_html) two_generations
     = (Ret r, s1) →
     on_fetch steady_host index_html two_generations
     = (Ret (Some r),
        if is_navigation index_html then (UpdateCheck steady_host false s1).2 else s1))
  ∧ (∀ e s1,
       HandleFetch steady_host index_html (is_navigation index_html) two_generations
       = (Throw e, s1) →
       on_fetch steady_host index_html two_generations = (Throw e, s1)).
Proof.
  apply (listener_answers_with_routed_response steady_host index_html two_generations).
  reflexivity.
Defined.

(** ** Routing and the broadcast channel *)

Lemma messages_deletes (l : list string) : messages (EvCacheDelete <$> l) = [].
Proof. induction l as [|n l IH]; [reflexivity | rewrite fmap_cons; exact IH]. Qed.

Lemma messages_console_cons lv e (l : list Event) :
  messages (EvConsole lv e :: l) = messages l.
Proof. reflexivity. Qed.

Lemma IsUrlInLazyLoadList_messages h url lazy s :
  messages (trace (IsUrlInLazyLoadList h url lazy s).2) = messages (trace s).
Proof.
  destruct lazy as [l|]; [|reflexivity].
  destruct (IsUrlInLazyLoadList_cases h url l s)
    as [(pre & p & post & _ & _ & _ & Hrun)
       |[(pre & p & post & _ & _ & _ & Hrun)
        |[_ Hrun]]]; rewrite Hrun; try reflexivity.
  simpl. by rewrite messages_app, app_nil_r.
Qed.

Lemma serve_messages h rq name s2 :
  messages (trace (serve h rq name s2).2) = messages (trace s2).
Proof.
  assert (Hfetch : messages (trace (fetch h (passthrough rq) s2).2) = messages (trace s2)).
  { unfold fetch. destruct (network h (n_fetch s2) (passthrough rq)); simpl;
      by rewrite messages_app, app_nil_r. }
  destruct (serve_cases h rq name s2)
    as [(r & _ & Hrun) | [(_ & _ & Hrun) | (_ & resp & b & evs & _ & _ & Hscan & Hrun)]];
    rewrite Hrun; cbn [snd]; [done | done |].
  pose proof (IsUrlInLazyLoadList_messages h (rq_url rq) (stored_lazy_list h s2)
                (fetch h (passthrough rq) s2).2) as Hm.
  rewrite Hscan in Hm. cbn [snd] in Hm. rewrite Hfetch in Hm.
  remember (record_all evs (fetch h (passthrough rq) s2).2) as s4.
  destruct b; [destruct (put_ok h name (rq_url rq))|]; simpl;
    rewrite ?messages_app, Hm; by rewrite ?app_nil_r.
Qed.

(** X22. Routing a request never posts to the broadcast channel: the
    messages in the trace after [HandleFetch] are those before it, also
    when it deletes superseded generations. *)
Theorem routing_posts_no_message h rq nav s :
  messages (trace (HandleFetch h rq nav s).2) = messages (trace s).
Proof.
  destruct (decide (available h s = [])) as [Hnone|Hsome].
  - rewrite (HandleFetch_no_generation h rq nav s Hnone). unfold fetch.
    destruct (network h (n_fetch s) (passthrough rq)); simpl;
      by rewrite messages_app, app_nil_r.
  - destruct (GetCacheNameToUse_frame h (available h s) nav s)
      as (sel & s1 & _ & Hsel & _).
    rewrite (HandleFetch_selected h rq nav s _ _ Hsome Hsel), serve_messages.
    assert (Hs1 : messages (trace s1) = messages (trace s)).
    { destruct (GetCacheNameToUse_cases h (available h s) nav s) as [Hrun | [_ Hrun]];
        rewrite Hrun in Hsel; injection Hsel as _ <-; [done|].
      unfold without. cbn [trace].
      by rewrite messages_app, messages_console_cons, messages_deletes, app_nil_r. }
    unfold caches_open. destruct (has_cache (name_to_string sel) s1); simpl;
      by rewrite messages_app, app_nil_r.
Qed.

Lemma GetCacheNameToUse_upgrade h (names : list string) s :
  2 ≤ length names → length (matching_clients false (clients h)) ≤ 1 →
  GetCacheNameToUse h names true s
  = (Ret (last names),
     without (removelast names) s
       (EvConsole LvLog LogUpgrading :: (EvCacheDelete <$> removelast names))).
Proof.
  intros Hlen Hclients.
  destruct (delete_all_run (removelast names) (record (EvConsole LvLog LogUpgrading) s))
    as [bs Hdel].
  unfold GetCacheNameToUse.
  replace (length names =? 1) with false by (symmetry; apply Nat.eqb_neq; lia).
  cbn [negb orb]. unfold clients_matchAll. unfold_monad.
  replace (1 <? length (matching_clients false (clients h))) with false
    by (symmetry; apply Nat.ltb_ge; lia).
  rewrite Hdel, Promise_all_resolved. unfold without. simpl. by rewrite <- app_assoc.
Qed.

Lemma available_without h s evs newest :
  NoDup (cache_names s) → last (available h s) = Some newest →
  available h (without (removelast (available h s)) s evs) = [newest].
Proof.
  intros Hnd Hlast.
  assert (Hne : available h s ≠ []) by (intros Hnil; by rewrite Hnil in Hlast).
  destruct (exists_last Hne) as (old & n & Hsplit).
  rewrite Hsplit, last_snoc in Hlast. injection Hlast as ->.
  unfold available at 1, cache_names, without. simpl.
  pose proof (names_filter (λ m, m ∉ removelast (available h s)) (caches s)) as Hnf.
  rewrite Hnf, bfilter_filter_comm. fold (cache_names s). fold (available h s).
  rewrite Hsplit, removelast_last.
  apply keep_newest. rewrite <- Hsplit. by apply NoDup_bfilter.
Qed.

(** X23. Upgrade, then check.  A navigation that finds two or more
    generations and at most one connected instance is answered from the
    newest one; when the manifest then names that generation's version,
    the update check that follows reports [up-to-date]: only the newest
    generation is left and the one message posted is [up-to-date]. *)
Theorem upgrade_then_check_reports_up_to_date h rq s resp s1 murl r data :
  rq_origin rq = location_origin h → rq_mode rq = ModeNavigate →
  resolve h OFFLINE_DATA_FILE = Some murl →
  NoDup (cache_names s) →
  2 ≤ length (available h s) →
  length (matching_clients false (clients h)) ≤ 1 →
  HandleFetch h rq true s = (Ret resp, s1) →
  network h (n_fetch s1) (manifest_request h murl s1) = Some r →
  r_ok r = true → r_json r = Some data →
  last (available h s) = Some (GetCacheVersionName h (m_version data)) →
  ∃ s',
    on_fetch h rq s = (Ret (Some resp), s')
    ∧ available h s' = [GetCacheVersionName h (m_version data)]
    ∧ messages (trace s')
      = messages (trace s)
        ++ (if has_BroadcastChannel h then [mkMessage "up-to-date" None] else []).
Proof.
  intros Horigin Hmode Hm Hnd Hlen Hclients Hrun Hnet Hok Hjson Hlast.
  set (name := GetCacheVersionName h (m_version data)) in *.
  assert (Hsome : available h s ≠ []).
  { intros Hnil. rewrite Hnil in Hlen. simpl in Hlen. lia. }
  assert (Hm1 : messages (trace s1) = messages (trace s)).
  { destruct (decide (available h s = [])) as [?|_]; [done|].
    pose proof (GetCacheNameToUse_upgrade h (available h s) s Hlen Hclients) as Hsel.
    rewrite (HandleFetch_selected h rq true s _ _ Hsome Hsel) in Hrun.
    pose proof (serve_messages h rq (name_to_string (last (available h s)))
                  (caches_open (name_to_string (last (available h s)))
                     (without (removelast (available h s)) s
                        (EvConsole LvLog LogUpgrading
                         :: (EvCacheDelete <$> removelast (available h s))))).2) as Hms.
    rewrite Hrun in Hms. cbn [snd] in Hms. rewrite Hms.
    unfold caches_open, without. destruct (has_cache _ _); cbn [snd trace record set_caches];
      by rewrite !messages_app, messages_console_cons, messages_deletes, !app_nil_r. }
  assert (Hav1 : available h s1 = [name]).
  { pose proof (GetCacheNameToUse_upgrade h (available h s) s Hlen Hclients) as Hsel.
    rewrite (HandleFetch_selected h rq true s _ _ Hsome Hsel) in Hrun.
    rewrite Hlast in Hrun. change (name_to_string (Some name)) with name in Hrun.
    set (s_sel := without (removelast (available h s)) s
                    (EvConsole LvLog LogUpgrading
                     :: (EvCacheDelete <$> removelast (available h s)))) in *.
    pose proof (available_without h s
                  (EvConsole LvLog LogUpgrading
                   :: (EvCacheDelete <$> removelast (available h s))) name Hnd Hlast) as Hav.
    fold s_sel in Hav.
    assert (Hhas : has_cache name s_sel = true).
    { unfold has_cache. apply bool_decide_eq_true.
      apply (proj1 (elem_of_available h name s_sel)). rewrite Hav. by left. }
    destruct (serve_frame h rq name (caches_open name s_sel).2) as (Hn & _).
    rewrite Hrun in Hn. cbn [snd] in Hn.
    unfold available. rewrite Hn, cache_names_open, Hhas. exact Hav. }
  assert (Hhas1 : has_cache name s1 = true).
  { unfold has_cache. apply bool_decide_eq_true.
    apply (proj1 (elem_of_available h name s1)). rewrite Hav1. by left. }
  pose proof (UpdateCheck_existing_run h false s1 murl r data Hm Hnet Hok Hjson Hhas1) as Hcheck.
  rewrite Hav1 in Hcheck. cbn [length Nat.leb] in Hcheck.
  eexists. split_and!.
  - unfold on_fetch. apply String.eqb_eq in Horigin. rewrite Horigin, Hmode. cbn [negb].
    mrun (run_start _ _ _ _ Hrun). mrun Hcheck. reflexivity.
  - exact Hav1.
  - cbn [trace record_all after_manifest]. rewrite !messages_app.
    change (messages (EvConsole ?lv ?e :: ?l)) with (messages l).
    rewrite messages_posted, Hm1. simpl. by rewrite app_nil_r.
Qed.

Lemma upgrade_then_check_reports_up_to_date_witness :
  ∃ s',
    on_fetch steady_host index_html two_generations
    = (Ret (Some (fetched "https://example.com/app/index.html")), s')
    ∧ available steady_host s' = [GetCacheVersionName steady_host (m_version demo_manifest)]
    ∧ messages (trace s')
      = messages (trace two_generations)
        ++ (if has_BroadcastChannel steady_host then [mkMessage "up-to-date" None] else []).
Proof.
  apply (upgrade_then_check_reports_up_to_date steady_host index_html two_generations
           (fetched "https://example.com/app/index.html")
           (HandleFetch steady_host index_html true two_generations).2 manifest_location
           (manifest_response demo_manifest) demo_manifest).
  - reflexivity.
  - reflexivity.
  - reflexivity.
  - compute_done.
  - vm_compute. lia.
  - vm_compute. lia.
  - vm_compute. reflexivity.
  - vm_compute. reflexivity.
  - reflexivity.
  - reflexivity.
  - vm_compute. reflexivity.
Defined.

(** ** Requests issued *)

Lemma issued_stops h (pre : list string) bad post urls :
  resolve_all h pre = Some urls → resolve h bad = None →
  issued h (pre ++ bad :: post) = urls.
Proof.
  intros Hpre Hbad. revert urls Hpre. induction pre as [|x pre IH]; intros urls Hpre.
  - injection Hpre as <-. cbn [app issued]. by rewrite Hbad.
  - apply resolve_all_cons in Hpre as (url & urls' & Hurl & Hpre & ->).
    cbn [app issued]. by rewrite Hurl, (IH urls' Hpre).
Qed.

(** X24. However the populator ends, it has handed [fetch] one request
    for each entry of the list that comes before the first entry
    [new Request] refuses, in list order.  A failure of one fetch does not
    hold back the others: when every entry is a URL, every file is
    requested.  An entry that is not a URL ends the requests: the entries
    after it are never fetched. *)
Theorem populate_fetches_until_refused_entry h cacheName (fileList : list string) bypass s :
  fq_url <$> fetches (trace (CreateCacheFromFileList h cacheName fileList bypass s).2)
  = (fq_url <$> fetches (trace s)) ++ issued h fileList
  ∧ (∀ urls, resolve_all h fileList = Some urls → issued h fileList = urls)
  ∧ (∀ pre bad post urls,
       fileList = pre ++ bad :: post → resolve_all h pre = Some urls → resolve h bad = None →
       issued h fileList = urls).
Proof.
  split_and!.
  - by rewrite CreateCacheFromFileList_fetches, fmap_app, file_requests_urls.
  - apply resolve_all_issued.
  - intros pre bad post urls -> Hpre Hbad. by apply issued_stops.
Qed.

(** X25. An entry of the file list that is not a URL makes the populator
    fail at once: [new Request] throws inside [fileList.map], after the
    fetches of the entries before it were issued, and the populator throws
    that error.  It waits for no response and reports none, opens no cache,
    and leaves Cache Storage and the key/value store as they were. *)
Theorem populate_stops_at_refused_entry h cacheName (pre : list string) bad post urls bypass s :
  resolve_all h pre = Some urls → resolve h bad = None →
  ∃ s',
    CreateCacheFromFileList h cacheName (pre ++ bad :: post) bypass s
    = (Throw (TypeError bad), s')
    ∧ caches s' = caches s ∧ lazy_store s' = lazy_store s
    ∧ trace s' = trace s ++ (EvFetch <$> file_requests h bypass (n_random s) urls).
Proof.
  intros Hpre Hbad.
  destruct (issue_fetches_run h bypass (pre ++ bad :: post) s)
    as (s0 & Hc0 & Hl0 & Ht0 & [(urls' & Hall & _)
                              | (pre' & bad' & post' & urls' & Hsplit & Hpre' & Hbad' & Hissue)]).
  { exfalso. by apply (resolve_all_refused h pre bad post urls' Hbad). }
  assert (bad' = bad) as ->.
  { clear -Hsplit Hpre Hbad Hpre' Hbad'. revert pre' urls urls' Hsplit Hpre Hpre'.
    induction pre as [|x pre IH]; intros [|y pre'] urls urls' Hsplit Hpre Hpre'.
    - by injection Hsplit.
    - injection Hsplit as <- _.
      apply resolve_all_cons in Hpre' as (? & ? & ? & _). congruence.
    - injection Hsplit as -> _.
      apply resolve_all_cons in Hpre as (? & ? & ? & _). congruence.
    - injection Hsplit as _ Hsplit.
      apply resolve_all_cons in Hpre as (? & u1 & _ & Hpre & _).
      apply resolve_all_cons in Hpre' as (? & u2 & _ & Hpre' & _).
      by apply (IH pre' u1 u2). }
  exists s0. split_and!; [| done | done |].
  - unfold CreateCacheFromFileList. by rewrite (run_bind_throw _ _ _ _ _ Hissue).
  - by rewrite Ht0, (issued_stops h pre bad post urls Hpre Hbad).
Qed.

Lemma populate_stops_at_refused_entry_witness :
  ∃ s',
    CreateCacheFromFileList steady_host (generation "2") (["a.js"] ++ "http://" :: ["b.js"])
      false empty_state
    = (Throw (TypeError "http://"), s')
    ∧ caches s' = caches empty_state ∧ lazy_store s' = lazy_store empty_state
    ∧ trace s' = trace empty_state
                 ++ (EvFetch <$> file_requests steady_host false (n_random empty_state)
                                   [app_url "a.js"]).
Proof.
  apply (populate_stops_at_refused_entry steady_host (generation "2") ["a.js"] "http://"
           ["b.js"] [app_url "a.js"] false empty_state).
  - reflexivity.
  - reflexivity.
Defined.

(** ** From populating to serving *)

(** The populator succeeds when every entry is a URL and every fetch and
    every put succeeds. *)
Lemma CreateCacheFromFileList_success h name (fileList urls : list string) bypass s
    (rs : list Response) :
  resolve_all h fileList = Some urls →
  populate_outcomes h bypass (n_random s) (n_fetch s) fileList = Ret <$> rs →
  Forall (λ r, r_ok r = true) rs →
  (∀ url, url ∈ urls → put_ok h name url = true) →
  ∃ s' c',
    CreateCacheFromFileList h name fileList bypass s = (Ret (), s')
    ∧ cache_names s' = cache_names (caches_open name s).2
    ∧ find_cache name s' = Some c'
    ∧ (∀ k, k ∈ urls → ∃ resp, (k, resp) ∈ zip urls rs ∧ c' !! k = Some resp).
Proof.
  intros Hurls Hrs Hok Hputs.
  pose proof (zip_keys _ _ _ _ _ _ _ Hurls Hrs) as Hkeys.
  destruct (CreateCacheFromFileList_fetch_phase h name fileList bypass s)
    as (s1 & entries & Hc & _ & _
        & [(e & _ & Hnot) | (urls' & rs' & _ & Hrs' & _ & Hrun)]).
  { destruct Hnot. by exists urls, rs. }
  rewrite Hrs in Hrs'. apply Ret_fmap_inj in Hrs' as <-.
  destruct (write_entries_cases h name fileList urls rs s1 Hurls)
    as (s' & evs & _ & _ & _ & _
        & [(_ & Hw & Hn & c' & Hfind & _ & Hin) | (key & puts & Hkey & Hput & _)]);
    cycle 1.
  { rewrite Hkeys in Hkey. specialize (Hputs key Hkey). congruence. }
  rewrite Hkeys in Hin. exists s', c'. split_and!; [by rewrite Hrun | | done | done].
  rewrite Hn, !cache_names_open. unfold has_cache, cache_names. by rewrite Hc.
Qed.

(** X26. From install to offline use.  When a scope without generations
    is populated by an update check in which nothing fails, a request for
    the URL that a file of the populator's list resolves to is answered by
    [HandleFetch] with the response the check fetched for that URL, and
    nothing is handed to [fetch]. *)
Theorem populated_file_served_from_cache h isFirst s murl r data (urls : list string)
    (rs : list Response) f rq nav :
  resolve h OFFLINE_DATA_FILE = Some murl →
  network h (n_fetch s) (manifest_request h murl s) = Some r →
  r_ok r = true → r_json r = Some data →
  available h s = [] →
  resolve_all h (populate_list h data) = Some urls →
  populate_outcomes h (negb isFirst) (S (n_random s)) (S (n_fetch s)) (populate_list h data)
    = Ret <$> rs →
  Forall (λ r, r_ok r = true) rs →
  (∀ url, url ∈ urls → put_ok h (GetCacheVersionName h (m_version data)) url = true) →
  f ∈ populate_list h data → resolve h f = Some (rq_url rq) →
  ∃ resp s'',
    HandleFetch h rq nav (UpdateCheck h isFirst s).2 = (Ret resp, s'')
    ∧ (rq_url rq, resp) ∈ zip urls rs
    ∧ fetches (trace s'') = fetches (trace (UpdateCheck h isFirst s).2).
Proof.
  intros Hm Hnet Hok Hjson Hnone Hurls Hrs Hoks Hputs Hfile Hurl.
  set (name := GetCacheVersionName h (m_version data)) in *.
  assert (Hhas : has_cache name s = false).
  { apply has_cache_false. intros Hin.
    assert (Hlisted : name ∈ available h s).
    { apply elem_of_available. split; [done | apply GetCacheVersionName_listed]. }
    rewrite Hnone in Hlisted. by apply elem_of_nil in Hlisted. }
  rewrite (UpdateCheck_populate_exact h isFirst s murl r data Hm Hnet Hok Hjson Hhas).
  fold name.
  destruct (before_populate_frame h murl isFirst data s) as (Hc & Hnr & Hnf & _).
  remember (before_populate h murl isFirst data s) as s_pre.
  rewrite <- Hnr, <- Hnf in Hrs.
  destruct (CreateCacheFromFileList_success h name (populate_list h data) urls (negb isFirst)
              s_pre rs Hurls Hrs Hoks Hputs)
    as (s2 & c' & Hpop & Hnames & Hfind & Hin).
  rewrite Hpop. cbn [after_populate].
  set (s3 := record_all (EvConsole LvLog (ready_entry h s2)
                         :: posted h (ready_message h (m_version data) s2)) s2).
  assert (Hav3 : available h s3 = [name]).
  { change (available h s3) with (available h s2).
    unfold available at 1. rewrite Hnames. fold (available h (caches_open name s_pre).2).
    rewrite available_after_open.
    - unfold available, cache_names. rewrite Hc. fold (cache_names s). fold (available h s).
      by rewrite Hnone.
    - apply GetCacheVersionName_listed.
    - unfold has_cache, cache_names in *. by rewrite Hc. }
  assert (Hsel : GetCacheNameToUse h (available h s3) nav s3 = (Ret (Some name), s3)).
  { rewrite Hav3. reflexivity. }
  assert (Hsome : available h s3 ≠ []) by by rewrite Hav3.
  cbn [snd]. rewrite (HandleFetch_selected h rq nav s3 _ _ Hsome Hsel).
  change (name_to_string (Some name)) with name.
  destruct (proj1 (resolve_all_elem h _ urls Hurls) f Hfile) as (url & Hurl' & Hmem).
  assert (url = rq_url rq) as -> by congruence.
  destruct (Hin _ Hmem) as (resp & Hzip & Hentry).
  exists resp, (caches_open name s3).2. split_and!.
  - unfold serve. mrun (cache_match_run name rq (caches_open name s3).2).
    rewrite lookup_entry_open.
    change (lookup_entry name (rq_url rq) s3) with (lookup_entry name (rq_url rq) s2).
    unfold lookup_entry. by rewrite Hfind; simpl; rewrite Hentry.
  - exact Hzip.
  - unfold caches_open. destruct (has_cache name s3); simpl;
      by rewrite fetches_app, app_nil_r.
Qed.

Lemma populated_file_served_from_cache_witness :
  ∃ resp s'',
    HandleFetch steady_host a_js false (UpdateCheck steady_host true empty_state).2
    = (Ret resp, s'')
    ∧ (rq_url a_js, resp) ∈ zip [app_url "index.html"; app_url ""; app_url "a.js"; app_url "b.js"]
                                [fetched (app_url "index.html"); fetched (app_url "");
                                 fetched (app_url "a.js"); fetched (app_url "b.js")]
    ∧ fetches (trace s'') = fetches (trace (UpdateCheck steady_host true empty_state).2).
Proof.
  apply (populated_file_served_from_cache steady_host true empty_state manifest_location
           (manifest_response demo_manifest) demo_manifest
           [app_url "index.html"; app_url ""; app_url "a.js"; app_url "b.js"]
           [fetched (app_url "index.html"); fetched (app_url "");
            fetched (app_url "a.js"); fetched (app_url "b.js")]
           "a.js" a_js false).
  - reflexivity.
  - vm_compute. reflexivity.
  - reflexivity.
  - reflexivity.
  - vm_compute. reflexivity.
  - vm_compute. reflexivity.
  - vm_compute. reflexivity.
  - repeat constructor.
  - intros url _. reflexivity.
  - vm_compute. do 2 apply list_elem_of_further. apply list_elem_of_here.
  - reflexivity.
Defined.
